(** * Missing-glyph resolution pipeline of the PDF font fixer

    A shallow embedding of [src/fixmissingunicode.py], [src/page_render.py]
    and [src/ocr.py].  Python strings whose code points matter (decoded
    character text, OCR results, the default character) are lists of code
    points; font names and dictionary keys are [string]s.  Bounding-box
    coordinates and heights are taken in exact arithmetic ([Z]).  Code that
    mutates objects or may raise runs in a state-and-exception monad whose
    state survives a raised exception, as Python's heap does. *)

From Stdlib Require Import ZArith Lia.
From stdpp Require Import sorting gmap strings list pretty functions.

Local Open Scope Z_scope.

(** ** Python values *)

(** A Python [str]: its sequence of code points. *)
Abbreviation pystr := (list Z).

(** Truthiness of a [str]: [if result:] holds for a non-empty string. *)
Definition py_truthy (s : pystr) : bool :=
  match s with [] => false | _ :: _ => true end.

(** [l.count(x)] *)
Definition py_count `{EqDecision A} (l : list A) (x : A) : nat :=
  length (filter (λ y, y = x) l).

(** The loop of [max(iterable, key=...)]: the running maximum is replaced only
    by an item whose key is strictly greater, so the first maximal item wins. *)
Fixpoint py_max_from {A K} (gt : K → K → bool) (key : A → K) (best : A) (l : list A) : A :=
  match l with
  | [] => best
  | x :: l' => py_max_from gt key (if gt (key x) (key best) then x else best) l'
  end.

(** [max(l, key=key)]; [None] stands for the [ValueError] on an empty list. *)
Definition py_max {A K} (gt : K → K → bool) (key : A → K) (l : list A) : option A :=
  match l with
  | [] => None
  | x :: l' => Some (py_max_from gt key x l')
  end.

Definition nat_gt (a b : nat) : bool := bool_decide (b < a)%nat.
Definition Z_gt (a b : Z) : bool := bool_decide (b < a).

(** ** Geometry *)

Record PdfRect := mkRect { left : Z; top : Z; right : Z; bottom : Z }.

Global Instance PdfRect_eq_dec : EqDecision PdfRect.
Proof. solve_decision. Defined.

(** [CharLocation._get_height] *)
Definition _get_height (bbox : PdfRect) : Z := Z.abs (top bbox - bottom bbox).

(** The new field values that [_increase_bbox] stores into its argument. *)
Definition increase_bbox_fields (bbox : PdfRect) (increase_by : Z) : PdfRect :=
  if bool_decide (bottom bbox < top bbox) then
    {| left := left bbox - increase_by;
       right := right bbox + increase_by;
       top := top bbox + increase_by;
       bottom := bottom bbox - increase_by |}
  else
    {| left := left bbox - increase_by;
       right := right bbox + increase_by;
       top := top bbox - increase_by;
       bottom := bottom bbox + increase_by |}.

(** ** The needs-OCR predicate *)

Inductive exn :=
| TypeError
| ValueError
| KeyError
| EngineError
| OSError
| PdfixInitializeException
| PdfixAuthorizationException
| PdfixActivationException
| PdfixFailedToOpenException
| PdfixFailedToSaveException
| PdfixFailedToRenderException (message : string).

Global Instance exn_eq_dec : EqDecision exn.
Proof. solve_decision. Defined.

Inductive result (A : Type) :=
| Ok (a : A)
| Raise (e : exn).
Arguments Ok {A} a.
Arguments Raise {A} e.

(** [ord(c)]: defined on strings of length one only. *)
Definition ord (character : pystr) : result Z :=
  match character with
  | [n] => Ok n
  | _ => Raise TypeError
  end.

Definition _should_char_be_ocr (character : pystr) : result bool :=
  if bool_decide (character = []) then Ok true
  else
    match ord character with
    | Raise e => Raise e
    | Ok number =>
        (* U+FFFE is 65534, U+FEFF is 65279 *)
        if bool_decide (number = 65534 ∨ number = 65279) then Ok true
        else Ok false
    end.

(** ** Insertion-ordered dictionaries

    A Python [dict] keeps its keys in insertion order, and the pipeline
    iterates over [values()]; a dictionary is the list of its items, with
    no key twice. *)

Section pydict.
Context {K V : Type} `{EqDecision K}.

Fixpoint dict_get (d : list (K * V)) (k : K) : option V :=
  match d with
  | [] => None
  | (k', v) :: d' => if decide (k = k') then Some v else dict_get d' k
  end.

(** [d[k] = v]: overwrites in place, or appends a new item. *)
Fixpoint dict_set (d : list (K * V)) (k : K) (v : V) : list (K * V) :=
  match d with
  | [] => [(k, v)]
  | (k', v') :: d' =>
      if decide (k = k') then (k', v) :: d' else (k', v') :: dict_set d' k v
  end.

(** [k in d] *)
Definition dict_mem (d : list (K * V)) (k : K) : bool :=
  bool_decide (is_Some (dict_get d k)).

(** [d.values()] *)
Definition dict_values (d : list (K * V)) : list V := d.*2.

End pydict.

(** ** [list.sort(key=..., reverse=True)]

    The sort is stable, also under [reverse=True]: items with equal keys
    keep their order.  The stable descending order of a list is unique, so
    insertion from the right gives the list Python produces. *)

Section sort.
Context {A : Type} (key : A → Z).

Fixpoint insert_desc (x : A) (l : list A) : list A :=
  match l with
  | [] => [x]
  | y :: l' =>
      if bool_decide (key y ≤ key x) then x :: y :: l'
      else y :: insert_desc x l'
  end.

Fixpoint sort_reverse (l : list A) : list A :=
  match l with
  | [] => []
  | x :: l' => insert_desc x (sort_reverse l')
  end.

End sort.

(** ** The document model, the rasteriser and the OCR engines *)

Record PdfFont := mkFont {
  font_id : nat;
  GetFontName : string;
  GetEmbedded : bool }.

Record CharData := mkChar {
  GetCharCode : Z;
  GetCharText : pystr;
  GetCharBBox : PdfRect }.

Inductive PdsPageObject :=
| PdsText (font : option PdfFont) (chars : list CharData)
| PdsOther.

(** A page: its content ([None]: [GetContent] fails; a [None] object:
    [GetObject] fails) and the outcome of each SDK call of [render_page]. *)
Record PdfPage := mkPage {
  GetContent : option (list (option PdsPageObject));
  AcquirePageView : bool;
  CreateImage : bool;
  DrawContent : bool;
  CreateFileStream : bool;
  SaveToStream : bool }.

(** A document: its pages ([None]: [AcquirePage] fails) and whether [Save]
    succeeds. *)
Record PdfDoc := mkDoc {
  doc_pages : list (option PdfPage);
  Save : bool }.

(** What a temporary file holds: nothing yet, the raster of a full page, or
    a tile cropped from one. *)
Inductive image :=
| Blank
| PageRaster (page_index : nat)
| Tile (page_index : nat) (area : PdfRect).

(** The services outside the pipeline.  An OCR engine maps the image it is
    given to its raw answer, or raises; for Rapid OCR the answer is taken
    after [_parse_rapid_ocr], as (text, score) pairs. *)
Record Sdk := mkSdk {
  GetPdfix : bool;
  Authorize : bool;
  Activate : bool;
  OpenDoc : option PdfDoc;
  SetUnicodeForCharcode : PdfFont → Z → pystr → bool;
  image_crop_fails : image → PdfRect → bool;
  image_to_string : image → result pystr;
  rapidocr : image → result (list (pystr * Z));
  readtext : image → result (list pystr) }.

(** The attributes of a [FixFontGlyphsUnicodesPdfix] object: the names of the
    engines, which the class takes from [constants.py], and the fields set by
    the constructor. *)
Record Config := mkConfig {
  EASY_OCR : string;
  RAPID_OCR : string;
  TESSERACT_OCR : string;
  license_name : option string;
  license_key : option string;
  engine : string;
  default_character : pystr }.

(** ** Program state *)

Inductive event :=
| EvPrint (message : string)
| EvAcquirePage (page_index : nat) (acquired : bool)
| EvReleasePage (page_index : nat)
| EvRenderPage (page_index : nat) (path : nat) (rendered : bool)
| EvRemove (path : nat)
| EvSetUnicode (font : nat) (char_code : Z) (character : pystr) (assigned : bool)
| EvSave (saved : bool)
| EvClose
| EvDestroy.

Global Instance event_eq_dec : EqDecision event.
Proof. solve_decision. Defined.

(** [cached_renders] is the field of the fixer object; [rects] holds the
    [PdfRect] objects by reference, [rects_next] being the next free
    reference; [files] is the temporary directory, [files_next] the next
    unused file name; [log] records the calls that leave the program. *)
Record state := mkState {
  cached_renders : list (nat * nat);
  rects : nat → PdfRect;
  rects_next : nat;
  files : gmap nat image;
  files_next : nat;
  log : list event }.

Definition set_cached_renders (c : list (nat * nat)) (s : state) : state :=
  mkState c (rects s) (rects_next s) (files s) (files_next s) (log s).
Definition set_rects (r : nat → PdfRect) (n : nat) (s : state) : state :=
  mkState (cached_renders s) r n (files s) (files_next s) (log s).
Definition set_files (f : gmap nat image) (n : nat) (s : state) : state :=
  mkState (cached_renders s) (rects s) (rects_next s) f n (log s).
Definition set_log (l : list event) (s : state) : state :=
  mkState (cached_renders s) (rects s) (rects_next s) (files s) (files_next s) l.

Definition initial_state : state :=
  mkState [] (λ _, mkRect 0 0 0 0) 0%nat ∅ 0%nat [].

(** ** The monad of Python code: state, and exceptions that keep the state *)

Definition Py (A : Type) : Type := state → result A * state.

Global Instance Py_ret : MRet Py := λ A a s, (Ok a, s).
Global Instance Py_bind : MBind Py := λ A B f m s,
  match m s with
  | (Ok a, s') => f a s'
  | (Raise e, s') => (Raise e, s')
  end.
Global Instance Py_throw : MThrow exn Py := λ A e s, (Raise e, s).

(** [try: body finally: final] *)
Definition try_finally {A} (body : Py A) (final : Py unit) : Py A := λ s,
  match body s with
  | (r, s') =>
      match final s' with
      | (Ok _, s'') => (r, s'')
      | (Raise e, s'') => (Raise e, s'')
      end
  end.

(** [try: body except Exception: handler] *)
Definition try_except {A} (body : Py A) (handler : Py A) : Py A := λ s,
  match body s with
  | (Ok a, s') => (Ok a, s')
  | (Raise _, s') => handler s'
  end.

Definition lift {A} (r : result A) : Py A := λ s, (r, s).
Definition get_state : Py state := λ s, (Ok s, s).
Definition emit (e : event) : Py unit := λ s, (Ok tt, set_log (log s ++ [e]) s).
Definition print (message : string) : Py unit := emit (EvPrint message).

(** [for i in range(start, start + count)], threading the loop's variables. *)
Fixpoint for_range {S} (start : nat) (count : nat) (body : nat → S → Py S) (acc : S) : Py S :=
  match count with
  | O => mret acc
  | Datatypes.S count' => acc' ← body start acc; for_range (Datatypes.S start) count' body acc'
  end.

(** [for x in l] *)
Fixpoint for_each {A S} (l : list A) (body : A → S → Py S) (acc : S) : Py S :=
  match l with
  | [] => mret acc
  | x :: l' => acc' ← body x acc; for_each l' body acc'
  end.

(** ** Temporary files and [PdfRect] objects *)

(** [tempfile.NamedTemporaryFile]: a new, empty file under an unused name. *)
Definition NamedTemporaryFile : Py nat := λ s,
  (Ok (files_next s),
   set_files (<[files_next s := Blank]> (files s)) (S (files_next s)) s).

Definition write_file (path : nat) (content : image) : Py unit := λ s,
  (Ok tt, set_files (<[path := content]> (files s)) (files_next s) s).

(** Leaving the [with] block of a temporary file created with the default
    [delete=True]. *)
Definition delete_file (path : nat) : Py unit := λ s,
  (Ok tt, set_files (delete path (files s)) (files_next s) s).

(** [with tempfile.NamedTemporaryFile(...) as tmp: body] *)
Definition with_temporary_file {A} (body : nat → Py A) : Py A :=
  tmp ← NamedTemporaryFile;
  try_finally (body tmp) (delete_file tmp).

(** [os.remove(path)] *)
Definition os_remove (path : nat) : Py unit := λ s,
  match files s !! path with
  | Some _ =>
      (Ok tt, set_log (log s ++ [EvRemove path])
                (set_files (delete path (files s)) (files_next s) s))
  | None => (Raise OSError, s)
  end.

(** A [PdfRect] object returned by the SDK: a new object each time. *)
Definition new_PdfRect (fields : PdfRect) : Py nat := λ s,
  (Ok (rects_next s),
   set_rects (<[rects_next s := fields]> (rects s)) (S (rects_next s)) s).

Definition read_PdfRect (bbox : nat) : Py PdfRect := λ s, (Ok (rects s bbox), s).

(** ** [CharLocation] and [MissingGlyph] *)

(** [bbox] is a reference to the [PdfRect] object the location keeps;
    [height] is computed once, by the constructor. *)
Record CharLocation := mkLocation {
  page_index : nat;
  bbox : nat;
  height : Z }.

Definition new_CharLocation (page_index : nat) (bbox : nat) : Py CharLocation :=
  fields ← read_PdfRect bbox;
  mret (mkLocation page_index bbox (_get_height fields)).

Record MissingGlyph := mkGlyph {
  font : PdfFont;
  char_code : Z;
  locations : list CharLocation;
  key : string }.

Definition new_MissingGlyph (font : PdfFont) (char_code : Z) : MissingGlyph :=
  mkGlyph font char_code [] (GetFontName font +:+ pretty char_code).

Definition add_location (location : CharLocation) (glyph : MissingGlyph) : MissingGlyph :=
  mkGlyph (font glyph) (char_code glyph) (locations glyph ++ [location]) (key glyph).

(** ** [page_render.py] *)

(** The SDK calls of [render_page] in the order the code makes them, each
    failure raising [PdfixFailedToRenderException]; the [finally] blocks
    release the page view, the image and the file stream and re-raise. *)
Definition render_page_calls (page : PdfPage) : result unit :=
  if negb (AcquirePageView page) then
    Raise (PdfixFailedToRenderException "Unable to acquire page view")
  else if negb (CreateImage page) then
    Raise (PdfixFailedToRenderException "Unable to create the image")
  else if negb (DrawContent page) then
    Raise (PdfixFailedToRenderException "Unable to draw the content")
  else if negb (CreateFileStream page) then
    Raise (PdfixFailedToRenderException "Unable to create file stream")
  else if negb (SaveToStream page) then
    Raise (PdfixFailedToRenderException "Unable to save image to stream")
  else Ok tt.

(** [render_page(pdfix, page, temporary_file)]; [page_index] names the page
    in the log and in the raster written. *)
Definition render_page (page_index : nat) (page : PdfPage) (temporary_file : nat) : Py unit :=
  match render_page_calls page with
  | Ok _ =>
      emit (EvRenderPage page_index temporary_file true);;
      write_file temporary_file (PageRaster page_index)
  | Raise e =>
      emit (EvRenderPage page_index temporary_file false);;
      mthrow e
  end.

Definition cropped (input : image) (area : PdfRect) : option image :=
  match input with
  | Blank => None
  | PageRaster i => Some (Tile i area)
  | Tile i _ => Some (Tile i area)
  end.

(** [crop_image(input_image, output_image, pdfix, page, bbox)]: opening a
    missing or empty file, or a failure inside the imaging library, raises. *)
Definition crop_image (sdk : Sdk) (input_image output_image : nat) (page : PdfPage)
    (bbox : nat) : Py unit :=
  if negb (AcquirePageView page) then
    mthrow (PdfixFailedToRenderException "Unable to acquire page view")
  else
    area ← read_PdfRect bbox;
    s ← get_state;
    match files s !! input_image with
    | None => mthrow OSError
    | Some img =>
        match cropped img area with
        | None => mthrow OSError
        | Some tile =>
            if image_crop_fails sdk img area then mthrow OSError
            else write_file output_image tile
        end
    end.

(** ** [ocr.py] *)

(** [s.lstrip(c)] and [s.strip(c)] for a single character [c]. *)
Fixpoint py_lstrip (c : Z) (s : pystr) : pystr :=
  match s with
  | [] => []
  | x :: s' => if bool_decide (x = c) then py_lstrip c s' else s
  end.

Definition py_strip (c : Z) (s : pystr) : pystr :=
  reverse (py_lstrip c (reverse (py_lstrip c s))).

Section OCR.
Context (sdk : Sdk) (default_character : pystr).

(** An engine reads the image file at the path; with no such file it raises. *)
Definition run_engine {A} (engine : image → result A) (path_to_image : nat) : Py A :=
  s ← get_state;
  match files s !! path_to_image with
  | Some img => lift (engine img)
  | None => mthrow EngineError
  end.

Definition tesseract_ocr (path_to_image : nat) : Py pystr :=
  try_except
    (result ← run_engine (image_to_string sdk) path_to_image;
     (* Remove new lines *)
     let stripped_result := py_strip 10 result in
     (* Return first character *)
     mret (match stripped_result with [] => [] | c :: _ => [c] end))
    (print "During Tesseract OCR run, exception happened. Returning default result.";;
     mret default_character).

Definition rapid_ocr (path_to_image : nat) : Py pystr :=
  try_except
    (output ← run_engine (rapidocr sdk) path_to_image;
     match py_max Z_gt snd output with
     | Some best => mret (fst best)
     | None => mret default_character
     end)
    (print "During Rapid OCR run, exception happened. Returning default result.";;
     mret default_character).

Definition easy_ocr (path_to_image : nat) : Py pystr :=
  try_except
    (result ← run_engine (readtext sdk) path_to_image;
     match result with
     | first :: _ => mret first
     | [] => mret default_character
     end)
    (print "During Easy OCR run, exception happened. Returning default result.";;
     mret default_character).

End OCR.

(** ** [fixmissingunicode.py]: class [FixFontGlyphsUnicodesPdfix] *)

Definition AcquirePage (doc : PdfDoc) (page_index : nat) : Py (option PdfPage) :=
  let page := mjoin (doc_pages doc !! page_index) in
  emit (EvAcquirePage page_index (bool_decide (is_Some page)));;
  mret page.

Definition Release (page_index : nat) : Py unit := emit (EvReleasePage page_index).

(** [_increase_bbox]: the fields of the object passed in are assigned, and
    that object is returned. *)
Definition _increase_bbox (bbox : nat) (increase_by : Z) : Py nat := λ s,
  (Ok bbox,
   set_rects (<[bbox := increase_bbox_fields (rects s bbox) increase_by]> (rects s))
     (rects_next s) s).

(** Truthiness of an [Optional[str]]. *)
Definition py_truthy_optional (o : option string) : bool :=
  match o with
  | Some s => negb (String.eqb s "")
  | None => false
  end.

Section FixFontGlyphsUnicodesPdfix.
Context (sdk : Sdk) (self : Config).

Definition authorize_sdk : Py unit :=
  if py_truthy_optional (license_name self) && py_truthy_optional (license_key self) then
    if negb (Authorize sdk) then mthrow PdfixAuthorizationException else mret tt
  else if py_truthy_optional (license_key self) then
    if negb (Activate sdk) then mthrow PdfixActivationException else mret tt
  else print "No license name or key provided. Using PDFix SDK trial".

(** One turn of the loop over the characters of a text object. *)
Definition gather_char (font : PdfFont) (page_index : nat) (char : CharData)
    (missing_glyphs : list (string * MissingGlyph)) : Py (list (string * MissingGlyph)) :=
  let char_code := GetCharCode char in
  let char_text := GetCharText char in
  should ← lift (_should_char_be_ocr char_text);
  if negb should then
    (* Glyph has unicode assigned, go to next character *)
    mret missing_glyphs
  else
    bbox ← new_PdfRect (GetCharBBox char);
    let glyph_info := new_MissingGlyph font char_code in
    location ← new_CharLocation page_index bbox;
    let dictionary_key := key glyph_info in
    let missing_glyphs :=
      if dict_mem missing_glyphs dictionary_key then missing_glyphs
      else dict_set missing_glyphs dictionary_key glyph_info in
    match dict_get missing_glyphs dictionary_key with
    | Some glyph => mret (dict_set missing_glyphs dictionary_key (add_location location glyph))
    | None => mthrow KeyError
    end.

(** One turn of the loop over the objects of a page. *)
Definition gather_object (page_index : nat) (objects : list (option PdsPageObject))
    (obj_index : nat) (missing_glyphs : list (string * MissingGlyph))
    : Py (list (string * MissingGlyph)) :=
  match mjoin (objects !! obj_index) with
  | None => print "Failed to obtain object";; mret missing_glyphs
  | Some PdsOther => mret missing_glyphs
  | Some (PdsText font chars) =>
      match font with
      | None => mret missing_glyphs
      | Some font =>
          if negb (GetEmbedded font) then
            (* We are not interested in not embedded fonts *)
            mret missing_glyphs
          else
            (* Walk characters of text object *)
            for_range 0 (length chars)
              (λ char_index missing_glyphs,
                 match chars !! char_index with
                 | Some char => gather_char font page_index char missing_glyphs
                 | None => mret missing_glyphs
                 end)
              missing_glyphs
      end
  end.

(** One turn of the loop over the pages of the document. *)
Definition gather_page (doc : PdfDoc) (page_index : nat)
    (missing_glyphs : list (string * MissingGlyph)) : Py (list (string * MissingGlyph)) :=
  page ← AcquirePage doc page_index;
  match page with
  | None => print "Failed to open page";; mret missing_glyphs
  | Some page =>
      try_finally
        (match GetContent page with
         | None => print "Failed to get content from PDF page";; mret missing_glyphs
         | Some objects =>
             (* Walk Objects in Content *)
             for_range 0 (length objects) (gather_object page_index objects) missing_glyphs
         end)
        (Release page_index)
  end.

Definition _gather_all_missing_occurences (doc : PdfDoc) : Py (list (string * MissingGlyph)) :=
  let missing_glyphs := [] in
  let page_count := length (doc_pages doc) in
  for_range 0 page_count (gather_page doc) missing_glyphs.

(** [self.cached_renders[page_index] = temp_path] *)
Definition store_render (page_index : nat) (temp_path : nat) : Py unit := λ s,
  (Ok tt, set_cached_renders (dict_set (cached_renders s) page_index temp_path) s).

Definition _get_pdf_page_render (page_index : nat) (page : PdfPage) : Py nat :=
  s ← get_state;
  match dict_get (cached_renders s) page_index with
  | Some path => mret path
  | None =>
      tmp ← NamedTemporaryFile;
      render_page page_index page tmp;;
      store_render page_index tmp;;
      mret tmp
  end.

Definition _ocr_character (image_path : nat) : Py pystr :=
  if String.eqb (engine self) (EASY_OCR self) then
    easy_ocr sdk (default_character self) image_path
  else if String.eqb (engine self) (RAPID_OCR self) then
    rapid_ocr sdk (default_character self) image_path
  else if String.eqb (engine self) (TESSERACT_OCR self) then
    tesseract_ocr sdk (default_character self) image_path
  else mret [].

Definition max_count : nat := 5.

(** The body of the [try] block for one location: render or reuse the page
    raster, enlarge the box, crop and recognise. *)
Definition ocr_location (location : CharLocation) (page : PdfPage) (results : list pystr)
    : Py (list pystr) :=
  (* Get page image *)
  page_image ← _get_pdf_page_render (page_index location) page;
  with_temporary_file (λ tmp_path,
    bbox ← _increase_bbox (bbox location) 2;
    (* Crop it *)
    crop_image sdk page_image tmp_path page bbox;;
    result ← _ocr_character tmp_path;
    if py_truthy result then mret (results ++ [result]) else mret results).

(** The loop of [_ocr_missing_glyph], with its counter. *)
Fixpoint ocr_locations (doc : PdfDoc) (locations : list CharLocation) (count : nat)
    (results : list pystr) : Py (list pystr) :=
  match locations with
  | [] => mret results
  | location :: rest =>
      let count := S count in
      if bool_decide (max_count < count)%nat then mret results
      else
        page ← AcquirePage doc (page_index location);
        match page with
        | None => print "Failed to open page";; ocr_locations doc rest count results
        | Some page =>
            results ← try_finally (ocr_location location page results)
                                 (Release (page_index location));
            ocr_locations doc rest count results
        end
  end.

(** The decision after the loop. *)
Definition choose_character (results : list pystr) : Py pystr :=
  if bool_decide (length results = 0%nat) then mret (default_character self)
  else
    match py_max nat_gt (py_count results) results with
    | Some char_result =>
        print "From OCR results: character was chosen";;
        mret char_result
    | None => mthrow ValueError
    end.

Definition _ocr_missing_glyph (doc : PdfDoc) (locations : list CharLocation)
    (missing_glyph : MissingGlyph) : Py pystr :=
  results ← ocr_locations doc locations 0 [];
  choose_character results.

(** One turn of the loop of [_process_all_missing_occurences]; the engines
    are taken as loaded, so that constructing [OCR] does not raise. *)
Definition process_glyph (doc : PdfDoc) (value : MissingGlyph) : Py unit :=
  let locations := sort_reverse height (locations value) in
  new_char ← _ocr_missing_glyph doc locations value;
  let assigned := SetUnicodeForCharcode sdk (font value) (char_code value) new_char in
  emit (EvSetUnicode (font_id (font value)) (char_code value) new_char assigned);;
  if negb assigned then print "Failed to set character to charcode" else mret tt.

Definition _process_all_missing_occurences (doc : PdfDoc)
    (missing_glyphs : list (string * MissingGlyph)) : Py unit :=
  for_each (dict_values missing_glyphs) (λ value _, process_glyph doc value) tt.

Definition _clean_up_rendered_pages : Py unit :=
  s ← get_state;
  for_each (dict_values (cached_renders s)) (λ value _, os_remove value) tt.

Definition fix_missing_unicode : Py unit :=
  if negb (GetPdfix sdk) then mthrow PdfixInitializeException
  else
    try_finally
      ((* Try to authorize PDFix SDK *)
       authorize_sdk;;
       (* Open the document *)
       match OpenDoc sdk with
       | None => mthrow PdfixFailedToOpenException
       | Some doc =>
           try_finally
             (missing_glyphs ← _gather_all_missing_occurences doc;
              _process_all_missing_occurences doc missing_glyphs;;
              _clean_up_rendered_pages;;
              (* Save the processed document *)
              emit (EvSave (Save doc));;
              if negb (Save doc) then mthrow PdfixFailedToSaveException else mret tt)
             (emit EvClose)
       end)
      (emit EvDestroy).

End FixFontGlyphsUnicodesPdfix.




(** ** Vocabulary of the properties *)

(** A relation between the state before and after that every step of a
    computation keeps, whatever it returns or raises. *)
Definition steps (R : relation state) {A} (m : Py A) : Prop :=
  ∀ s, R s (m s).2.

(** The events a computation appends to the log all satisfy [P]. *)
Definition log_grows (P : event → Prop) : relation state :=
  λ s s', ∃ delta, log s' = log s ++ delta ∧ Forall P delta.

(** A projection of the state that a computation leaves as it was. *)
Definition keeps {B} (proj : state → B) : relation state :=
  λ s s', proj s' = proj s.

(** What a relation must tolerate for the pipeline's primitives to keep it. *)
Class AllowsEvents (R : relation state) (E : event → Prop) :=
  allows_emit : ∀ e, E e → steps R (emit e).

Class AllowsFiles (R : relation state) := {
  allows_tmp : steps R NamedTemporaryFile;
  allows_write path content : steps R (write_file path content);
  allows_delete path : steps R (delete_file path) }.

Class AllowsRemove (R : relation state) :=
  allows_remove : ∀ path, steps R (os_remove path).

Class AllowsNewRect (R : relation state) :=
  allows_new_rect : ∀ fields, steps R (new_PdfRect fields).

Class AllowsIncrease (R : relation state) :=
  allows_increase : ∀ bbox k, steps R (_increase_bbox bbox k).

Class AllowsStore (R : relation state) :=
  allows_store : ∀ i path, steps R (store_render i path).

(** The page indices of the [AcquirePage] calls in a stretch of the log. *)
Definition acquired_pages (l : list event) : list nat :=
  omap (λ e, match e with EvAcquirePage i _ => Some i | _ => None end) l.

Definition is_acquire (e : event) : Prop :=
  match e with EvAcquirePage _ _ => True | _ => False end.

(** The scan reaches [char], drawn in the embedded [font], on page [i]. *)
Definition scans_char (doc : PdfDoc) (i : nat) (font : PdfFont) (char : CharData) : Prop :=
  ∃ page objects j chars k,
    doc_pages doc !! i = Some (Some page) ∧
    GetContent page = Some objects ∧
    objects !! j = Some (Some (PdsText (Some font) chars)) ∧
    GetEmbedded font = true ∧
    chars !! k = Some char.

(** ** Example inputs *)

(** An embedded font, a page on which every SDK call succeeds, and a page
    whose content cannot be drawn. *)
Definition example_font : PdfFont := mkFont 0 "F1" true.

Definition good_page (objects : list (option PdsPageObject)) : PdfPage :=
  mkPage (Some objects) true true true true true.

Definition undrawable_page (objects : list (option PdsPageObject)) : PdfPage :=
  mkPage (Some objects) true true false true true.

(** A character of code [char_code] without Unicode, in a box of the given
    height. *)
Definition unmapped_char (char_code : Z) (box_height : Z) : CharData :=
  mkChar char_code [] (mkRect 0 box_height 5 0).

(** A ligature decoded to the two characters "fi". *)
Definition ligature_char : CharData := mkChar 7 [102; 105] (mkRect 0 10 5 0).

Definition text_object (chars : list CharData) : option PdsPageObject :=
  Some (PdsText (Some example_font) chars).

Definition ligature_doc : PdfDoc :=
  mkDoc [Some (good_page [text_object [ligature_char]])] true.

(** Engines that recognise "A" (Tesseract with a trailing newline) in every
    image, and engines that fail on every image. *)
Definition example_sdk (doc : PdfDoc) : Sdk :=
  mkSdk true true true (Some doc) (λ _ _ _, true) (λ _ _, false)
    (λ _, Ok [65; 10]) (λ _, Ok [([65], 9)]) (λ _, Ok [[65]]).

Definition failing_engines_sdk (doc : PdfDoc) : Sdk :=
  mkSdk true true true (Some doc) (λ _ _ _, true) (λ _ _, false)
    (λ _, Raise EngineError) (λ _, Raise EngineError) (λ _, Raise EngineError).

(** The configuration of the command line's defaults: Tesseract, and a
    space as the default character. *)
Definition example_config : Config :=
  mkConfig "easy" "rapid" "tesseract" None None "tesseract" [32].

(** ** Invariants of a run *)

(** The outcome of a computation: [None] when it returns, the exception
    when it raises. *)
Definition outcome {A} (r : result A) : option exn :=
  match r with Ok _ => None | Raise e => Some e end.

(** A computation is [total] when it never raises. *)
Definition total {A} (m : Py A) : Prop := ∀ s, ∃ a, (m s).1 = Ok a.

Section safety.
(** [Q None] is an invariant of the state while the run goes on; [Q (Some e)]
    is what holds of the state once [e] has been raised. *)
Context (Q : option exn → state → Prop).

(** From a state within the invariant the computation ends within [Q]. *)
Definition safe {A} (m : Py A) : Prop :=
  ∀ s, Q None s → Q (outcome (m s).1) (m s).2.

End safety.

(** [R0] relates states between which the invariant is kept; [R1] relates
    states between which [Q] is kept whatever the outcome. *)
Class Invariant (Q : option exn → state → Prop) (R0 R1 : relation state) := {
  inv_weaken : ∀ e s, Q None s → Q (Some e) s;
  inv_R0 : ∀ s s', R0 s s' → Q None s → Q None s';
  inv_R1 : ∀ o s s', R1 s s' → Q o s → Q o s' }.

Definition is_render (e : event) : Prop :=
  match e with EvRenderPage _ _ _ => True | _ => False end.

Definition is_failed_render (e : event) : Prop :=
  match e with EvRenderPage _ _ false => True | _ => False end.

(** The events of the [finally] blocks. *)
Definition is_release (e : event) : Prop :=
  match e with EvReleasePage _ | EvClose | EvDestroy => True | _ => False end.

(** The pages of the calls of [render_page] in the log, in order. *)
Definition render_attempts (l : list event) : list nat :=
  omap (λ e, match e with EvRenderPage i _ _ => Some i | _ => None end) l.

(** The part of the log after the first failed [render_page], if any. *)
Fixpoint after_failed_render (l : list event) : option (list event) :=
  match l with
  | [] => None
  | EvRenderPage _ _ false :: rest => Some rest
  | _ :: rest => after_failed_render rest
  end.

Definition is_render_exception (o : option exn) : Prop :=
  match o with Some (PdfixFailedToRenderException _) => True | _ => False end.

(** Once a [render_page] has failed, the outcome is its exception and the
    log only grows by releases. *)
Definition aborted_by_render (o : option exn) (s : state) : Prop :=
  match after_failed_render (log s) with
  | None => True
  | Some post => is_render_exception o ∧ Forall is_release post
  end.


(** What the render cache and the log say of the pages rendered. *)
Definition cache_view (s : state) : list (nat * nat) * list nat :=
  (cached_renders s, render_attempts (log s)).

(** While the run goes on, the pages in the cache are the pages rendered so
    far, each once; after an exception no page has been rendered twice. *)
Definition cache_matches_log (o : option exn) (s : state) : Prop :=
  match o with
  | None => (cached_renders s).*1 = render_attempts (log s) ∧ NoDup (cached_renders s).*1
  | Some _ => NoDup (render_attempts (log s))
  end.

(** Two pages showing the same unmapped glyph, 20 high on the first page
    and 10 high on the second, and the same with a second page that cannot
    be drawn. *)
Definition two_page_doc : PdfDoc :=
  mkDoc [Some (good_page [text_object [unmapped_char 1 20]]);
         Some (good_page [text_object [unmapped_char 1 10]])] true.

Definition second_page_undrawable_doc : PdfDoc :=
  mkDoc [Some (good_page [text_object [unmapped_char 1 20]]);
         Some (undrawable_page [text_object [unmapped_char 1 10]])] true.


(** ** The glyph table a scan is to produce

    Written after the specification of the scanner: the characters of the
    text objects with an embedded font, page by page, and for a key the
    locations (page index, height, box) of those that need OCR. *)

Definition needs_ocr (text : pystr) : Prop :=
  text = [] ∨ text = [65534] ∨ text = [65279].

Definition glyph_key (font : PdfFont) (char : CharData) : string :=
  GetFontName font +:+ pretty (GetCharCode char).

Definition object_chars (i : nat) (obj : option PdsPageObject)
    : list (nat * (PdfFont * CharData)) :=
  match obj with
  | Some (PdsText (Some font) chars) =>
      if GetEmbedded font then (λ char, (i, (font, char))) <$> chars else []
  | _ => []
  end.

Definition page_chars (i : nat) (page : option PdfPage) : list (nat * (PdfFont * CharData)) :=
  match page with
  | Some page =>
      match GetContent page with
      | Some objects => concat (object_chars i <$> objects)
      | None => []
      end
  | None => []
  end.

Definition doc_chars (doc : PdfDoc) : list (nat * (PdfFont * CharData)) :=
  concat (imap page_chars (doc_pages doc)).

Definition missing_at (k : string) (x : nat * (PdfFont * CharData)) : Prop :=
  needs_ocr (GetCharText x.2.2) ∧ glyph_key x.2.1 x.2.2 = k.

Global Instance missing_at_dec (k : string) (x : nat * (PdfFont * CharData)) :
  Decision (missing_at k x).
Proof. unfold missing_at, needs_ocr. apply _. Defined.

Definition expected_locations (k : string) (chars : list (nat * (PdfFont * CharData)))
    : list (nat * Z * PdfRect) :=
  (λ x, (x.1, _get_height (GetCharBBox x.2.2), GetCharBBox x.2.2))
    <$> filter (missing_at k) chars.

(** The locations a table holds for a key, and what they say in a state. *)
Definition table_locations (table : list (string * MissingGlyph)) (k : string)
    : list CharLocation :=
  from_option locations [] (dict_get table k).

Definition location_view (s : state) (l : CharLocation) : nat * Z * PdfRect :=
  (page_index l, height l, rects s (bbox l)).

(** The table holds, for every key, the locations expected of the
    characters scanned so far. *)
Definition table_matches (table : list (string * MissingGlyph)) (s : state)
    (chars : list (nat * (PdfFont * CharData))) : Prop :=
  ∀ k,
    Forall (λ l, (bbox l < rects_next s)%nat) (table_locations table k) ∧
    (is_Some (dict_get table k) → table_locations table k ≠ []) ∧
    location_view s <$> table_locations table k = expected_locations k chars.

(** * Further code of the repository *)

(** ** The log of a run, by kind of call *)

(** The assignments [SetUnicodeForCharcode] was asked for, in order: font,
    char code, character and whether the SDK accepted it. *)
Definition assignments (l : list event) : list (nat * Z * pystr * bool) :=
  omap (λ e, match e with EvSetUnicode f c u b => Some (f, c, u, b) | _ => None end) l.


(** What the run holds of the document's pages: nothing, page [i], or it
    has misused a page: acquired one while holding one, released or rendered
    one it does not hold, or saved or closed the document while holding one. *)
Inductive holding :=
| Free
| Holding (i : nat)
| Misuse.

Global Instance holding_eq_dec : EqDecision holding.
Proof. solve_decision. Defined.

Definition page_step (h : holding) (e : event) : holding :=
  match e with
  | EvAcquirePage i acquired =>
      match h with
      | Free => if acquired then Holding i else Free
      | _ => Misuse
      end
  | EvReleasePage i =>
      match h with
      | Holding j => if bool_decide (i = j) then Free else Misuse
      | _ => Misuse
      end
  | EvRenderPage i _ _ =>
      match h with
      | Holding j => if bool_decide (i = j) then h else Misuse
      | _ => Misuse
      end
  | EvSave _ | EvClose | EvDestroy =>
      match h with
      | Free => Free
      | _ => Misuse
      end
  | _ => h
  end.

Definition pages_held (l : list event) : holding := foldl page_step Free l.

Definition not_close_or_destroy (e : event) : Prop := e ≠ EvClose ∧ e ≠ EvDestroy.

(** A computation started while holding [h] ends holding [h]. *)
Definition stays (h : holding) : relation state :=
  λ s s', pages_held (log s) = h → pages_held (log s') = h.

(** Every entry of the table sits under its own key and keeps the font and
    the char code of the first scanned character of that key that needs
    OCR; a key has no entry while no such character has been scanned. *)
Definition table_identity (table : list (string * MissingGlyph))
    (scanned : list (nat * (PdfFont * CharData))) : Prop :=
  NoDup table.*1 ∧
  ∀ k,
    match dict_get table k with
    | Some glyph =>
        key glyph = k ∧
        ∃ first rest,
          filter (missing_at k) scanned = first :: rest ∧
          font glyph = first.2.1 ∧
          char_code glyph = GetCharCode first.2.2
    | None => filter (missing_at k) scanned = []
    end.

(** Two embedded fonts, "F1" and "F12": char code 23 of the first and char
    code 3 of the second give the same key, "F123". *)
Definition colliding_doc : PdfDoc :=
  mkDoc [Some (good_page
           [Some (PdsText (Some (mkFont 0 "F1" true)) [unmapped_char 23 20]);
            Some (PdsText (Some (mkFont 1 "F12" true)) [unmapped_char 3 10])])] true.

(** The exceptions a computation can raise all satisfy [X]. *)
Definition may_raise (X : exn → Prop) {A} (m : Py A) : Prop :=
  ∀ s e, (m s).1 = Raise e → X e.

(** What can end the resolution of the glyphs, and what can end a run. *)
Definition resolution_exception (e : exn) : Prop :=
  match e with
  | OSError | PdfixFailedToRenderException _ => True
  | _ => False
  end.


(** The part of the state that holds files: the temporary directory, the
    next unused name and the cache of rendered pages. *)
Definition storage (s : state) : gmap nat image * nat * list (nat * nat) :=
  (files s, files_next s, cached_renders s).

(** No file has a name the temporary directory has yet to hand out. *)
Definition names_unused (s : state) : Prop :=
  ∀ path, (files_next s ≤ path)%nat → files s !! path = None.

(** Seen from the files [before] a run: the cached rasters are files that
    were not there, and every other file is as it was. *)
Definition only_renders_added (before : gmap nat image) (s : state) : Prop :=
  names_unused s ∧
  (∀ path, path ∈ dict_values (cached_renders s) → before !! path = None) ∧
  (∀ path, path ∉ dict_values (cached_renders s) → files s !! path = before !! path).

(** Every cached raster is in a file of its own that holds the raster of a
    page. *)
Definition renders_on_disk (s : state) : Prop :=
  names_unused s ∧
  NoDup (dict_values (cached_renders s)) ∧
  ∀ path, path ∈ dict_values (cached_renders s) →
    ∃ i, files s !! path = Some (PageRaster i).

(** Every page of the document that can be acquired can be rendered. *)
Definition renderable (doc : PdfDoc) : Prop :=
  ∀ i page, doc_pages doc !! i = Some (Some page) → render_page_calls page = Ok tt.

(** Every assignment among the events is of a character within [P]. *)
Definition assigns_only (P : pystr → Prop) (e : event) : Prop :=
  match e with EvSetUnicode _ _ character _ => P character | _ => True end.

(** The box objects of the state before are unchanged in the state after,
    which may hold new ones. *)
Definition boxes_kept : relation state :=
  λ s s', (rects_next s ≤ rects_next s')%nat ∧
          ∀ b, (b < rects_next s)%nat → rects s' b = rects s b.

(** The calls a scan makes: it acquires and releases pages and prints. *)
Definition is_page_event (e : event) : Prop :=
  match e with
  | EvPrint _ | EvAcquirePage _ _ | EvReleasePage _ => True
  | _ => False
  end.

(** ** [ocr.py]: the answer of RapidOCR

    [_parse_rapid_ocr] takes anything: it tells tuples and lists from
    whatever else the engine may answer. *)
#[warnings="-register-all"] Inductive pyobj :=
| PyNone
| PyStr (text : pystr)
| PyFloat (score : Z)
| PyList (items : list pyobj)
| PyTuple (items : list pyobj).

(** The exceptions of [_parse_rapid_ocr]: of [result[0]] on an empty tuple,
    and those of [float(...)]. *)
Inductive parse_exn :=
| IndexError
| ConversionError (e : exn).

Inductive parsed :=
| Parsed (output : list (pystr * Z))
| ParseRaises (e : parse_exn).

Definition is_PyList (o : pyobj) : bool :=
  match o with PyList _ => true | _ => false end.

Section parse_rapid_ocr.
(** [str(o)] and [float(o)] of Python. *)
Context (py_str : pyobj → pystr) (py_float : pyobj → result Z).

(** One turn of the loop over the members; [member[1]] and [member[2]] are
    read only when the member is long enough. *)
Definition parse_member (member : pyobj) (output : list (pystr * Z)) : parsed :=
  match member with
  | PyList fields =>
      let recognised_text :=
        match fields !! 1%nat with Some text => py_str text | None => [] end in
      match (match fields !! 2%nat with Some score => py_float score | None => Ok 0 end) with
      | Ok score => Parsed (output ++ [(recognised_text, score)])
      | Raise e => ParseRaises (ConversionError e)
      end
  | _ => Parsed output
  end.

Fixpoint parse_members (members : list pyobj) (output : list (pystr * Z)) : parsed :=
  match members with
  | [] => Parsed output
  | member :: members' =>
      match parse_member member output with
      | Parsed output' => parse_members members' output'
      | ParseRaises e => ParseRaises e
      end
  end.

Definition _parse_rapid_ocr (result : pyobj) : parsed :=
  let output := [] in
  match result with
  | PyTuple items =>
      (* First are results, Second are times *)
      match items !! 0%nat with
      | None => ParseRaises IndexError
      | Some (PyList members) => parse_members members output
      | Some _ => Parsed output
      end
  | _ => Parsed output
  end.

End parse_rapid_ocr.

(** The answer RapidOCR gives for its detections: a tuple of the list of
    the detections, each a list of box, text and score, and of the times. *)
Definition rapid_answer (detections : list (pyobj * pystr * Z)) (times : list pyobj) : pyobj :=
  PyTuple (PyList ((λ d, PyList [d.1.1; PyStr d.1.2; PyFloat d.2]) <$> detections) :: times).

Definition is_save (e : event) : Prop :=
  match e with EvSave _ => True | _ => False end.
(** * Properties *)

(** ** Geometry *)



Lemma _increase_bbox_run (s : state) (bbox : nat) (k : Z) :
  _increase_bbox bbox k s
  = (Ok bbox,
     set_rects (<[bbox := increase_bbox_fields (rects s bbox) k]> (rects s)) (rects_next s) s).
Proof. reflexivity. Qed.





(** C7 fails as stated: the box of a location, 10 high at [left = 0], is
    itself enlarged by the call, and the object returned is that box. *)
Lemma increase_bbox_changes_its_argument :
  let s := (new_PdfRect (mkRect 0 10 5 0) initial_state).2 in
  let run := _increase_bbox 0 2 s in
  rects s 0%nat = mkRect 0 10 5 0 ∧
  run.1 = Ok 0%nat ∧
  rects run.2 0%nat = mkRect (-2) 12 7 (-2) ∧
  rects run.2 0%nat ≠ rects s 0%nat.
Proof. vm_compute. repeat split; discriminate. Qed.

(** ** Reasoning about runs *)

Lemma bind_run {A B} (m : Py A) (f : A → Py B) (s : state) :
  (m ≫= f) s
  = match m s with
    | (Ok a, s') => f a s'
    | (Raise e, s') => (Raise e, s')
    end.
Proof. reflexivity. Qed.

Lemma bind_ok {A B} (m : Py A) (f : A → Py B) (s s' : state) (a : A) :
  m s = (Ok a, s') → (m ≫= f) s = f a s'.
Proof. intros H. by rewrite bind_run, H. Qed.

Lemma bind_raise {A B} (m : Py A) (f : A → Py B) (s s' : state) (e : exn) :
  m s = (Raise e, s') → (m ≫= f) s = (Raise e, s').
Proof. intros H. by rewrite bind_run, H. Qed.


Section steps.
Context (R : relation state) `{!PreOrder R}.

Lemma steps_ret {A} (a : A) : steps R (mret a).
Proof. intros s. reflexivity. Qed.

Lemma steps_throw {A} (e : exn) : steps R (mthrow e : Py A).
Proof. intros s. reflexivity. Qed.

Lemma steps_lift {A} (r : result A) : steps R (lift r).
Proof. intros s. reflexivity. Qed.

Lemma steps_get_state : steps R get_state.
Proof. intros s. reflexivity. Qed.

Lemma steps_bind {A B} (m : Py A) (f : A → Py B) :
  steps R m → (∀ a, steps R (f a)) → steps R (m ≫= f).
Proof.
  intros Hm Hf s. rewrite bind_run. specialize (Hm s).
  destruct (m s) as [[a|e] s1]; simpl in *; [|done].
  etrans; [exact Hm|apply Hf].
Qed.

Lemma steps_try_finally {A} (body : Py A) (final : Py unit) :
  steps R body → steps R final → steps R (try_finally body final).
Proof.
  intros Hb Hf s. unfold try_finally. specialize (Hb s).
  destruct (body s) as [r s1]; simpl in *. specialize (Hf s1).
  destruct (final s1) as [[[]|e] s2]; simpl in *; by etrans.
Qed.

Lemma steps_try_except {A} (body handler : Py A) :
  steps R body → steps R handler → steps R (try_except body handler).
Proof.
  intros Hb Hh s. unfold try_except. specialize (Hb s).
  destruct (body s) as [[a|e] s1]; simpl in *; [done|].
  etrans; [exact Hb|apply Hh].
Qed.

Lemma steps_for_each {A S} (l : list A) (body : A → S → Py S) (acc : S) :
  (∀ x acc, steps R (body x acc)) → steps R (for_each l body acc).
Proof.
  intros Hbody. revert acc.
  induction l as [|x l IH]; intros acc; simpl.
  - apply steps_ret.
  - apply steps_bind; [apply Hbody|intros acc'; apply IH].
Qed.

Lemma steps_for_range {S} (start count : nat) (body : nat → S → Py S) (acc : S) :
  (∀ i acc, steps R (body i acc)) → steps R (for_range start count body acc).
Proof.
  intros Hbody. revert start acc.
  induction count as [|count IH]; intros start acc; simpl.
  - apply steps_ret.
  - apply steps_bind; [apply Hbody|intros acc'; apply IH].
Qed.

Lemma steps_with_temporary_file {A} (body : nat → Py A) :
  steps R NamedTemporaryFile → (∀ tmp, steps R (delete_file tmp)) →
  (∀ tmp, steps R (body tmp)) → steps R (with_temporary_file body).
Proof.
  intros Hnew Hdel Hbody. unfold with_temporary_file.
  apply steps_bind; [done|intros tmp]. by apply steps_try_finally.
Qed.

End steps.


Global Instance log_grows_preorder (P : event → Prop) : PreOrder (log_grows P).
Proof.
  split.
  - intros s. exists []. by rewrite app_nil_r.
  - intros s1 s2 s3 (d1 & H1 & HP1) (d2 & H2 & HP2).
    exists (d1 ++ d2). rewrite H2, H1, app_assoc. split; [done|].
    by apply Forall_app.
Qed.


Global Instance keeps_preorder {B} (proj : state → B) : PreOrder (keeps proj).
Proof.
  split.
  - intros s. reflexivity.
  - intros s1 s2 s3 H1 H2. unfold keeps in *. congruence.
Qed.

Lemma log_grows_silent (P : event → Prop) {A} (m : Py A) :
  steps (keeps log) m → steps (log_grows P) m.
Proof. intros H s. exists []. rewrite app_nil_r. split; [apply H|done]. Qed.

Lemma log_grows_emit (P : event → Prop) (e : event) :
  P e → steps (log_grows P) (emit e).
Proof. intros He s. exists [e]. split; [done|]. by constructor. Qed.

Lemma log_grows_os_remove (P : event → Prop) (path : nat) :
  P (EvRemove path) → steps (log_grows P) (os_remove path).
Proof.
  intros He s. unfold os_remove. destruct (files s !! path); simpl.
  - exists [EvRemove path]. split; [done|]. by constructor.
  - exists []. by rewrite app_nil_r.
Qed.


Ltac event_side := solve [eauto | simpl; tauto | cbv; tauto].

Ltac steps_leaf :=
  first
    [ apply steps_ret | apply steps_throw | apply steps_lift | apply steps_get_state
    | apply allows_tmp | apply allows_write | apply allows_delete
    | apply allows_remove | apply allows_new_rect | apply allows_increase
    | apply allows_store
    | (eapply allows_emit; first [eassumption|apply _|event_side])
    | (unfold print; eapply allows_emit; first [eassumption|apply _|event_side])
    | solve [eauto]
    | (eauto; [idtac]; event_side) ].

Ltac steps_tac :=
  repeat first
    [ match goal with
      | |- PreOrder _ => apply _
      | |- ∀ _, _ => intros ?
      end
    | steps_leaf
    | apply steps_bind
    | apply steps_try_finally
    | apply steps_try_except
    | apply steps_with_temporary_file
    | apply steps_for_each
    | apply steps_for_range
    | case_match ].

Section steps_pipeline.
Context (R : relation state) `{!PreOrder R} (E : event → Prop) `{!AllowsEvents R E}.

Lemma steps_read_PdfRect (bbox : nat) : steps R (read_PdfRect bbox).
Proof. intros s. reflexivity. Qed.

Lemma steps_run_engine {A} (engine : image → result A) (path : nat) :
  steps R (run_engine engine path).
Proof. unfold run_engine. steps_tac. Qed.

Lemma steps_AcquirePage (doc : PdfDoc) (i : nat) :
  (∀ b, E (EvAcquirePage i b)) → steps R (AcquirePage doc i).
Proof. intros HE. unfold AcquirePage. steps_tac. Qed.

Lemma steps_Release (i : nat) : E (EvReleasePage i) → steps R (Release i).
Proof. intros HE. unfold Release. steps_tac. Qed.

Lemma steps_render_page `{!AllowsFiles R} (i : nat) (page : PdfPage) (tmp : nat) :
  (∀ b, E (EvRenderPage i tmp b)) → steps R (render_page i page tmp).
Proof. intros HE. unfold render_page. steps_tac. Qed.

Lemma steps_crop_image `{!AllowsFiles R} sdk (input output : nat) (page : PdfPage) (bbox : nat) :
  steps R (crop_image sdk input output page bbox).
Proof. unfold crop_image. pose proof steps_read_PdfRect. steps_tac. Qed.

Lemma steps_tesseract_ocr sdk default (path : nat) :
  (∀ msg, E (EvPrint msg)) → steps R (tesseract_ocr sdk default path).
Proof. intros HE. unfold tesseract_ocr. pose proof @steps_run_engine. steps_tac. Qed.

Lemma steps_rapid_ocr sdk default (path : nat) :
  (∀ msg, E (EvPrint msg)) → steps R (rapid_ocr sdk default path).
Proof. intros HE. unfold rapid_ocr. pose proof @steps_run_engine. steps_tac. Qed.

Lemma steps_easy_ocr sdk default (path : nat) :
  (∀ msg, E (EvPrint msg)) → steps R (easy_ocr sdk default path).
Proof. intros HE. unfold easy_ocr. pose proof @steps_run_engine. steps_tac. Qed.

End steps_pipeline.

Section steps_fixer.
Context (sdk : Sdk) (self : Config).
Context (R : relation state) `{!PreOrder R} (E : event → Prop) `{!AllowsEvents R E}.

Lemma steps__ocr_character (path : nat) :
  (∀ msg, E (EvPrint msg)) → steps R (_ocr_character sdk self path).
Proof.
  intros HE. unfold _ocr_character.
  pose proof (steps_easy_ocr R E sdk). pose proof (steps_rapid_ocr R E sdk).
  pose proof (steps_tesseract_ocr R E sdk). steps_tac.
Qed.

Lemma steps__get_pdf_page_render `{!AllowsFiles R, !AllowsStore R} (i : nat) (page : PdfPage) :
  (∀ j p b, E (EvRenderPage j p b)) → steps R (_get_pdf_page_render i page).
Proof.
  intros HE. unfold _get_pdf_page_render.
  pose proof (steps_render_page R E). steps_tac.
Qed.

Lemma steps_ocr_location `{!AllowsFiles R, !AllowsStore R, !AllowsIncrease R}
    (location : CharLocation) (page : PdfPage) (results : list pystr) :
  (∀ msg, E (EvPrint msg)) → (∀ j p b, E (EvRenderPage j p b)) →
  steps R (ocr_location sdk self location page results).
Proof.
  intros HE1 HE2. unfold ocr_location.
  pose proof steps__get_pdf_page_render. pose proof steps__ocr_character.
  pose proof (steps_crop_image R). steps_tac.
Qed.

Lemma steps_ocr_locations `{!AllowsFiles R, !AllowsStore R, !AllowsIncrease R}
    (doc : PdfDoc) (locations : list CharLocation) (count : nat) (results : list pystr) :
  (∀ msg, E (EvPrint msg)) → (∀ j p b, E (EvRenderPage j p b)) →
  (∀ j b, E (EvAcquirePage j b)) → (∀ j, E (EvReleasePage j)) →
  steps R (ocr_locations sdk self doc locations count results).
Proof.
  intros HE1 HE2 HE3 HE4. revert count results.
  pose proof steps_ocr_location. pose proof (steps_AcquirePage R E).
  pose proof (steps_Release R E).
  induction locations as [|location rest IH]; intros count results; simpl; steps_tac.
Qed.

Lemma steps_choose_character (results : list pystr) :
  (∀ msg, E (EvPrint msg)) → steps R (choose_character self results).
Proof. intros HE. unfold choose_character. steps_tac. Qed.

Lemma steps__ocr_missing_glyph `{!AllowsFiles R, !AllowsStore R, !AllowsIncrease R}
    (doc : PdfDoc) (locations : list CharLocation) (glyph : MissingGlyph) :
  (∀ msg, E (EvPrint msg)) → (∀ j p b, E (EvRenderPage j p b)) →
  (∀ j b, E (EvAcquirePage j b)) → (∀ j, E (EvReleasePage j)) →
  steps R (_ocr_missing_glyph sdk self doc locations glyph).
Proof.
  intros HE1 HE2 HE3 HE4. unfold _ocr_missing_glyph.
  pose proof steps_ocr_locations. pose proof steps_choose_character. steps_tac.
Qed.

Lemma steps_process_glyph `{!AllowsFiles R, !AllowsStore R, !AllowsIncrease R}
    (doc : PdfDoc) (value : MissingGlyph) :
  (∀ msg, E (EvPrint msg)) → (∀ j p b, E (EvRenderPage j p b)) →
  (∀ j b, E (EvAcquirePage j b)) → (∀ j, E (EvReleasePage j)) →
  (∀ f c u b, E (EvSetUnicode f c u b)) →
  steps R (process_glyph sdk self doc value).
Proof.
  intros HE1 HE2 HE3 HE4 HE5. unfold process_glyph.
  pose proof steps__ocr_missing_glyph. steps_tac.
Qed.

Lemma steps__process_all_missing_occurences `{!AllowsFiles R, !AllowsStore R, !AllowsIncrease R}
    (doc : PdfDoc) (missing_glyphs : list (string * MissingGlyph)) :
  (∀ msg, E (EvPrint msg)) → (∀ j p b, E (EvRenderPage j p b)) →
  (∀ j b, E (EvAcquirePage j b)) → (∀ j, E (EvReleasePage j)) →
  (∀ f c u b, E (EvSetUnicode f c u b)) →
  steps R (_process_all_missing_occurences sdk self doc missing_glyphs).
Proof.
  intros HE1 HE2 HE3 HE4 HE5.
  unfold _process_all_missing_occurences.
  pose proof steps_process_glyph. steps_tac.
Qed.

Lemma steps_gather_char `{!AllowsNewRect R} (font : PdfFont) (i : nat) (char : CharData)
    (missing_glyphs : list (string * MissingGlyph)) :
  steps R (gather_char font i char missing_glyphs).
Proof.
  unfold gather_char, new_CharLocation. pose proof (steps_read_PdfRect R). steps_tac.
Qed.

Lemma steps_gather_object `{!AllowsNewRect R} (i : nat) (objects : list (option PdsPageObject))
    (obj_index : nat) (missing_glyphs : list (string * MissingGlyph)) :
  (∀ msg, E (EvPrint msg)) →
  steps R (gather_object i objects obj_index missing_glyphs).
Proof. intros HE. unfold gather_object. pose proof steps_gather_char. steps_tac. Qed.

Lemma steps_gather_page `{!AllowsNewRect R} (doc : PdfDoc) (i : nat)
    (missing_glyphs : list (string * MissingGlyph)) :
  (∀ msg, E (EvPrint msg)) → (∀ j b, E (EvAcquirePage j b)) → (∀ j, E (EvReleasePage j)) →
  steps R (gather_page doc i missing_glyphs).
Proof.
  intros HE1 HE2 HE3. unfold gather_page.
  pose proof steps_gather_object. pose proof (steps_AcquirePage R E).
  pose proof (steps_Release R E). steps_tac.
Qed.

Lemma steps__gather_all_missing_occurences `{!AllowsNewRect R} (doc : PdfDoc) :
  (∀ msg, E (EvPrint msg)) → (∀ j b, E (EvAcquirePage j b)) → (∀ j, E (EvReleasePage j)) →
  steps R (_gather_all_missing_occurences doc).
Proof.
  intros HE1 HE2 HE3. unfold _gather_all_missing_occurences.
  pose proof steps_gather_page. steps_tac.
Qed.

Lemma steps__clean_up_rendered_pages `{!AllowsRemove R} : steps R _clean_up_rendered_pages.
Proof. unfold _clean_up_rendered_pages. steps_tac. Qed.

End steps_fixer.

(** ** Instances for the relations used below *)

Ltac keeps_instance :=
  repeat split; repeat intros ?; unfold os_remove; try case_match; reflexivity.

Global Instance log_grows_events (P : event → Prop) : AllowsEvents (log_grows P) P.
Proof. intros e He. by apply log_grows_emit. Qed.
Global Instance log_grows_files (P : event → Prop) : AllowsFiles (log_grows P).
Proof. split; intros; apply log_grows_silent; keeps_instance. Qed.
Global Instance log_grows_new_rect (P : event → Prop) : AllowsNewRect (log_grows P).
Proof. intros ?. apply log_grows_silent; keeps_instance. Qed.
Global Instance log_grows_increase (P : event → Prop) : AllowsIncrease (log_grows P).
Proof. intros ? ?. apply log_grows_silent; keeps_instance. Qed.
Global Instance log_grows_store (P : event → Prop) : AllowsStore (log_grows P).
Proof. intros ? ?. apply log_grows_silent; keeps_instance. Qed.

Global Instance keeps_rects_events : AllowsEvents (keeps rects) (λ _, True).
Proof. keeps_instance. Qed.
Global Instance keeps_rects_files : AllowsFiles (keeps rects).
Proof. keeps_instance. Qed.
Global Instance keeps_rects_store : AllowsStore (keeps rects).
Proof. keeps_instance. Qed.
Global Instance keeps_rects_remove : AllowsRemove (keeps rects).
Proof. keeps_instance. Qed.

(** ** The stable descending sort *)

Section sort_facts.
Context {A : Type} (key : A → Z).






(** Stability: the items of any one key keep their order. *)
Lemma insert_desc_stable (k : Z) (x : A) (l : list A) :
  filter (λ y, key y = k) (insert_desc key x l) = filter (λ y, key y = k) (x :: l).
Proof.
  induction l as [|y l IH]; simpl; [done|].
  case_bool_decide as Hxy; [done|].
  rewrite !filter_cons in *. rewrite IH.
  repeat case_decide; try done; lia.
Qed.

Lemma sort_reverse_stable (k : Z) (l : list A) :
  filter (λ y, key y = k) (sort_reverse key l) = filter (λ y, key y = k) l.
Proof.
  induction l as [|x l IH]; simpl; [done|].
  rewrite insert_desc_stable, !filter_cons, IH. done.
Qed.

End sort_facts.

(** ** The sample of a glyph's locations *)

Lemma acquired_pages_none (delta : list event) :
  Forall (λ e, ¬ is_acquire e) delta → acquired_pages delta = [].
Proof.
  induction 1 as [|e delta He _ IH]; [done|].
  unfold acquired_pages in *. simpl. destruct e; simpl in *; done.
Qed.

Lemma acquired_pages_app (d1 d2 : list event) :
  acquired_pages (d1 ++ d2) = acquired_pages d1 ++ acquired_pages d2.
Proof. apply omap_app. Qed.

Lemma acquired_pages_acquire (i : nat) (b : bool) (delta : list event) :
  acquired_pages (EvAcquirePage i b :: delta) = i :: acquired_pages delta.
Proof. reflexivity. Qed.

Section sampling.
Context (sdk : Sdk) (self : Config) (doc : PdfDoc).


Lemma AcquirePage_run (i : nat) (s : state) :
  AcquirePage doc i s
  = (Ok (mjoin (doc_pages doc !! i)),
     set_log (log s ++ [EvAcquirePage i (bool_decide (is_Some (mjoin (doc_pages doc !! i))))]) s).
Proof. reflexivity. Qed.


End sampling.





(** ** The vote *)

(** [max(l, key=key)] is the first item of [l] whose key is the greatest:
    the items before it have a smaller key, the items after it none greater. *)
Lemma py_max_from_first {A} (key : A → nat) (best : A) (l : list A) :
  ∃ before after,
    best :: l = before ++ py_max_from nat_gt key best l :: after ∧
    Forall (λ x, (key x < key (py_max_from nat_gt key best l))%nat) before ∧
    Forall (λ x, (key x ≤ key (py_max_from nat_gt key best l))%nat) after.
Proof.
  revert best. induction l as [|x l IH]; intros best; simpl.
  - exists [], []. by repeat constructor.
  - destruct (nat_gt (key x) (key best)) eqn:Hgt; unfold nat_gt in Hgt;
      [apply bool_decide_eq_true in Hgt|apply bool_decide_eq_false in Hgt].
    + destruct (IH x) as (before & after & Heq & Hb & Ha).
      exists (best :: before), after.
      split; [simpl; by f_equal|]. split; [|done]. constructor; [|done].
      assert (key x ≤ key (py_max_from nat_gt key x l))%nat; [|lia].
      destruct before as [|y before]; simpl in Heq.
      * injection Heq as Hx _. by rewrite <-Hx.
      * injection Heq as Hx _. subst y. apply Forall_cons_1 in Hb as [Hb _]. lia.
    + destruct (IH best) as (before & after & Heq & Hb & Ha).
      destruct before as [|y before]; simpl in Heq.
      * injection Heq as Hbest Hl. exists [], (x :: after). rewrite <-Hbest in *.
        subst after. split; [done|]. split; [done|]. constructor; [lia|done].
      * injection Heq as Hbest Hl. subst y. exists (best :: x :: before), after.
        split; [simpl; by rewrite <-Hl|]. apply Forall_cons_1 in Hb as [Hb Hb'].
        split; [|done]. repeat constructor; [done|lia|done].
Qed.

Lemma choose_character_run (self : Config) (results : list pystr) (s : state) :
  choose_character self results s
  = match results with
    | [] => (Ok (default_character self), s)
    | first :: rest =>
        (Ok (py_max_from nat_gt (py_count results) first rest),
         set_log (log s ++ [EvPrint "From OCR results: character was chosen"]) s)
    end.
Proof. destruct results; reflexivity. Qed.

Lemma try_finally_emit {A} (body : Py A) (e : event) (s : state) :
  try_finally body (emit e) s
  = ((body s).1, set_log (log (body s).2 ++ [e]) (body s).2).
Proof. unfold try_finally. by destruct (body s). Qed.

Lemma with_temporary_file_result {A} (body : nat → Py A) (s : state) :
  (with_temporary_file body s).1 = (body (files_next s) (NamedTemporaryFile s).2).1.
Proof.
  unfold with_temporary_file. rewrite bind_run. simpl. unfold try_finally.
  by destruct (body _ _).
Qed.

Section vote.
Context (sdk : Sdk) (self : Config) (doc : PdfDoc).

(** A turn of the loop leaves the results as they were or appends one
    non-empty string. *)
Lemma ocr_location_results (location : CharLocation) (page : PdfPage)
    (results r : list pystr) (s : state) :
  (ocr_location sdk self location page results s).1 = Ok r →
  r = results ∨ ∃ x, x ≠ [] ∧ r = results ++ [x].
Proof.
  unfold ocr_location. rewrite bind_run.
  destruct (_get_pdf_page_render _ _ s) as [[page_image|e] s1]; [|done].
  rewrite with_temporary_file_result. rewrite bind_run, _increase_bbox_run, bind_run.
  destruct (crop_image _ _ _ _ _ _) as [[[]|e] s2]; [|done].
  rewrite bind_run.
  destruct (_ocr_character _ _ _ _) as [[result|e] s3]; [|done].
  destruct result as [|c result]; simpl; intros [= <-]; [by left|].
  right. by exists (c :: result).
Qed.

Lemma ocr_locations_results (locations : list CharLocation) (count : nat)
    (results r : list pystr) (s : state) :
  Forall (λ x, x ≠ []) results →
  (ocr_locations sdk self doc locations count results s).1 = Ok r →
  Forall (λ x, x ≠ []) r.
Proof.
  revert count results s.
  induction locations as [|location rest IH]; intros count results s Hres; simpl.
  - by intros [= <-].
  - case_bool_decide; [by intros [= <-]|].
    rewrite bind_run, AcquirePage_run.
    destruct (mjoin _) as [page|].
    + unfold Release. rewrite bind_run, try_finally_emit.
      destruct (ocr_location _ _ _ _ _ _).1 as [results'|e] eqn:Hbody; [|done].
      apply IH. apply ocr_location_results in Hbody as [->|(x & Hx & ->)]; [done|].
      apply Forall_app. split; [done|]. by constructor.
    + rewrite bind_run. apply IH. done.
Qed.

End vote.

(** C1.  The character the resolver returns for a glyph is decided by the
    results its loop gathers, which are non-empty strings: with no result it
    is the default character; otherwise it is a result that no other result
    outnumbers, and every result before its first occurrence is strictly
    less frequent, so that among equally frequent results the first seen
    wins.  The results "A", "B" give "A". *)
Theorem resolver_takes_most_frequent_first (sdk : Sdk) (self : Config) (doc : PdfDoc)
    (locations : list CharLocation) (missing_glyph : MissingGlyph) (s : state) :
  let gathered := ocr_locations sdk self doc locations 0 [] s in
  let run := _ocr_missing_glyph sdk self doc locations missing_glyph s in
  match gathered.1 with
  | Raise e => run.1 = Raise e
  | Ok results =>
      Forall (λ x, x ≠ []) results ∧
      match results with
      | [] => run.1 = Ok (default_character self)
      | _ :: _ =>
          ∃ c before after,
            run.1 = Ok c ∧
            results = before ++ c :: after ∧
            Forall (λ x, (py_count results x < py_count results c)%nat) before ∧
            Forall (λ x, (py_count results x ≤ py_count results c)%nat) after
      end
  end ∧
  (choose_character self [[65]; [66]] s).1 = Ok [65].
Proof.
  intros gathered run. split; [|rewrite choose_character_run; by vm_compute].
  unfold run, _ocr_missing_glyph. rewrite bind_run.
  pose proof (λ r, ocr_locations_results sdk self doc locations 0 [] r s
                     (Forall_nil_2 _)) as Hnonempty.
  unfold gathered.
  destruct (ocr_locations sdk self doc locations 0 [] s) as [[results|e] s1];
    simpl in *; [|done].
  split; [by apply Hnonempty|].
  rewrite choose_character_run. destruct results as [|first rest]; [done|].
  destruct (py_max_from_first (py_count (first :: rest)) first rest)
    as (before & after & Heq & Hb & Ha).
  by exists (py_max_from nat_gt (py_count (first :: rest)) first rest), before, after.
Qed.

(** ** Dictionaries *)

Section pydict_facts.
Context {K V : Type} `{EqDecision K}.

Lemma dict_get_set_eq (d : list (K * V)) (k : K) (v : V) :
  dict_get (dict_set d k v) k = Some v.
Proof.
  induction d as [|[k' v'] d IH]; simpl.
  - by rewrite decide_True.
  - destruct (decide (k = k')) as [->|Hne]; simpl.
    + by rewrite decide_True.
    + by rewrite decide_False.
Qed.

Lemma dict_get_set_ne (d : list (K * V)) (k k' : K) (v : V) :
  k' ≠ k → dict_get (dict_set d k v) k' = dict_get d k'.
Proof.
  intros Hne. induction d as [|[k0 v0] d IH]; simpl.
  - by rewrite decide_False.
  - destruct (decide (k = k0)) as [->|Hne0]; simpl.
    + by rewrite !decide_False.
    + destruct (decide (k' = k0)); [done|apply IH].
Qed.

Lemma dict_set_keys (d : list (K * V)) (k : K) (v : V) :
  (dict_set d k v).*1 = if dict_mem d k then d.*1 else d.*1 ++ [k].
Proof.
  unfold dict_mem. induction d as [|[k' v'] d IH]; [done|].
  cbn [dict_set dict_get].
  destruct (decide (k = k')) as [->|Hne]; rewrite !fmap_cons; [done|].
  rewrite IH. by destruct (bool_decide _).
Qed.

Lemma dict_get_None (d : list (K * V)) (k : K) :
  dict_get d k = None ↔ k ∉ d.*1.
Proof.
  induction d as [|[k' v'] d IH]; simpl.
  - split; [intros _; apply not_elem_of_nil|done].
  - rewrite not_elem_of_cons. destruct (decide (k = k')) as [->|Hne].
    + split; [done|]. by intros [? _].
    + rewrite IH. tauto.
Qed.

Lemma dict_set_keys_NoDup (d : list (K * V)) (k : K) (v : V) :
  NoDup d.*1 → NoDup (dict_set d k v).*1.
Proof.
  intros Hd. rewrite dict_set_keys. unfold dict_mem.
  case_bool_decide as Hmem; [done|].
  rewrite list.NoDup_app. split; [done|]. split; [|apply NoDup_singleton].
  intros x Hx ->%list_elem_of_singleton. apply Hmem.
  destruct (dict_get d k) eqn:Hget; [by eexists|].
  by apply dict_get_None in Hget.
Qed.

End pydict_facts.

(** ** The scanner *)

Lemma _should_char_be_ocr_true (character : pystr) :
  _should_char_be_ocr character = Ok true
  ↔ character = [] ∨ character = [65534] ∨ character = [65279].
Proof.
  unfold _should_char_be_ocr, ord.
  destruct character as [|n [|n' rest]]; simpl.
  - split; [intros _; by left|done].
  - case_bool_decide as Hn; split.
    + intros _. destruct Hn as [->| ->]; auto.
    + done.
    + done.
    + intros [?|[[= ->]|[= ->]]]; [done|destruct Hn; auto..].
  - split; [done|]. intros [?|[?|?]]; done.
Qed.

Lemma _should_char_be_ocr_raises (character : pystr) :
  _should_char_be_ocr character = Raise TypeError ↔ (2 ≤ length character)%nat.
Proof.
  unfold _should_char_be_ocr, ord.
  destruct character as [|n [|n' rest]]; simpl.
  - split; [done|lia].
  - case_bool_decide; split; (done || lia).
  - split; [lia|done].
Qed.

Lemma _should_char_be_ocr_cases (character : pystr) :
  _should_char_be_ocr character = Ok true ∨
  _should_char_be_ocr character = Ok false ∨
  _should_char_be_ocr character = Raise TypeError.
Proof.
  unfold _should_char_be_ocr, ord.
  destruct character as [|n [|n' rest]]; simpl; auto.
  case_bool_decide; auto.
Qed.

(** A character that needs OCR gets a new location, in the entry of its key. *)
Lemma gather_char_needed (font : PdfFont) (i : nat) (char : CharData)
    (missing_glyphs : list (string * MissingGlyph)) (s : state) :
  _should_char_be_ocr (GetCharText char) = Ok true →
  let k := GetFontName font +:+ pretty (GetCharCode char) in
  let location := mkLocation i (rects_next s) (_get_height (GetCharBBox char)) in
  let entry := default (new_MissingGlyph font (GetCharCode char)) (dict_get missing_glyphs k) in
  gather_char font i char missing_glyphs s
  = (Ok (dict_set missing_glyphs k (add_location location entry)),
     set_rects (<[rects_next s := GetCharBBox char]> (rects s)) (S (rects_next s)) s).
Proof.
  intros Hshould k location entry.
  unfold gather_char, mbind, Py_bind, lift, new_PdfRect, new_CharLocation,
    read_PdfRect, mret, Py_ret, mthrow, Py_throw.
  rewrite Hshould. simpl. rewrite fn_lookup_insert.
  change (GetFontName font +:+ pretty (GetCharCode char)) with k.
  fold location. unfold dict_mem, entry.
  destruct (dict_get missing_glyphs k) as [glyph|] eqn:Hget; simpl.
  - by rewrite Hget.
  - rewrite dict_get_set_eq. f_equal. f_equal.
    clear Hget. induction missing_glyphs as [|[k' v'] d IH]; simpl.
    + by rewrite decide_True.
    + destruct (decide (k = k')); simpl.
      * by rewrite decide_True.
      * rewrite decide_False by done. by rewrite IH.
Qed.

(** ** Exceptions in loops *)

Lemma for_range_only_raises {S} (e : exn) (start count : nat) (body : nat → S → Py S) :
  (∀ j acc s e', (body j acc s).1 = Raise e' → e' = e) →
  ∀ acc s e', (for_range start count body acc s).1 = Raise e' → e' = e.
Proof.
  intros Hbody. revert start.
  induction count as [|count IH]; intros start acc s e'; simpl; [done|].
  rewrite bind_run. specialize (Hbody start acc s).
  destruct (body start acc s) as [[acc'|e0] s1]; simpl in *.
  - apply IH.
  - intros [= <-]. by apply Hbody.
Qed.

Lemma for_range_raises {S} (e : exn) (start count : nat) (body : nat → S → Py S) (i : nat) :
  (∀ j acc s e', (body j acc s).1 = Raise e' → e' = e) →
  (start ≤ i < start + count)%nat →
  (∀ acc s, (body i acc s).1 = Raise e) →
  ∀ acc s, (for_range start count body acc s).1 = Raise e.
Proof.
  intros Honly Hi Hraise. revert start Hi.
  induction count as [|count IH]; intros start Hi acc s; simpl; [lia|].
  rewrite bind_run. pose proof (Honly start acc s) as Hstart.
  destruct (decide (i = start)) as [->|Hne].
  - specialize (Hraise acc s). destruct (body start acc s) as [[acc'|e0] s1];
      simpl in *; [done|]. done.
  - destruct (body start acc s) as [[acc'|e0] s1]; simpl in *.
    + apply IH. lia.
    + f_equal. by apply Hstart.
Qed.

Section scan_exceptions.
Context (doc : PdfDoc).

Lemma gather_char_only_raises (font : PdfFont) (i : nat) (char : CharData)
    (missing_glyphs : list (string * MissingGlyph)) (s : state) (e : exn) :
  (gather_char font i char missing_glyphs s).1 = Raise e → e = TypeError.
Proof.
  destruct (_should_char_be_ocr_cases (GetCharText char)) as [Hc|[Hc|Hc]].
  - by rewrite (gather_char_needed _ _ _ _ _ Hc).
  - unfold gather_char. rewrite bind_run. unfold lift. by rewrite Hc.
  - unfold gather_char. rewrite bind_run. unfold lift. rewrite Hc. by intros [= <-].
Qed.

Lemma gather_char_raises (font : PdfFont) (i : nat) (char : CharData)
    (missing_glyphs : list (string * MissingGlyph)) (s : state) :
  (2 ≤ length (GetCharText char))%nat →
  (gather_char font i char missing_glyphs s).1 = Raise TypeError.
Proof.
  intros Hlen. apply _should_char_be_ocr_raises in Hlen.
  unfold gather_char. rewrite bind_run. unfold lift. by rewrite Hlen.
Qed.

Lemma gather_object_only_raises (i : nat) (objects : list (option PdsPageObject)) (j : nat)
    (missing_glyphs : list (string * MissingGlyph)) (s : state) (e : exn) :
  (gather_object i objects j missing_glyphs s).1 = Raise e → e = TypeError.
Proof.
  unfold gather_object.
  destruct (mjoin (objects !! j)) as [[[font|] chars|]|]; simpl; try done.
  destruct (GetEmbedded font); simpl; [|done].
  apply for_range_only_raises. intros k acc s' e'.
  destruct (chars !! k); [apply gather_char_only_raises|done].
Qed.

Lemma gather_page_result (i : nat) (page : PdfPage)
    (missing_glyphs : list (string * MissingGlyph)) (s : state) :
  doc_pages doc !! i = Some (Some page) →
  (gather_page doc i missing_glyphs s).1
  = (match GetContent page with
     | None => print "Failed to get content from PDF page";; mret missing_glyphs
     | Some objects =>
         for_range 0 (length objects) (gather_object i objects) missing_glyphs
     end (AcquirePage doc i s).2).1.
Proof.
  intros Hpage. unfold gather_page. rewrite bind_run, AcquirePage_run, Hpage. simpl.
  unfold Release. by rewrite try_finally_emit.
Qed.

Lemma gather_page_only_raises (i : nat) (missing_glyphs : list (string * MissingGlyph))
    (s : state) (e : exn) :
  (gather_page doc i missing_glyphs s).1 = Raise e → e = TypeError.
Proof.
  destruct (doc_pages doc !! i) as [[page|]|] eqn:Hpage.
  - rewrite (gather_page_result _ _ _ _ Hpage).
    destruct (GetContent page) as [objects|]; [|done].
    apply for_range_only_raises. intros j acc s' e'. apply gather_object_only_raises.
  - unfold gather_page. rewrite bind_run, AcquirePage_run, Hpage. done.
  - unfold gather_page. rewrite bind_run, AcquirePage_run, Hpage. done.
Qed.

End scan_exceptions.

(** C10.  [_should_char_be_ocr] returns for a decoded text of length 0 or 1
    and raises [TypeError] exactly for a text of length 2 or more; and when
    the scan reaches a character of an embedded font whose decoded text has
    length 2 or more, the whole scan ends with that [TypeError] instead of
    a glyph table. *)
Theorem scan_aborts_on_multi_character_text (doc : PdfDoc) (i : nat) (font : PdfFont)
    (char : CharData) (s : state) :
  (∀ text, _should_char_be_ocr text = Raise TypeError ↔ (2 ≤ length text)%nat) ∧
  (∀ text, (length text ≤ 1)%nat → ∃ b, _should_char_be_ocr text = Ok b) ∧
  (scans_char doc i font char →
   (2 ≤ length (GetCharText char))%nat →
   (_gather_all_missing_occurences doc s).1 = Raise TypeError).
Proof.
  split; [apply _should_char_be_ocr_raises|]. split.
  { intros text Hlen. destruct (_should_char_be_ocr_cases text) as [Hc|[Hc|Hc]];
      [by eexists..|]. apply _should_char_be_ocr_raises in Hc. lia. }
  intros (page & objects & j & chars & k & Hpage & Hcontent & Hobj & Hemb & Hchar) Hlen.
  unfold _gather_all_missing_occurences.
  apply (for_range_raises _ _ _ _ i).
  - intros. by eapply gather_page_only_raises.
  - apply lookup_lt_Some in Hpage. lia.
  - intros acc s'. rewrite (gather_page_result _ _ _ _ _ Hpage), Hcontent.
    apply (for_range_raises _ _ _ _ j).
    + intros. by eapply gather_object_only_raises.
    + apply lookup_lt_Some in Hobj. lia.
    + intros acc' s''. unfold gather_object. rewrite Hobj. simpl. rewrite Hemb. simpl.
      apply (for_range_raises _ _ _ _ k).
      * intros k' acc'' s3 e'. destruct (chars !! k'); [apply gather_char_only_raises|done].
      * apply lookup_lt_Some in Hchar. lia.
      * intros acc'' s3. rewrite Hchar. by apply gather_char_raises.
Qed.

Lemma scan_aborts_on_multi_character_text_witness :
  scans_char ligature_doc 0 example_font ligature_char ∧
  (2 ≤ length (GetCharText ligature_char))%nat ∧
  (_gather_all_missing_occurences ligature_doc initial_state).1 = Raise TypeError.
Proof.
  assert (scans_char ligature_doc 0 example_font ligature_char) as Hscan.
  { by exists (good_page [text_object [ligature_char]]), [text_object [ligature_char]],
      0%nat, [ligature_char], 0%nat. }
  split; [exact Hscan|]. split; [simpl; lia|].
  destruct (scan_aborts_on_multi_character_text ligature_doc 0 example_font
              ligature_char initial_state) as (_ & _ & Habort).
  apply Habort; [exact Hscan|simpl; lia].
Defined.

(** ** The OCR backends *)

Lemma run_engine_state {A} (engine : image → result A) (path : nat) (s : state) :
  (run_engine engine path s).2 = s.
Proof. unfold run_engine. rewrite bind_run. simpl. by destruct (files s !! path). Qed.

Lemma try_except_bind_engine {A B} (engine : image → result A) (path : nat)
    (f : A → Py B) (handler : Py B) (s : state) :
  (∀ a s', ∃ b, f a s' = (Ok b, s')) →
  try_except (run_engine engine path ≫= f) handler s
  = match (run_engine engine path s).1 with
    | Ok a => f a s
    | Raise _ => handler s
    end.
Proof.
  intros Hf. unfold try_except. rewrite bind_run.
  pose proof (run_engine_state engine path s) as Hs.
  destruct (run_engine engine path s) as [[a|e] s1]; simpl in *; subst s1; [|done].
  destruct (Hf a s) as [b ->]. done.
Qed.

Section backends.
Context (sdk : Sdk) (default : pystr) (path : nat) (s : state).

Lemma tesseract_ocr_run :
  tesseract_ocr sdk default path s
  = match (run_engine (image_to_string sdk) path s).1 with
    | Ok result =>
        (Ok (match py_strip 10 result with [] => [] | c :: _ => [c] end), s)
    | Raise _ =>
        (Ok default,
         set_log (log s ++ [EvPrint
           "During Tesseract OCR run, exception happened. Returning default result."]) s)
    end.
Proof.
  unfold tesseract_ocr. rewrite try_except_bind_engine; [|by eexists].
  by destruct (run_engine _ _ _).1.
Qed.

Lemma rapid_ocr_run :
  rapid_ocr sdk default path s
  = match (run_engine (rapidocr sdk) path s).1 with
    | Ok output =>
        (Ok (match py_max Z_gt snd output with Some best => best.1 | None => default end), s)
    | Raise _ =>
        (Ok default,
         set_log (log s ++ [EvPrint
           "During Rapid OCR run, exception happened. Returning default result."]) s)
    end.
Proof.
  unfold rapid_ocr. rewrite try_except_bind_engine.
  - destruct (run_engine _ _ _).1 as [output|]; [|done]. by destruct (py_max _ _ _).
  - intros output s'. destruct (py_max _ _ _); by eexists.
Qed.

Lemma easy_ocr_run :
  easy_ocr sdk default path s
  = match (run_engine (readtext sdk) path s).1 with
    | Ok result => (Ok (match result with first :: _ => first | [] => default end), s)
    | Raise _ =>
        (Ok default,
         set_log (log s ++ [EvPrint
           "During Easy OCR run, exception happened. Returning default result."]) s)
    end.
Proof.
  unfold easy_ocr. rewrite try_except_bind_engine.
  - destruct (run_engine _ _ _).1 as [[|first rest]|]; done.
  - intros [|first rest] s'; by eexists.
Qed.

End backends.

(** C6, as the code has it.  No backend lets an exception out: each returns
    a string.  When the engine raises during the call, the backend prints a
    warning and returns the configured default character, which is the empty
    string only if the default character is configured so. *)
Theorem backend_failure_gives_default_character (sdk : Sdk) (default : pystr)
    (path : nat) (s : state) :
  ((∃ c, (tesseract_ocr sdk default path s).1 = Ok c) ∧
   (∃ c, (rapid_ocr sdk default path s).1 = Ok c) ∧
   (∃ c, (easy_ocr sdk default path s).1 = Ok c)) ∧
  (∀ e, (run_engine (image_to_string sdk) path s).1 = Raise e →
     tesseract_ocr sdk default path s
     = (Ok default,
        set_log (log s ++ [EvPrint
          "During Tesseract OCR run, exception happened. Returning default result."]) s)) ∧
  (∀ e, (run_engine (rapidocr sdk) path s).1 = Raise e →
     rapid_ocr sdk default path s
     = (Ok default,
        set_log (log s ++ [EvPrint
          "During Rapid OCR run, exception happened. Returning default result."]) s)) ∧
  (∀ e, (run_engine (readtext sdk) path s).1 = Raise e →
     easy_ocr sdk default path s
     = (Ok default,
        set_log (log s ++ [EvPrint
          "During Easy OCR run, exception happened. Returning default result."]) s)).
Proof.
  rewrite tesseract_ocr_run, rapid_ocr_run, easy_ocr_run.
  split; [|split; [|split]].
  - split; [|split].
    + destruct (run_engine _ _ _).1; by eexists.
    + destruct (run_engine _ _ _).1; by eexists.
    + destruct (run_engine _ _ _).1; by eexists.
  - by intros e ->.
  - by intros e ->.
  - by intros e ->.
Qed.

Lemma backend_failure_gives_default_character_witness :
  let sdk := failing_engines_sdk ligature_doc in
  let s := (NamedTemporaryFile initial_state).2 in
  (run_engine (image_to_string sdk) 0 s).1 = Raise EngineError ∧
  tesseract_ocr sdk [32] 0 s
  = (Ok [32],
     set_log (log s ++ [EvPrint
       "During Tesseract OCR run, exception happened. Returning default result."]) s).
Proof.
  intros sdk s. split; [reflexivity|].
  destruct (backend_failure_gives_default_character sdk [32] 0 s) as (_ & Htess & _).
  by apply (Htess EngineError).
Defined.

(** C6 fails as stated: with the default character " " of the command line
    and an engine that raises, each backend returns " ", not the empty
    string. *)
Lemma backend_failure_result_not_empty :
  let sdk := failing_engines_sdk ligature_doc in
  let s := (NamedTemporaryFile initial_state).2 in
  (tesseract_ocr sdk [32] 0 s).1 = Ok [32] ∧
  (rapid_ocr sdk [32] 0 s).1 = Ok [32] ∧
  (easy_ocr sdk [32] 0 s).1 = Ok [32] ∧
  (tesseract_ocr sdk [32] 0 s).1 ≠ Ok [].
Proof. vm_compute. repeat split; discriminate. Qed.

(** ** Invariants of a run *)

Section safety_rules.
Context (Q : option exn → state → Prop) (R0 R1 : relation state) `{!Invariant Q R0 R1}.

Lemma safe_steps {A} (m : Py A) : steps R0 m → safe Q m.
Proof.
  intros Hm s Hs. specialize (Hm s). apply (inv_R0 _ _ Hm) in Hs.
  destruct (m s).1; simpl; [done|]. by eapply inv_weaken.
Qed.

Lemma safe_bind {A B} (m : Py A) (f : A → Py B) :
  safe Q m → (∀ a, safe Q (f a)) → safe Q (m ≫= f).
Proof.
  intros Hm Hf s Hs. rewrite bind_run. specialize (Hm s Hs).
  destruct (m s) as [[a|e] s1]; simpl in *; [by apply Hf|done].
Qed.

Lemma safe_try_finally {A} (body : Py A) (final : Py unit) :
  safe Q body → steps R1 final → total final → safe Q (try_finally body final).
Proof.
  intros Hb Hf Ht s Hs. unfold try_finally. specialize (Hb s Hs).
  destruct (body s) as [r s1]; simpl in *.
  specialize (Hf s1). destruct (Ht s1) as [[] Hok].
  destruct (final s1) as [[[]|e] s2]; simpl in *; [|done].
  by eapply inv_R1.
Qed.

Lemma safe_try_except {A} (body handler : Py A) :
  steps R0 body → safe Q handler → safe Q (try_except body handler).
Proof.
  intros Hb Hh s Hs. unfold try_except. specialize (Hb s).
  apply (inv_R0 _ _ Hb) in Hs.
  destruct (body s) as [[a|e] s1]; simpl in *; [done|by apply Hh].
Qed.

Lemma safe_for_each {A S} (l : list A) (body : A → S → Py S) (acc : S) :
  (∀ x acc, safe Q (body x acc)) → safe Q (for_each l body acc).
Proof.
  intros Hbody. revert acc. induction l as [|x l IH]; intros acc; simpl.
  - intros s Hs. done.
  - apply safe_bind; [apply Hbody|intros acc'; apply IH].
Qed.

Lemma safe_ret {A} (a : A) : safe Q (mret a).
Proof. by intros s Hs. Qed.

Lemma safe_throw {A} (e : exn) : safe Q (mthrow e : Py A).
Proof. intros s Hs. by eapply inv_weaken. Qed.

Lemma total_emit (e : event) : total (emit e).
Proof. intros s. by exists tt. Qed.

Lemma total_delete_file (path : nat) : total (delete_file path).
Proof. intros s. by exists tt. Qed.

Lemma safe_with_temporary_file {A} (body : nat → Py A) :
  steps R0 NamedTemporaryFile → (∀ tmp, steps R1 (delete_file tmp)) →
  (∀ tmp, safe Q (body tmp)) → safe Q (with_temporary_file body).
Proof.
  intros Hnew Hdel Hbody. unfold with_temporary_file.
  apply safe_bind; [by apply safe_steps|intros tmp].
  apply safe_try_finally; [done..|apply total_delete_file].
Qed.

End safety_rules.

Section safety_fixer.
Context (sdk : Sdk) (self : Config).
Context (Q : option exn → state → Prop) (R0 R1 : relation state).
Context `{!Invariant Q R0 R1, !PreOrder R0}.
Context (E0 E1 : event → Prop).
Context `{!AllowsEvents R0 E0, !AllowsFiles R0, !AllowsIncrease R0, !AllowsNewRect R0,
          !AllowsRemove R0}.
Context `{!AllowsEvents R1 E1, !AllowsFiles R1}.
Context (HE0 : ∀ e, ¬ is_render e → E0 e).
Context (HE1 : ∀ e, is_release e → E1 e).
(** The one place where the cache and the rasteriser are used. *)
Context (Hrender : ∀ i page, safe Q (_get_pdf_page_render i page)).

Lemma E0_print (msg : string) : E0 (EvPrint msg).
Proof. apply HE0. simpl. tauto. Qed.
Lemma E0_acquire (i : nat) (b : bool) : E0 (EvAcquirePage i b).
Proof. apply HE0. simpl. tauto. Qed.
Lemma E0_release (i : nat) : E0 (EvReleasePage i).
Proof. apply HE0. simpl. tauto. Qed.
Lemma E0_set_unicode (f : nat) (c : Z) (u : pystr) (b : bool) : E0 (EvSetUnicode f c u b).
Proof. apply HE0. simpl. tauto. Qed.

Lemma safe_ocr_location (location : CharLocation) (page : PdfPage) (results : list pystr) :
  safe Q (ocr_location sdk self location page results).
Proof.
  unfold ocr_location. apply safe_bind; [apply Hrender|intros page_image].
  eapply safe_with_temporary_file; [done|..];
    [apply allows_tmp|apply allows_delete|intros tmp].
  eapply safe_steps; [done|].
  pose proof (steps_crop_image R0). pose proof (steps__ocr_character sdk self R0 E0).
  pose proof E0_print. steps_tac.
Qed.

Lemma safe_ocr_locations (doc : PdfDoc) (locations : list CharLocation) (count : nat)
    (results : list pystr) :
  safe Q (ocr_locations sdk self doc locations count results).
Proof.
  revert count results.
  induction locations as [|location rest IH]; intros count results; simpl.
  - apply safe_ret.
  - case_bool_decide; [apply safe_ret|].
    apply safe_bind.
    { eapply safe_steps; [done|]. apply (steps_AcquirePage R0 E0). apply E0_acquire. }
    intros [page|].
    + apply safe_bind; [|intros results'; apply IH].
      eapply safe_try_finally; [done|..]; [apply safe_ocr_location| |apply total_emit].
      apply allows_emit. by apply HE1.
    + apply safe_bind; [|intros []; apply IH].
      eapply safe_steps; [done|]. apply allows_emit, E0_print.
Qed.

Lemma safe_process_glyph (doc : PdfDoc) (value : MissingGlyph) :
  safe Q (process_glyph sdk self doc value).
Proof.
  unfold process_glyph, _ocr_missing_glyph.
  apply safe_bind; [apply safe_bind; [apply safe_ocr_locations|]|].
  - intros results. eapply safe_steps; [done|].
    apply (steps_choose_character self R0 E0), E0_print.
  - intros new_char. eapply safe_steps; [done|].
    pose proof E0_print. pose proof E0_set_unicode. steps_tac.
Qed.

Lemma safe__process_all_missing_occurences (doc : PdfDoc)
    (missing_glyphs : list (string * MissingGlyph)) :
  safe Q (_process_all_missing_occurences sdk self doc missing_glyphs).
Proof.
  unfold _process_all_missing_occurences. apply safe_for_each.
  intros value []. apply safe_process_glyph.
Qed.

Lemma safe_fix_missing_unicode : safe Q (fix_missing_unicode sdk self).
Proof.
  unfold fix_missing_unicode. destruct (negb (GetPdfix sdk)); [by eapply safe_throw|].
  eapply safe_try_finally; [done|..]; [| |apply total_emit].
  2: { apply allows_emit. by apply HE1. }
  apply safe_bind.
  { eapply safe_steps; [done|]. unfold authorize_sdk. pose proof E0_print. steps_tac. }
  intros []. destruct (OpenDoc sdk) as [doc|]; [|by eapply safe_throw].
  eapply safe_try_finally; [done|..]; [| |apply total_emit].
  2: { apply allows_emit. by apply HE1. }
  apply safe_bind.
  { eapply safe_steps; [done|].
    apply (steps__gather_all_missing_occurences R0 E0);
      [apply E0_print|apply E0_acquire|apply E0_release]. }
  intros missing_glyphs.
  apply safe_bind; [apply safe__process_all_missing_occurences|intros []].
  eapply safe_steps; [done|].
  assert (∀ b, E0 (EvSave b)) by (intros; apply HE0; simpl; tauto).
  pose proof (steps__clean_up_rendered_pages R0). steps_tac.
Qed.

End safety_fixer.

(** ** The render cache *)

Lemma render_page_calls_raises (page : PdfPage) (e : exn) :
  render_page_calls page = Raise e → ∃ msg, e = PdfixFailedToRenderException msg.
Proof.
  unfold render_page_calls.
  repeat (case_match; [intros [= <-]; by eexists|]). done.
Qed.

Lemma _get_pdf_page_render_run (i : nat) (page : PdfPage) (s : state) :
  _get_pdf_page_render i page s
  = match dict_get (cached_renders s) i with
    | Some path => (Ok path, s)
    | None =>
        let tmp := files_next s in
        match render_page_calls page with
        | Ok _ =>
            (Ok tmp,
             mkState (dict_set (cached_renders s) i tmp) (rects s) (rects_next s)
               (<[tmp := PageRaster i]> (<[tmp := Blank]> (files s))) (S tmp)
               (log s ++ [EvRenderPage i tmp true]))
        | Raise e =>
            (Raise e,
             mkState (cached_renders s) (rects s) (rects_next s)
               (<[tmp := Blank]> (files s)) (S tmp)
               (log s ++ [EvRenderPage i tmp false]))
        end
    end.
Proof.
  unfold _get_pdf_page_render. rewrite bind_run. simpl.
  destruct (dict_get (cached_renders s) i) as [path|]; [done|].
  rewrite bind_run. simpl. rewrite bind_run. unfold render_page.
  destruct (render_page_calls page) as [[]|e]; reflexivity.
Qed.

Lemma render_attempts_app (l1 l2 : list event) :
  render_attempts (l1 ++ l2) = render_attempts l1 ++ render_attempts l2.
Proof. apply omap_app. Qed.

Lemma after_failed_render_app (l1 l2 : list event) :
  after_failed_render (l1 ++ l2)
  = match after_failed_render l1 with
    | Some post => Some (post ++ l2)
    | None => after_failed_render l2
    end.
Proof.
  induction l1 as [|e l1 IH]; simpl; [done|].
  destruct e as [| | |i p [|]| | | | |]; simpl; done.
Qed.

Lemma after_failed_render_none (l : list event) :
  Forall (λ e, ¬ is_failed_render e) l → after_failed_render l = None.
Proof.
  induction 1 as [|e l He _ IH]; simpl; [done|].
  destruct e as [| | |i p [|]| | | | |]; simpl in *; done.
Qed.

(** ** A failed rasterisation *)

Global Instance log_grows_remove_not_render :
  AllowsRemove (log_grows (λ e, ¬ is_render e)).
Proof. intros path. apply log_grows_os_remove. simpl. tauto. Qed.

Global Instance aborted_by_render_invariant :
  Invariant aborted_by_render (log_grows (λ e, ¬ is_render e)) (log_grows is_release).
Proof.
  split.
  - intros e s. unfold aborted_by_render.
    destruct (after_failed_render (log s)); [intros [[] _]|done].
  - intros s s' (d & Hlog & Hd). unfold aborted_by_render.
    rewrite Hlog, after_failed_render_app.
    destruct (after_failed_render (log s)); [intros [[] _]|intros _].
    rewrite after_failed_render_none; [done|].
    eapply Forall_impl; [|exact Hd]. intros [] ?; simpl in *; tauto.
  - intros o s s' (d & Hlog & Hd). unfold aborted_by_render.
    rewrite Hlog, after_failed_render_app.
    destruct (after_failed_render (log s)) as [post|].
    + intros [Ho Hpost]. split; [done|]. by apply Forall_app.
    + intros _. rewrite after_failed_render_none; [done|].
      eapply Forall_impl; [|exact Hd]. intros [] ?; simpl in *; tauto.
Qed.





(** ** Each page is rendered once *)

Global Instance cache_view_events : AllowsEvents (keeps cache_view) (λ e, ¬ is_render e).
Proof.
  intros e He s. unfold keeps, cache_view. simpl. f_equal.
  rewrite render_attempts_app. destruct e; simpl in *; try tauto; apply app_nil_r.
Qed.
Global Instance cache_view_files : AllowsFiles (keeps cache_view).
Proof. keeps_instance. Qed.
Global Instance cache_view_increase : AllowsIncrease (keeps cache_view).
Proof. keeps_instance. Qed.
Global Instance cache_view_new_rect : AllowsNewRect (keeps cache_view).
Proof. keeps_instance. Qed.
Global Instance cache_view_remove : AllowsRemove (keeps cache_view).
Proof.
  intros path s. unfold os_remove. destruct (files s !! path); [|reflexivity].
  unfold keeps, cache_view. simpl. f_equal. rewrite render_attempts_app. apply app_nil_r.
Qed.

Global Instance cache_matches_log_invariant :
  Invariant cache_matches_log (keeps cache_view) (keeps cache_view).
Proof.
  split.
  - intros e s [Hkeys Hnodup]. simpl. by rewrite <-Hkeys.
  - intros s s' [= Hcache Hlog]. simpl. by rewrite Hcache, Hlog.
  - intros o s s' [= Hcache Hlog]. destruct o; simpl; by rewrite ?Hcache, Hlog.
Qed.

Lemma cache_matches_log__get_pdf_page_render (i : nat) (page : PdfPage) :
  safe cache_matches_log (_get_pdf_page_render i page).
Proof.
  intros s [Hkeys Hnodup]. rewrite _get_pdf_page_render_run.
  destruct (dict_get (cached_renders s) i) as [path|] eqn:Hget; simpl; [done|].
  assert (NoDup ((cached_renders s).*1 ++ [i])) as Hnew.
  { rewrite list.NoDup_app. split; [done|]. split; [|apply NoDup_singleton].
    intros x Hx ->%list_elem_of_singleton. by apply dict_get_None in Hget. }
  destruct (render_page_calls page) as [[]|e]; simpl.
  - rewrite render_attempts_app, dict_set_keys. unfold dict_mem. rewrite Hget.
    rewrite bool_decide_eq_false_2 by (by intros [? ?]). simpl.
    by rewrite <-Hkeys.
  - rewrite render_attempts_app. simpl. by rewrite <-Hkeys.
Qed.

(** C8.  A call of [_get_pdf_page_render] for a page index already in the
    cache returns the recorded path and changes nothing: nothing is rendered.
    A call for a page index not in the cache whose rendering succeeds
    renders the page once into a new file, records that file for the index,
    and every later call for the index returns it without rendering.  The
    cache never holds two entries for one page index.  And in a whole run
    started with a cache that matches the log (an empty cache and log, for
    one), no page is rendered twice. *)
Theorem each_page_rendered_at_most_once (sdk : Sdk) (self : Config) (i : nat)
    (page : PdfPage) (s : state) :
  (∀ path, dict_get (cached_renders s) i = Some path →
     _get_pdf_page_render i page s = (Ok path, s)) ∧
  (dict_get (cached_renders s) i = None → render_page_calls page = Ok tt →
     let run := _get_pdf_page_render i page s in
     run.1 = Ok (files_next s) ∧
     dict_get (cached_renders run.2) i = Some (files_next s) ∧
     files run.2 !! files_next s = Some (PageRaster i) ∧
     log run.2 = log s ++ [EvRenderPage i (files_next s) true] ∧
     ∀ page', _get_pdf_page_render i page' run.2 = (Ok (files_next s), run.2)) ∧
  (NoDup (cached_renders s).*1 →
     NoDup (cached_renders (_get_pdf_page_render i page s).2).*1) ∧
  ((cached_renders s).*1 = render_attempts (log s) → NoDup (cached_renders s).*1 →
     NoDup (render_attempts (log (fix_missing_unicode sdk self s).2))).
Proof.
  split; [|split; [|split]].
  - intros path Hget. by rewrite _get_pdf_page_render_run, Hget.
  - intros Hget Hcalls run. unfold run. rewrite _get_pdf_page_render_run, Hget, Hcalls.
    simpl. split; [done|]. split; [apply dict_get_set_eq|].
    split; [apply lookup_insert_eq|]. split; [done|].
    intros page'. rewrite _get_pdf_page_render_run. simpl. by rewrite dict_get_set_eq.
  - intros Hnodup. rewrite _get_pdf_page_render_run.
    destruct (dict_get (cached_renders s) i); [done|].
    destruct (render_page_calls page); simpl; [|done].
    by apply dict_set_keys_NoDup.
  - intros Hkeys Hnodup.
    pose proof (safe_fix_missing_unicode sdk self cache_matches_log
      (keeps cache_view) (keeps cache_view) (λ e, ¬ is_render e) (λ e, ¬ is_render e)
      (λ _, id)) as Hsafe.
    specialize (Hsafe (λ e He, match e, He with
                               | EvRenderPage _ _ _, He => λ _, He
                               | _, _ => λ Hr, Hr end)).
    specialize (Hsafe cache_matches_log__get_pdf_page_render s (conj Hkeys Hnodup)).
    destruct (fix_missing_unicode sdk self s) as [[[]|e] s']; simpl in *; [|done].
    destruct Hsafe as [<- ?]. done.
Qed.

Lemma each_page_rendered_at_most_once_witness :
  let sdk := example_sdk two_page_doc in
  let page := good_page [] in
  let run := _get_pdf_page_render 0 page initial_state in
  (dict_get (cached_renders initial_state) 0%nat = None ∧
   render_page_calls page = Ok tt ∧
   run.1 = Ok 0%nat ∧
   ∀ page', _get_pdf_page_render 0 page' run.2 = (Ok 0%nat, run.2)) ∧
  ((cached_renders initial_state).*1 = render_attempts (log initial_state) ∧
   NoDup (cached_renders initial_state).*1 ∧
   NoDup (render_attempts (log (fix_missing_unicode sdk example_config initial_state).2))).
Proof.
  intros sdk page run.
  destruct (each_page_rendered_at_most_once sdk example_config 0 page initial_state)
    as (_ & Hmiss & _ & Hrun).
  split.
  - destruct (Hmiss eq_refl eq_refl) as (Hpath & _ & _ & _ & Hagain).
    split; [reflexivity|]. split; [reflexivity|]. split; [exact Hpath|exact Hagain].
  - split; [reflexivity|]. split; [apply NoDup_nil_2|].
    apply Hrun; [reflexivity|apply NoDup_nil_2].
Defined.


(** ** The box of a sampled location *)

Section enlarged_box.
Context (sdk : Sdk) (self : Config).

Lemma ocr_location_rects (location : CharLocation) (page : PdfPage)
    (results : list pystr) (s : state) (page_image : nat) :
  (_get_pdf_page_render (page_index location) page s).1 = Ok page_image →
  rects (ocr_location sdk self location page results s).2
  = <[bbox location := increase_bbox_fields (rects s (bbox location)) 2]> (rects s).
Proof.
  intros Hrender. unfold ocr_location. rewrite bind_run.
  pose proof (steps__get_pdf_page_render (keeps rects) (λ _, True)
                (page_index location) page (λ _ _ _, I) s) as Hs1.
  destruct (_get_pdf_page_render _ _ s) as [[path|e] s1]; simpl in *; [|done].
  unfold with_temporary_file. rewrite bind_run. simpl.
  set (s2 := set_files _ _ s1).
  unfold try_finally, delete_file. rewrite bind_run, _increase_bbox_run.
  set (s3 := set_rects _ _ s2).
  match goal with |- context [(?m ≫= ?k) s3] => set (rest := m ≫= k) end.
  assert (steps (keeps rects) rest) as Hrest.
  { unfold rest. pose proof (steps_crop_image (keeps rects)).
    pose proof (steps__ocr_character sdk self (keeps rects) (λ _, True)).
    steps_tac. }
  specialize (Hrest s3). destruct (rest s3) as [r s4]; simpl in *.
  unfold keeps in *. rewrite Hrest. unfold s3, s2. simpl. by rewrite Hs1.
Qed.

End enlarged_box.

(** C7, as the code has it.  [_increase_bbox] assigns the enlarged
    coordinates to the box object it is given and returns that same object;
    every other box and the rest of the state stay as they were.  The box a
    location keeps is therefore enlarged by the 2-unit margin when the
    location is sampled (once its page raster is there), while its [height]
    stays as computed when the location was created. *)
Theorem increase_bbox_in_place (sdk : Sdk) (self : Config) (s : state) (box : nat)
    (increase_by : Z) (location : CharLocation) (page : PdfPage) (results : list pystr) :
  let run := _increase_bbox box increase_by s in
  (run.1 = Ok box ∧
   rects run.2 box = increase_bbox_fields (rects s box) increase_by ∧
   (∀ other, other ≠ box → rects run.2 other = rects s other) ∧
   rects_next run.2 = rects_next s ∧
   cached_renders run.2 = cached_renders s ∧
   files run.2 = files s ∧
   log run.2 = log s) ∧
  (∀ page_image,
     (_get_pdf_page_render (page_index location) page s).1 = Ok page_image →
     rects (ocr_location sdk self location page results s).2 (bbox location)
     = increase_bbox_fields (rects s (bbox location)) 2).
Proof.
  split.
  - simpl. rewrite fn_lookup_insert. repeat split.
    intros other Hne. by rewrite fn_lookup_insert_ne.
  - intros page_image Hrender.
    rewrite (ocr_location_rects _ _ _ _ _ _ _ Hrender). by rewrite fn_lookup_insert.
Qed.

Lemma increase_bbox_in_place_witness :
  let sdk := example_sdk two_page_doc in
  let s := (new_PdfRect (mkRect 0 10 5 0) initial_state).2 in
  let location := mkLocation 0 0 10 in
  (_get_pdf_page_render 0 (good_page []) s).1 = Ok 0%nat ∧
  rects (ocr_location sdk example_config location (good_page []) [] s).2 0%nat
  = increase_bbox_fields (rects s 0%nat) 2.
Proof.
  intros sdk s location. split; [reflexivity|].
  destruct (increase_bbox_in_place sdk example_config s 0 2 location (good_page []) [])
    as [_ Hsampled].
  apply (Hsampled 0%nat). reflexivity.
Defined.

(** ** Cleaning up the rendered pages *)

Lemma for_each_os_remove (paths : list nat) (s : state) :
  NoDup paths → (∀ p, p ∈ paths → is_Some (files s !! p)) →
  let run := for_each paths (λ value _, os_remove value) tt s in
  run.1 = Ok tt ∧
  log run.2 = log s ++ (EvRemove <$> paths) ∧
  (∀ p, files run.2 !! p = if bool_decide (p ∈ paths) then None else files s !! p) ∧
  cached_renders run.2 = cached_renders s.
Proof.
  revert s. induction paths as [|path paths IH]; intros s Hnodup Hfiles.
  - simpl. split; [done|]. split; [by rewrite app_nil_r|]. by split.
  - apply list.NoDup_cons in Hnodup as [Hnotin Hnodup].
    destruct (Hfiles path) as [img Himg]; [apply list_elem_of_here|].
    set (s1 := set_log (log s ++ [EvRemove path])
                 (set_files (delete path (files s)) (files_next s) s)).
    assert (for_each (path :: paths) (λ value _, os_remove value) tt s
            = for_each paths (λ value _, os_remove value) tt s1) as ->.
    { simpl. rewrite bind_run. unfold os_remove at 1. by rewrite Himg. }
    destruct (IH s1 Hnodup) as (Hok & Hlog & Hlookup & Hcache).
    { intros p Hp. simpl. rewrite lookup_delete_ne by (by intros ->).
      apply Hfiles. by apply list_elem_of_further. }
    split; [done|]. split; [|split; [|done]].
    + rewrite Hlog. simpl. by rewrite <-app_assoc.
    + intros p. rewrite Hlookup. simpl.
      destruct (decide (p = path)) as [->|Hne].
      * rewrite (bool_decide_eq_true_2 (path ∈ path :: paths)) by apply list_elem_of_here.
        rewrite bool_decide_eq_false_2 by done. apply lookup_delete_eq.
      * rewrite lookup_delete_ne by done.
        rewrite (bool_decide_ext (p ∈ path :: paths) (p ∈ paths)); [done|].
        rewrite elem_of_cons. tauto.
Qed.

(** On the path where resolution returns, the clean-up removes the file of
    every cached raster, each once. *)
Lemma _clean_up_rendered_pages_removes_each_once (s : state) :
  NoDup (cached_renders s).*2 →
  (∀ p, p ∈ (cached_renders s).*2 → is_Some (files s !! p)) →
  let run := _clean_up_rendered_pages s in
  run.1 = Ok tt ∧
  log run.2 = log s ++ (EvRemove <$> (cached_renders s).*2) ∧
  (∀ p, p ∈ (cached_renders s).*2 → files run.2 !! p = None).
Proof.
  intros Hnodup Hfiles. unfold _clean_up_rendered_pages. rewrite bind_run. simpl.
  destruct (for_each_os_remove (dict_values (cached_renders s)) s Hnodup Hfiles)
    as (Hok & Hlog & Hlookup & _).
  split; [done|]. split; [done|].
  intros p Hp. rewrite Hlookup. by rewrite bool_decide_eq_true_2.
Qed.

(** C5, where the code departs from it.  The glyph is on two pages; the
    first is rendered and cached in file 0, the second cannot be drawn.  The
    run ends with the exception of the second rendering, document closed and
    SDK destroyed, but [_clean_up_rendered_pages] is never called: nothing
    is removed, the cache still names file 0, and file 0 still holds the
    raster of the first page. *)
Theorem clean_up_skipped_when_resolution_raises :
  let run := fix_missing_unicode (example_sdk second_page_undrawable_doc)
               example_config initial_state in
  run.1 = Raise (PdfixFailedToRenderException "Unable to draw the content") ∧
  log run.2
  = [EvPrint "No license name or key provided. Using PDFix SDK trial";
     EvAcquirePage 0 true; EvReleasePage 0; EvAcquirePage 1 true; EvReleasePage 1;
     EvAcquirePage 0 true; EvRenderPage 0 0 true; EvReleasePage 0;
     EvAcquirePage 1 true; EvRenderPage 1 2 false; EvReleasePage 1;
     EvClose; EvDestroy] ∧
  cached_renders run.2 = [(0%nat, 0%nat)] ∧
  files run.2 !! 0%nat = Some (PageRaster 0).
Proof. vm_compute. done. Qed.

(** The same document with a second page that can be drawn: the run
    returns, and both rasters are removed before the document is saved. *)
Example clean_up_runs_when_resolution_returns :
  let run := fix_missing_unicode (example_sdk two_page_doc) example_config initial_state in
  run.1 = Ok tt ∧
  log run.2
  = [EvPrint "No license name or key provided. Using PDFix SDK trial";
     EvAcquirePage 0 true; EvReleasePage 0; EvAcquirePage 1 true; EvReleasePage 1;
     EvAcquirePage 0 true; EvRenderPage 0 0 true; EvReleasePage 0;
     EvAcquirePage 1 true; EvRenderPage 1 2 true; EvReleasePage 1;
     EvPrint "From OCR results: character was chosen";
     EvSetUnicode 0 1 [65] true; EvRemove 0; EvRemove 2; EvSave true;
     EvClose; EvDestroy] ∧
  files run.2 = ∅.
Proof. vm_compute. done. Qed.

(** ** The table of a whole scan *)

Lemma for_range_inv {T} (I : nat → T → state → Prop) (start count : nat)
    (body : nat → T → Py T) :
  (∀ i acc s, (start ≤ i < start + count)%nat → I i acc s →
     ∀ acc' s', body i acc s = (Ok acc', s') → I (S i) acc' s') →
  ∀ acc s, I start acc s →
    ∀ acc' s', for_range start count body acc s = (Ok acc', s') →
      I (start + count)%nat acc' s'.
Proof.
  revert start. induction count as [|count IH]; intros start Hbody acc s Hacc acc' s'; simpl.
  - intros [= <- <-]. by rewrite Nat.add_0_r.
  - rewrite bind_run. destruct (body start acc s) as [[acc1|e] s1] eqn:Hstep; [|done].
    intros Hrest. replace (start + S count)%nat with (S start + count)%nat by lia.
    eapply IH; [|by eapply (Hbody start); [lia|done..]|exact Hrest].
    intros i acc0 s0 Hi. apply Hbody. lia.
Qed.

Lemma expected_locations_app (k : string) (l1 l2 : list (nat * (PdfFont * CharData))) :
  expected_locations k (l1 ++ l2) = expected_locations k l1 ++ expected_locations k l2.
Proof. unfold expected_locations. by rewrite list.filter_app, fmap_app. Qed.

Lemma expected_locations_one (k : string) (x : nat * (PdfFont * CharData)) :
  expected_locations k [x]
  = if decide (missing_at k x)
    then [(x.1, _get_height (GetCharBBox x.2.2), GetCharBBox x.2.2)] else [].
Proof.
  unfold expected_locations. rewrite filter_cons, filter_nil. by case_decide.
Qed.

Lemma table_matches_state (table : list (string * MissingGlyph)) (s s' : state)
    (chars : list (nat * (PdfFont * CharData))) :
  rects s' = rects s → rects_next s' = rects_next s →
  table_matches table s chars → table_matches table s' chars.
Proof.
  intros Hrects Hnext Hm k. destruct (Hm k) as (Hlt & Hne & Hview).
  unfold location_view in *. rewrite Hrects, Hnext. done.
Qed.

Lemma table_matches_skip (table : list (string * MissingGlyph)) (s : state)
    (chars : list (nat * (PdfFont * CharData))) (x : nat * (PdfFont * CharData)) :
  ¬ needs_ocr (GetCharText x.2.2) →
  table_matches table s chars → table_matches table s (chars ++ [x]).
Proof.
  intros Hx Hm k. destruct (Hm k) as (Hlt & Hne & Hview).
  split; [done|]. split; [done|].
  rewrite expected_locations_app, Hview, expected_locations_one.
  rewrite decide_False; [by rewrite app_nil_r|]. by intros [? _].
Qed.

Lemma table_matches_add (table : list (string * MissingGlyph)) (s : state)
    (chars : list (nat * (PdfFont * CharData))) (i : nat) (font : PdfFont) (char : CharData) :
  needs_ocr (GetCharText char) →
  table_matches table s chars →
  let k := glyph_key font char in
  let location := mkLocation i (rects_next s) (_get_height (GetCharBBox char)) in
  let entry := default (new_MissingGlyph font (GetCharCode char)) (dict_get table k) in
  table_matches (dict_set table k (add_location location entry))
    (set_rects (<[rects_next s := GetCharBBox char]> (rects s)) (S (rects_next s)) s)
    (chars ++ [(i, (font, char))]).
Proof.
  intros Hneeds Hm k location entry k'. destruct (Hm k') as (Hlt & Hne & Hview).
  assert (∀ l, (bbox l < rects_next s)%nat →
            location_view (set_rects (<[rects_next s := GetCharBBox char]> (rects s))
                                     (S (rects_next s)) s) l
            = location_view s l) as Hold.
  { intros l Hl. unfold location_view. simpl. rewrite fn_lookup_insert_ne by lia. done. }
  rewrite expected_locations_app, expected_locations_one. unfold table_locations in *.
  destruct (decide (k' = k)) as [->|Hk].
  - rewrite dict_get_set_eq. simpl.
    assert (locations entry = from_option locations [] (dict_get table k)) as ->.
    { unfold entry. by destruct (dict_get table k). }
    split; [|split].
    + apply Forall_app. split; [|by repeat constructor].
      eapply Forall_impl; [|exact Hlt]. simpl. lia.
    + intros _. by destruct (from_option locations [] (dict_get table k)).
    + rewrite fmap_app, <-Hview. f_equal.
      * apply Forall_fmap_ext_1. eapply Forall_impl; [|exact Hlt]. apply Hold.
      * rewrite decide_True by done.
        simpl. unfold location_view. simpl. by rewrite fn_lookup_insert.
  - rewrite dict_get_set_ne by done.
    split; [|split; [done|]].
    + eapply Forall_impl; [|exact Hlt]. simpl. lia.
    + rewrite decide_False by (intros [_ ?]; done).
      rewrite app_nil_r, <-Hview.
      apply Forall_fmap_ext_1. eapply Forall_impl; [|exact Hlt]. apply Hold.
Qed.

Lemma needs_ocr_should (text : pystr) :
  needs_ocr text ↔ _should_char_be_ocr text = Ok true.
Proof. symmetry. apply _should_char_be_ocr_true. Qed.

Lemma gather_char_matches (font : PdfFont) (i : nat) (char : CharData)
    (table table' : list (string * MissingGlyph)) (s s' : state)
    (chars : list (nat * (PdfFont * CharData))) :
  table_matches table s chars →
  gather_char font i char table s = (Ok table', s') →
  table_matches table' s' (chars ++ [(i, (font, char))]).
Proof.
  intros Hm. destruct (_should_char_be_ocr_cases (GetCharText char)) as [Hc|[Hc|Hc]].
  - rewrite (gather_char_needed _ _ _ _ _ Hc). intros [= <- <-].
    apply table_matches_add; [by apply needs_ocr_should|done].
  - unfold gather_char. rewrite bind_run. unfold lift. rewrite Hc. simpl.
    intros [= <- <-]. apply table_matches_skip; [|done].
    simpl. rewrite needs_ocr_should, Hc. done.
  - unfold gather_char. rewrite bind_run. unfold lift. by rewrite Hc.
Qed.

Section scan_table.
Context (doc : PdfDoc).

Lemma gather_chars_matches (font : PdfFont) (i : nat) (chars : list CharData)
    (table table' : list (string * MissingGlyph)) (s s' : state)
    (scanned : list (nat * (PdfFont * CharData))) :
  table_matches table s scanned →
  for_range 0 (length chars)
    (λ char_index missing_glyphs,
       match chars !! char_index with
       | Some char => gather_char font i char missing_glyphs
       | None => mret missing_glyphs
       end) table s = (Ok table', s') →
  table_matches table' s' (scanned ++ ((λ char, (i, (font, char))) <$> chars)).
Proof.
  intros Hm Hrun.
  enough (table_matches table' s'
            (scanned ++ ((λ char, (i, (font, char))) <$> take (0 + length chars) chars)))
    as Hgoal by (simpl in Hgoal; by rewrite firstn_all in Hgoal).
  eapply (for_range_inv
    (λ k acc s, table_matches acc s
                  (scanned ++ ((λ char, (i, (font, char))) <$> take k chars)))
    0 (length chars)); [|by rewrite take_0, app_nil_r|exact Hrun].
  simpl. intros k acc s0 Hk Hacc acc' s0'.
  destruct (lookup_lt_is_Some_2 chars k) as [char Hchar]; [lia|].
  rewrite Hchar. intros Hstep.
  rewrite (take_S_r _ _ _ Hchar), fmap_app, app_assoc.
  by eapply gather_char_matches.
Qed.

Lemma gather_object_matches (i : nat) (objects : list (option PdsPageObject)) (j : nat)
    (table table' : list (string * MissingGlyph)) (s s' : state)
    (scanned : list (nat * (PdfFont * CharData))) :
  table_matches table s scanned →
  gather_object i objects j table s = (Ok table', s') →
  table_matches table' s' (scanned ++ object_chars i (mjoin (objects !! j))).
Proof.
  intros Hm. unfold gather_object, object_chars.
  destruct (mjoin (objects !! j)) as [[[font|] chars|]|]; simpl.
  - destruct (GetEmbedded font); simpl.
    + by apply gather_chars_matches.
    + intros [= <- <-]. by rewrite app_nil_r.
  - intros [= <- <-]. by rewrite app_nil_r.
  - intros [= <- <-]. by rewrite app_nil_r.
  - intros [= <- <-]. rewrite app_nil_r. by apply (table_matches_state _ s).
Qed.

Lemma gather_objects_matches (i : nat) (objects : list (option PdsPageObject))
    (table table' : list (string * MissingGlyph)) (s s' : state)
    (scanned : list (nat * (PdfFont * CharData))) :
  table_matches table s scanned →
  for_range 0 (length objects) (gather_object i objects) table s = (Ok table', s') →
  table_matches table' s' (scanned ++ concat (object_chars i <$> objects)).
Proof.
  intros Hm Hrun.
  enough (table_matches table' s'
            (scanned ++ concat (object_chars i <$> take (0 + length objects) objects)))
    as Hgoal by (simpl in Hgoal; by rewrite firstn_all in Hgoal).
  eapply (for_range_inv
    (λ j acc s, table_matches acc s
                  (scanned ++ concat (object_chars i <$> take j objects)))
    0 (length objects)); [|by rewrite take_0, app_nil_r|exact Hrun].
  simpl. intros j acc s0 Hj Hacc acc' s0' Hstep.
  destruct (lookup_lt_is_Some_2 objects j) as [obj Hobj]; [lia|].
  rewrite (take_S_r _ _ _ Hobj), fmap_app, concat_app, app_assoc. simpl.
  rewrite app_nil_r.
  pose proof (gather_object_matches _ _ _ _ _ _ _ _ Hacc Hstep) as Hnext.
  by rewrite Hobj in Hnext.
Qed.

Lemma gather_page_matches (i : nat) (table table' : list (string * MissingGlyph))
    (s s' : state) (scanned : list (nat * (PdfFont * CharData))) :
  table_matches table s scanned →
  gather_page doc i table s = (Ok table', s') →
  table_matches table' s' (scanned ++ page_chars i (mjoin (doc_pages doc !! i))).
Proof.
  intros Hm. unfold gather_page, page_chars. rewrite bind_run, AcquirePage_run.
  set (s1 := set_log _ s).
  assert (table_matches table s1 scanned) as Hm1 by (by apply (table_matches_state _ s)).
  destruct (mjoin (doc_pages doc !! i)) as [page|]; simpl.
  - unfold Release. rewrite try_finally_emit.
    destruct (GetContent page) as [objects|].
    + destruct (for_range _ _ _ _ s1) as [[table1|e] s2] eqn:Hrun; simpl; [|done].
      intros [= <- <-]. apply (table_matches_state _ s2); [done..|].
      by eapply gather_objects_matches.
    + simpl. intros [= <- <-]. rewrite app_nil_r.
      by apply (table_matches_state _ s).
  - intros [= <- <-]. rewrite app_nil_r. by apply (table_matches_state _ s).
Qed.

Lemma _gather_all_missing_occurences_matches (table : list (string * MissingGlyph))
    (s s' : state) :
  _gather_all_missing_occurences doc s = (Ok table, s') →
  table_matches [] s [] → table_matches table s' (doc_chars doc).
Proof.
  intros Hrun Hm. unfold _gather_all_missing_occurences in Hrun.
  enough (table_matches table s'
            (concat (imap page_chars (take (0 + length (doc_pages doc)) (doc_pages doc)))))
    as Hgoal by (simpl in Hgoal; by rewrite firstn_all in Hgoal).
  eapply (for_range_inv
    (λ n acc s, table_matches acc s (concat (imap page_chars (take n (doc_pages doc)))))
    0 (length (doc_pages doc))); [|by rewrite take_0|exact Hrun].
  simpl. intros n acc s0 Hn Hacc acc' s0' Hstep.
  destruct (lookup_lt_is_Some_2 (doc_pages doc) n) as [page Hpage]; [lia|].
  rewrite (take_S_r _ _ _ Hpage), imap_app, concat_app. simpl.
  rewrite app_nil_r, length_take_le, Nat.add_0_r by lia.
  pose proof (gather_page_matches _ _ _ _ _ _ Hacc Hstep) as Hnext.
  by rewrite Hpage in Hnext.
Qed.

End scan_table.

(** C3.  For a character of an embedded-font text object the scanner adds a
    location to the glyph table exactly when the decoded text is empty or
    is the single code point U+FFFE (65534) or U+FEFF (65279): then the
    entry of the character's key gets a new location (the entry is created
    if the key is new), with the page index, a new box object holding the
    character's box, and its height, every other entry staying as it was.
    For any other decoded text no entry is created or extended: the table
    and the state are left as they were.  Hence the table a scan returns
    holds under each key the locations of exactly the scanned characters of
    that key that need OCR, in the order of the scan, and has no entry for
    a key without such a character. *)
Theorem scanner_adds_location_exactly_when_needed (font : PdfFont) (i : nat)
    (char : CharData) (missing_glyphs : list (string * MissingGlyph)) (s : state)
    (doc : PdfDoc) :
  let run := gather_char font i char missing_glyphs s in
  let text := GetCharText char in
  let k := GetFontName font +:+ pretty (GetCharCode char) in
  let location := mkLocation i (rects_next s) (_get_height (GetCharBBox char)) in
  let scan := _gather_all_missing_occurences doc s in
  (_should_char_be_ocr text = Ok true ↔ text = [] ∨ text = [65534] ∨ text = [65279]) ∧
  (if bool_decide (text = [] ∨ text = [65534] ∨ text = [65279]) then
     ∃ missing_glyphs',
       run.1 = Ok missing_glyphs' ∧
       dict_get missing_glyphs' k
       = Some (add_location location
                 (default (new_MissingGlyph font (GetCharCode char))
                          (dict_get missing_glyphs k))) ∧
       (∀ k', k' ≠ k → dict_get missing_glyphs' k' = dict_get missing_glyphs k') ∧
       rects run.2 (rects_next s) = GetCharBBox char
   else
     run.2 = s ∧ (run.1 = Ok missing_glyphs ∨ run.1 = Raise TypeError)) ∧
  (∀ table, scan.1 = Ok table →
     ∀ key,
       location_view scan.2 <$> table_locations table key
       = expected_locations key (doc_chars doc) ∧
       (is_Some (dict_get table key) ↔ expected_locations key (doc_chars doc) ≠ [])).
Proof.
  intros run text k location scan.
  split; [apply _should_char_be_ocr_true|]. split.
  - case_bool_decide as Htext.
    + apply _should_char_be_ocr_true in Htext.
      unfold run. rewrite (gather_char_needed _ _ _ _ _ Htext). simpl.
      eexists. split; [done|]. split; [apply dict_get_set_eq|].
      split; [intros k' Hk'; by apply dict_get_set_ne|].
      by rewrite fn_lookup_insert.
    + rewrite <-_should_char_be_ocr_true in Htext. unfold run, gather_char.
      rewrite bind_run. unfold lift.
      destruct (_should_char_be_ocr_cases text) as [Hc|[Hc|Hc]]; fold text;
        rewrite Hc in *; [done| |]; simpl; auto.
  - intros table Hscan key.
    assert (table_matches table scan.2 (doc_chars doc)) as Hm.
    { apply (_gather_all_missing_occurences_matches doc table s).
      - unfold scan in *. destruct (_gather_all_missing_occurences doc s) as [r s'].
        simpl in *. by subst r.
      - intros k0. split; [constructor|]. split; [by intros [? ?]|done]. }
    destruct (Hm key) as (_ & Hne & Hview). split; [done|]. split.
    + intros Hsome Hnil. apply Hne in Hsome. rewrite Hnil in Hview.
      by apply fmap_nil_inv in Hview.
    + intros Hexp. unfold table_locations in Hview.
      destruct (dict_get table key); [by eexists|]. simpl in Hview. done.
Qed.

(** A scan of two pages showing the same unmapped glyph returns one entry
    with the two locations. *)
Lemma scanner_adds_location_exactly_when_needed_witness :
  let scan := _gather_all_missing_occurences two_page_doc initial_state in
  let table :=
    [("F11", mkGlyph example_font 1 [mkLocation 0 0 20; mkLocation 1 1 10] "F11")] in
  scan.1 = Ok table ∧
  location_view scan.2 <$> table_locations table "F11"
  = expected_locations "F11" (doc_chars two_page_doc).
Proof.
  intros scan table.
  assert (scan.1 = Ok table) as Hscan by (vm_compute; reflexivity).
  split; [exact Hscan|].
  destruct (scanner_adds_location_exactly_when_needed example_font 0 ligature_char []
              initial_state two_page_doc) as (_ & _ & Hall).
  apply (Hall table Hscan "F11").
Defined.

(** * Further properties *)

(** ** Heights and enlarged boxes *)






(** ** What the backends return *)

Lemma py_lstrip_decompose (c : Z) (s : pystr) :
  ∃ stripped, s = stripped ++ py_lstrip c s ∧ Forall (λ x, x = c) stripped ∧
              match py_lstrip c s with [] => True | x :: _ => x ≠ c end.
Proof.
  induction s as [|x s (stripped & Heq & Hall & Hhead)]; simpl.
  - by exists [].
  - case_bool_decide as Hx.
    + exists (x :: stripped). split; [simpl; by f_equal|]. split; [by constructor|done].
    + by exists [].
Qed.

Lemma py_lstrip_snoc (c x : Z) (s : pystr) :
  x ≠ c → py_lstrip c (s ++ [x]) = py_lstrip c s ++ [x].
Proof.
  intros Hx. induction s as [|y s IH]; simpl.
  - by rewrite bool_decide_eq_false_2.
  - by case_bool_decide.
Qed.

(** Stripping at both ends keeps the first character that stripping at the
    left leaves. *)
Lemma py_strip_head (c : Z) (s : pystr) :
  take 1 (py_strip c s) = take 1 (py_lstrip c s).
Proof.
  unfold py_strip. destruct (py_lstrip_decompose c s) as (_ & _ & _ & Hhead).
  destruct (py_lstrip c s) as [|x rest]; [done|].
  rewrite reverse_cons, py_lstrip_snoc by done. by rewrite reverse_app.
Qed.

(** X3.  When the Tesseract engine answers, [tesseract_ocr] returns the
    first character of the answer that is not a newline, and the empty
    string exactly when the answer consists of newlines only (or is empty);
    it returns at most one character and changes nothing. *)
Theorem tesseract_returns_first_character (sdk : Sdk) (default : pystr) (path : nat)
    (s : state) (answer : pystr) :
  (run_engine (image_to_string sdk) path s).1 = Ok answer →
  ∃ newlines rest,
    answer = newlines ++ rest ∧
    Forall (λ x, x = 10) newlines ∧
    match rest with
    | [] => tesseract_ocr sdk default path s = (Ok [], s)
    | x :: _ => x ≠ 10 ∧ tesseract_ocr sdk default path s = (Ok [x], s)
    end.
Proof.
  intros Hanswer. rewrite tesseract_ocr_run, Hanswer.
  destruct (py_lstrip_decompose 10 answer) as (newlines & Heq & Hall & Hhead).
  exists newlines, (py_lstrip 10 answer). split; [done|]. split; [done|].
  pose proof (py_strip_head 10 answer) as Hstrip.
  destruct (py_lstrip 10 answer) as [|x rest]; simpl in *.
  - by destruct (py_strip 10 answer).
  - split; [done|]. destruct (py_strip 10 answer); simpl in *; [done|]. by simplify_eq.
Qed.

Lemma tesseract_returns_first_character_witness :
  let sdk := example_sdk two_page_doc in
  let s := (NamedTemporaryFile initial_state).2 in
  (run_engine (image_to_string sdk) 0 s).1 = Ok [65; 10] ∧
  ∃ newlines rest,
    [65; 10] = newlines ++ rest ∧
    Forall (λ x, x = 10) newlines ∧
    match rest with
    | [] => tesseract_ocr sdk [32] 0 s = (Ok [], s)
    | x :: _ => x ≠ 10 ∧ tesseract_ocr sdk [32] 0 s = (Ok [x], s)
    end.
Proof.
  intros sdk s. split; [reflexivity|].
  by apply (tesseract_returns_first_character sdk [32] 0 s [65; 10]).
Defined.

Lemma py_max_from_first_Z {A} (key : A → Z) (best : A) (l : list A) :
  ∃ before after,
    best :: l = before ++ py_max_from Z_gt key best l :: after ∧
    Forall (λ x, key x < key (py_max_from Z_gt key best l)) before ∧
    Forall (λ x, key x ≤ key (py_max_from Z_gt key best l)) after.
Proof.
  revert best. induction l as [|x l IH]; intros best; simpl.
  - exists [], []. by repeat constructor.
  - destruct (Z_gt (key x) (key best)) eqn:Hgt; unfold Z_gt in Hgt;
      [apply bool_decide_eq_true in Hgt|apply bool_decide_eq_false in Hgt].
    + destruct (IH x) as (before & after & Heq & Hb & Ha).
      exists (best :: before), after.
      split; [simpl; by f_equal|]. split; [|done]. constructor; [|done].
      assert (key x ≤ key (py_max_from Z_gt key x l)); [|lia].
      destruct before as [|y before]; simpl in Heq.
      * injection Heq as Hx _. by rewrite <-Hx.
      * injection Heq as Hx _. subst y. apply Forall_cons_1 in Hb as [Hb _]. lia.
    + destruct (IH best) as (before & after & Heq & Hb & Ha).
      destruct before as [|y before]; simpl in Heq.
      * injection Heq as Hbest Hl. exists [], (x :: after). rewrite <-Hbest in *.
        subst after. split; [done|]. split; [done|]. constructor; [lia|done].
      * injection Heq as Hbest Hl. subst y. exists (best :: x :: before), after.
        split; [simpl; by rewrite <-Hl|]. apply Forall_cons_1 in Hb as [Hb Hb'].
        split; [|done]. repeat constructor; [done|lia|done].
Qed.

(** X4.  When the Rapid OCR engine answers with detections, [rapid_ocr]
    returns the text of the detection with the highest score, the first of
    them when several share it; with no detection it returns the default
    character.  The state is unchanged. *)
Theorem rapid_returns_best_scored_text (sdk : Sdk) (default : pystr) (path : nat)
    (s : state) (output : list (pystr * Z)) :
  (run_engine (rapidocr sdk) path s).1 = Ok output →
  match output with
  | [] => rapid_ocr sdk default path s = (Ok default, s)
  | _ :: _ =>
      ∃ before best after,
        output = before ++ best :: after ∧
        Forall (λ x, x.2 < best.2) before ∧
        Forall (λ x, x.2 ≤ best.2) after ∧
        rapid_ocr sdk default path s = (Ok best.1, s)
  end.
Proof.
  intros Houtput. rewrite rapid_ocr_run, Houtput.
  destruct output as [|first rest]; [done|]. simpl.
  destruct (py_max_from_first_Z snd first rest) as (before & after & Heq & Hb & Ha).
  by exists before, (py_max_from Z_gt snd first rest), after.
Qed.

Lemma rapid_returns_best_scored_text_witness :
  let sdk := example_sdk two_page_doc in
  let s := (NamedTemporaryFile initial_state).2 in
  (run_engine (rapidocr sdk) 0 s).1 = Ok [([65], 9)] ∧
  ∃ before best after,
    [([65], 9)] = before ++ best :: after ∧
    Forall (λ x : pystr * Z, x.2 < best.2) before ∧
    Forall (λ x : pystr * Z, x.2 ≤ best.2) after ∧
    rapid_ocr sdk [32] 0 s = (Ok best.1, s).
Proof.
  intros sdk s. split; [reflexivity|].
  by apply (rapid_returns_best_scored_text sdk [32] 0 s [([65], 9)]).
Defined.

(** ** Samples that give no vote *)

Lemma set_log_same (s : state) : set_log (log s ++ []) s = s.
Proof. destruct s. unfold set_log. simpl. by rewrite app_nil_r. Qed.

Lemma set_log_set_log (l1 l2 : list event) (s : state) :
  set_log (log (set_log l1 s) ++ l2) (set_log l1 s) = set_log (l1 ++ l2) s.
Proof. reflexivity. Qed.

Section no_vote.
Context (sdk : Sdk) (self : Config) (doc : PdfDoc).

Lemma ocr_locations_unacquirable (locations : list CharLocation) (count : nat)
    (results : list pystr) (s : state) :
  Forall (λ l, mjoin (doc_pages doc !! page_index l) = None) locations →
  ocr_locations sdk self doc locations count results s
  = (Ok results,
     set_log (log s ++ (take (max_count - count) locations ≫=
                          λ l, [EvAcquirePage (page_index l) false;
                                EvPrint "Failed to open page"])) s).
Proof.
  intros Hnone. revert count s.
  induction Hnone as [|location rest Hloc _ IH]; intros count s.
  - rewrite take_nil. simpl. by rewrite set_log_same.
  - simpl. case_bool_decide as Hcount.
    + replace (max_count - count)%nat with 0%nat by lia. simpl. by rewrite set_log_same.
    + replace (max_count - count)%nat with (S (max_count - S count)) by lia.
      rewrite bind_run, AcquirePage_run, Hloc. simpl.
      rewrite bind_run. unfold print at 1, emit at 1. rewrite IH. f_equal.
      unfold set_log. simpl. f_equal. by rewrite <-!app_assoc.
Qed.

Lemma _ocr_character_unknown_engine (path : nat) (s : state) :
  engine self ≠ EASY_OCR self → engine self ≠ RAPID_OCR self →
  engine self ≠ TESSERACT_OCR self →
  _ocr_character sdk self path s = (Ok [], s).
Proof.
  intros He Hr Ht. unfold _ocr_character.
  apply String.eqb_neq in He, Hr, Ht. by rewrite He, Hr, Ht.
Qed.

Lemma ocr_location_unknown_engine (location : CharLocation) (page : PdfPage)
    (results r : list pystr) (s : state) :
  engine self ≠ EASY_OCR self → engine self ≠ RAPID_OCR self →
  engine self ≠ TESSERACT_OCR self →
  (ocr_location sdk self location page results s).1 = Ok r → r = results.
Proof.
  intros He Hr Ht. unfold ocr_location. rewrite bind_run.
  destruct (_get_pdf_page_render _ _ s) as [[page_image|e] s1]; [|done].
  rewrite with_temporary_file_result. rewrite bind_run, _increase_bbox_run, bind_run.
  destruct (crop_image _ _ _ _ _ _) as [[[]|e] s2]; [|done].
  rewrite bind_run, _ocr_character_unknown_engine by done. simpl. by intros [= <-].
Qed.

Lemma ocr_locations_unknown_engine (locations : list CharLocation) (count : nat)
    (results r : list pystr) (s : state) :
  engine self ≠ EASY_OCR self → engine self ≠ RAPID_OCR self →
  engine self ≠ TESSERACT_OCR self →
  (ocr_locations sdk self doc locations count results s).1 = Ok r → r = results.
Proof.
  intros He Hr Ht. revert count s.
  induction locations as [|location rest IH]; intros count s; simpl.
  - by intros [= <-].
  - case_bool_decide; [by intros [= <-]|].
    rewrite bind_run, AcquirePage_run.
    destruct (mjoin _) as [page|].
    + unfold Release. rewrite bind_run, try_finally_emit.
      destruct (ocr_location _ _ _ _ _ _).1 as [results'|e] eqn:Hbody; [|done].
      apply ocr_location_unknown_engine in Hbody as ->; [|done..]. apply IH.
    + rewrite bind_run. apply IH.
Qed.

End no_vote.

(** X5.  When none of a glyph's pages can be acquired, the resolver returns
    the default character: for each of the (at most five) locations it
    tries, it logs the failed acquisition and a message, and it renders
    nothing, recognises nothing and leaves cache, files and boxes alone. *)
Theorem unacquirable_pages_give_default_character (sdk : Sdk) (self : Config)
    (doc : PdfDoc) (locations : list CharLocation) (missing_glyph : MissingGlyph)
    (s : state) :
  Forall (λ l, mjoin (doc_pages doc !! page_index l) = None) locations →
  _ocr_missing_glyph sdk self doc locations missing_glyph s
  = (Ok (default_character self),
     set_log (log s ++ (take 5 locations ≫=
                          λ l, [EvAcquirePage (page_index l) false;
                                EvPrint "Failed to open page"])) s).
Proof.
  intros Hnone. unfold _ocr_missing_glyph.
  rewrite bind_run, (ocr_locations_unacquirable _ _ _ _ _ _ _ Hnone).
  by rewrite choose_character_run.
Qed.

Lemma unacquirable_pages_give_default_character_witness :
  let doc := mkDoc [None] true in
  let locations := [mkLocation 0 0 10; mkLocation 3 1 20] in
  Forall (λ l, mjoin (doc_pages doc !! page_index l) = None) locations ∧
  (_ocr_missing_glyph (example_sdk doc) example_config doc locations
     (mkGlyph example_font 1 locations "F11") initial_state).1
  = Ok [32].
Proof.
  intros doc locations.
  assert (Forall (λ l, mjoin (doc_pages doc !! page_index l) = None) locations) as Hnone
    by (by repeat constructor).
  split; [exact Hnone|].
  by rewrite (unacquirable_pages_give_default_character (example_sdk doc) example_config
                doc locations _ initial_state Hnone).
Defined.

(** X6.  With an engine name that is none of the three the class knows,
    no sample ever gives a result, so the resolver can only return the
    default character. *)
Theorem unknown_engine_gives_default_character (sdk : Sdk) (self : Config)
    (doc : PdfDoc) (locations : list CharLocation) (missing_glyph : MissingGlyph)
    (s : state) (character : pystr) :
  engine self ≠ EASY_OCR self → engine self ≠ RAPID_OCR self →
  engine self ≠ TESSERACT_OCR self →
  (_ocr_missing_glyph sdk self doc locations missing_glyph s).1 = Ok character →
  character = default_character self.
Proof.
  intros He Hr Ht. unfold _ocr_missing_glyph. rewrite bind_run.
  pose proof (λ r, ocr_locations_unknown_engine sdk self doc locations 0 [] r s He Hr Ht)
    as Hresults.
  destruct (ocr_locations sdk self doc locations 0 [] s) as [[results|e] s1]; [|done].
  rewrite (Hresults results eq_refl), choose_character_run. by intros [= <-].
Qed.

Lemma unknown_engine_gives_default_character_witness :
  let self := mkConfig "easy" "rapid" "tesseract" None None "other" [63] in
  let run := _ocr_missing_glyph (example_sdk two_page_doc) self two_page_doc
               [mkLocation 0 0 20] (mkGlyph example_font 1 [] "F11")
               (new_PdfRect (mkRect 0 20 5 0) initial_state).2 in
  engine self ≠ EASY_OCR self ∧ engine self ≠ RAPID_OCR self ∧
  engine self ≠ TESSERACT_OCR self ∧
  run.1 = Ok [63] ∧ [63] = default_character self.
Proof.
  intros self run.
  assert (run.1 = Ok [63]) as Hrun by (vm_compute; reflexivity).
  split; [done|]. split; [done|]. split; [done|]. split; [exact Hrun|].
  by apply (unknown_engine_gives_default_character (example_sdk two_page_doc) self
              two_page_doc [mkLocation 0 0 20] (mkGlyph example_font 1 [] "F11")
              (new_PdfRect (mkRect 0 20 5 0) initial_state).2 [63]).
Defined.

(** ** Closing the document and destroying the SDK *)

Global Instance log_grows_remove_not_close :
  AllowsRemove (log_grows not_close_or_destroy).
Proof. intros path. by apply log_grows_os_remove. Qed.

Section release.
Context (sdk : Sdk) (self : Config).

Lemma authorize_sdk_log : steps (log_grows not_close_or_destroy) (authorize_sdk sdk self).
Proof.
  unfold authorize_sdk.
  assert (∀ msg, not_close_or_destroy (EvPrint msg)) by done.
  steps_tac.
Qed.

Lemma fix_body_log (doc : PdfDoc) :
  steps (log_grows not_close_or_destroy)
    (missing_glyphs ← _gather_all_missing_occurences doc;
     _process_all_missing_occurences sdk self doc missing_glyphs;;
     _clean_up_rendered_pages;;
     emit (EvSave (Save doc));;
     if negb (Save doc) then mthrow PdfixFailedToSaveException else mret tt).
Proof.
  pose proof (steps__gather_all_missing_occurences (log_grows not_close_or_destroy)
                not_close_or_destroy doc) as Hgather.
  pose proof (steps__process_all_missing_occurences sdk self
                (log_grows not_close_or_destroy) not_close_or_destroy doc) as Hprocess.
  pose proof (steps__clean_up_rendered_pages (log_grows not_close_or_destroy)) as Hclean.
  assert (∀ b, not_close_or_destroy (EvSave b)) by done.
  apply steps_bind; [apply _|by apply Hgather|intros missing_glyphs].
  apply steps_bind; [apply _|by apply Hprocess|intros []].
  steps_tac.
Qed.

End release.

(** X7.  Without an SDK instance the run raises [PdfixInitializeException]
    and does nothing else.  With one, whatever the run returns or raises, it
    destroys the SDK exactly once, as its last call; and it closes the
    document exactly once, just before that, exactly when the document was
    opened (authorization succeeded and [OpenDoc] gave a document). *)
Theorem document_closed_and_sdk_destroyed_once (sdk : Sdk) (self : Config) (s : state) :
  let run := fix_missing_unicode sdk self s in
  (GetPdfix sdk = false → run = (Raise PdfixInitializeException, s)) ∧
  (GetPdfix sdk = true →
   ∃ delta,
     log run.2 = log s ++ delta ++ [EvDestroy] ∧
     Forall (λ e, e ≠ EvDestroy) delta ∧
     match (authorize_sdk sdk self s).1, OpenDoc sdk with
     | Ok _, Some _ => ∃ d, delta = d ++ [EvClose] ∧ Forall (λ e, e ≠ EvClose) d
     | _, _ => Forall (λ e, e ≠ EvClose) delta
     end).
Proof.
  intros run. unfold run, fix_missing_unicode. split; intros Hsdk; rewrite Hsdk; [done|].
  change (negb true) with false. cbv iota. rewrite try_finally_emit. simpl.
  rewrite bind_run.
  destruct (authorize_sdk_log sdk self s) as (d0 & Hd0 & HP0).
  destruct (authorize_sdk sdk self s) as [[[]|e] s1]; simpl in *.
  - destruct (OpenDoc sdk) as [doc|].
    + rewrite try_finally_emit. simpl.
      destruct (fix_body_log sdk self doc s1) as (d1 & Hd1 & HP1).
      match goal with |- context [log (?m s1).2] => change (log (m s1).2) with
        (log ((missing_glyphs ← _gather_all_missing_occurences doc;
               _process_all_missing_occurences sdk self doc missing_glyphs;;
               _clean_up_rendered_pages;;
               emit (EvSave (Save doc));;
               if negb (Save doc) then mthrow PdfixFailedToSaveException else mret tt)
              s1).2) end.
      rewrite Hd1, Hd0. exists ((d0 ++ d1) ++ [EvClose]).
      split; [by rewrite <-!app_assoc|]. split.
      * apply Forall_app. split; [|by apply Forall_singleton].
        apply Forall_app. split; (eapply Forall_impl; [|eassumption]; by intros ? []).
      * exists (d0 ++ d1). split; [done|].
        apply Forall_app. split; (eapply Forall_impl; [|eassumption]; by intros ? []).
    + simpl. rewrite Hd0. exists d0. split; [by rewrite <-app_assoc|].
      split; (eapply Forall_impl; [|eassumption]; by intros ? []).
  - rewrite Hd0. exists d0. split; [by rewrite <-app_assoc|].
    split; (eapply Forall_impl; [|eassumption]; by intros ? []).
Qed.

Lemma document_closed_and_sdk_destroyed_once_witness :
  let sdk := example_sdk second_page_undrawable_doc in
  let run := fix_missing_unicode sdk example_config initial_state in
  GetPdfix sdk = true ∧
  ∃ delta,
    log run.2 = log initial_state ++ delta ++ [EvDestroy] ∧
    Forall (λ e, e ≠ EvDestroy) delta ∧
    ∃ d, delta = d ++ [EvClose] ∧ Forall (λ e, e ≠ EvClose) d.
Proof.
  intros sdk run. split; [reflexivity|].
  destruct (document_closed_and_sdk_destroyed_once sdk example_config initial_state)
    as [_ Hrelease].
  exact (Hrelease eq_refl).
Defined.

(** ** One page at a time *)

Global Instance stays_preorder (h : holding) : PreOrder (stays h).
Proof.
  split.
  - intros s Hh. exact Hh.
  - intros s1 s2 s3 H12 H23 Hh. apply H23, H12, Hh.
Qed.

Lemma pages_held_snoc (l : list event) (e : event) :
  pages_held (l ++ [e]) = page_step (pages_held l) e.
Proof. unfold pages_held. by rewrite foldl_app. Qed.

Lemma stays_silent (h : holding) {A} (m : Py A) :
  steps (keeps log) m → steps (stays h) m.
Proof. intros Hm s Hh. by rewrite (Hm s). Qed.

Global Instance stays_events (h : holding) :
  AllowsEvents (stays h) (λ e, page_step h e = h).
Proof. intros e He s Hh. simpl. by rewrite pages_held_snoc, Hh. Qed.
Global Instance stays_files (h : holding) : AllowsFiles (stays h).
Proof. split; intros; apply stays_silent; keeps_instance. Qed.
Global Instance stays_new_rect (h : holding) : AllowsNewRect (stays h).
Proof. intros ?. apply stays_silent; keeps_instance. Qed.
Global Instance stays_increase (h : holding) : AllowsIncrease (stays h).
Proof. intros ? ?. apply stays_silent; keeps_instance. Qed.
Global Instance stays_store (h : holding) : AllowsStore (stays h).
Proof. intros ? ?. apply stays_silent; keeps_instance. Qed.
Global Instance stays_remove (h : holding) : AllowsRemove (stays h).
Proof.
  intros path s Hh. unfold os_remove. destruct (files s !! path); [|done].
  simpl. rewrite pages_held_snoc, Hh. by destruct h.
Qed.

Lemma page_step_misuse (l : list event) : foldl page_step Misuse l = Misuse.
Proof. induction l as [|e l IH]; [done|]. simpl. by destruct e. Qed.

Section pages_at.
Context (R : relation state) `{!PreOrder R} (E : event → Prop) `{!AllowsEvents R E}.
Context `{!AllowsFiles R, !AllowsStore R, !AllowsIncrease R}.

(** The page rendered is the page asked for. *)
Lemma steps__get_pdf_page_render_at (i : nat) (page : PdfPage) :
  (∀ p b, E (EvRenderPage i p b)) → steps R (_get_pdf_page_render i page).
Proof.
  intros HE. unfold _get_pdf_page_render.
  pose proof (steps_render_page R E i page). steps_tac.
Qed.

Lemma steps_ocr_location_at sdk self (location : CharLocation) (page : PdfPage)
    (results : list pystr) :
  (∀ msg, E (EvPrint msg)) → (∀ p b, E (EvRenderPage (page_index location) p b)) →
  steps R (ocr_location sdk self location page results).
Proof.
  intros HE1 HE2. unfold ocr_location.
  pose proof (steps__get_pdf_page_render_at (page_index location) page HE2).
  pose proof (steps__ocr_character sdk self R E).
  pose proof (steps_crop_image R). steps_tac.
Qed.

End pages_at.

Section one_page.
Context (sdk : Sdk) (self : Config) (doc : PdfDoc).

Lemma gather_page_free (i : nat) (missing_glyphs : list (string * MissingGlyph)) :
  steps (stays Free) (gather_page doc i missing_glyphs).
Proof.
  intros s Hfree. unfold gather_page. rewrite bind_run, AcquirePage_run.
  destruct (mjoin (doc_pages doc !! i)) as [page|]; simpl.
  - unfold Release. rewrite try_finally_emit. simpl. rewrite pages_held_snoc.
    match goal with |- context [(?m ?s1).2] =>
      assert (pages_held (log (m s1).2) = Holding i) as -> end.
    { match goal with |- context [(?m ?s1).2] =>
        assert (steps (stays (Holding i)) m) as Hbody end.
      { pose proof (steps_gather_object (stays (Holding i)) _ i).
        assert (∀ msg, page_step (Holding i) (EvPrint msg) = Holding i) by done.
        steps_tac. }
      apply Hbody. simpl. by rewrite pages_held_snoc, Hfree. }
    simpl. by rewrite bool_decide_eq_true_2.
  - rewrite ?bind_run. simpl. rewrite <-app_assoc. simpl.
    unfold pages_held in *. rewrite foldl_app, Hfree. done.
Qed.

Lemma ocr_locations_free (locations : list CharLocation) (count : nat)
    (results : list pystr) :
  steps (stays Free) (ocr_locations sdk self doc locations count results).
Proof.
  revert count results.
  induction locations as [|location rest IH]; intros count results s Hfree; simpl.
  - done.
  - case_bool_decide; [done|].
    rewrite bind_run, AcquirePage_run.
    destruct (mjoin _) as [page|]; simpl.
    + unfold Release. rewrite bind_run, try_finally_emit.
      assert (pages_held
                (log (ocr_location sdk self location page results
                        (set_log (log s ++ [EvAcquirePage (page_index location) true]) s)).2)
              = Holding (page_index location)) as Hheld.
      { apply (steps_ocr_location_at (stays (Holding (page_index location))) _).
        - done.
        - intros p b. simpl. by rewrite bool_decide_eq_true_2.
        - simpl. by rewrite pages_held_snoc, Hfree. }
      destruct (ocr_location _ _ _ _ _ _) as [[results'|e] s1]; simpl in *.
      * apply IH. simpl. rewrite pages_held_snoc, Hheld. simpl.
        by rewrite bool_decide_eq_true_2.
      * rewrite pages_held_snoc, Hheld. simpl. by rewrite bool_decide_eq_true_2.
    + rewrite bind_run. apply IH. simpl. by rewrite !pages_held_snoc, Hfree.
Qed.

End one_page.

Lemma fix_missing_unicode_free (sdk : Sdk) (self : Config) :
  steps (stays Free) (fix_missing_unicode sdk self).
Proof.
  unfold fix_missing_unicode, authorize_sdk, _gather_all_missing_occurences,
    _process_all_missing_occurences, process_glyph, _ocr_missing_glyph.
  pose proof gather_page_free. pose proof (ocr_locations_free sdk self).
  pose proof (steps_choose_character self (stays Free) _).
  pose proof (steps__clean_up_rendered_pages (stays Free)).
  assert (∀ msg, page_step Free (EvPrint msg) = Free) by done.
  steps_tac.
Qed.

(** X8.  Throughout a run, however it ends, the pipeline holds at most one
    page at a time: it acquires a page only while holding none, releases
    exactly the page it holds, renders only the page it holds, and saves,
    closes and destroys only while holding none; when the run ends no page
    is held. *)
Theorem one_page_held_at_a_time (sdk : Sdk) (self : Config) (s : state) :
  pages_held (log s) = Free →
  pages_held (log (fix_missing_unicode sdk self s).2) = Free ∧
  ∀ before after,
    log (fix_missing_unicode sdk self s).2 = before ++ after →
    pages_held before ≠ Misuse.
Proof.
  intros Hfree. pose proof (fix_missing_unicode_free sdk self s Hfree) as Hend.
  split; [done|]. intros before after Hlog Hmisuse.
  rewrite Hlog in Hend. unfold pages_held in *.
  by rewrite foldl_app, Hmisuse, page_step_misuse in Hend.
Qed.

Lemma one_page_held_at_a_time_witness :
  let run := fix_missing_unicode (example_sdk second_page_undrawable_doc) example_config
               initial_state in
  pages_held (log initial_state) = Free ∧ pages_held (log run.2) = Free.
Proof.
  intros run. split; [reflexivity|].
  by apply (one_page_held_at_a_time (example_sdk second_page_undrawable_doc)
              example_config initial_state).
Defined.

(** ** When the scan returns *)

Lemma for_range_returns {T} (start count : nat) (body : nat → T → Py T) :
  (∀ i acc s, (start ≤ i < start + count)%nat → ∃ acc', (body i acc s).1 = Ok acc') →
  ∀ acc s, ∃ acc', (for_range start count body acc s).1 = Ok acc'.
Proof.
  revert start. induction count as [|count IH]; intros start Hbody acc s; simpl.
  - by exists acc.
  - rewrite bind_run. destruct (Hbody start acc s) as [acc1 Hstep]; [lia|].
    destruct (body start acc s) as [[acc1'|e] s1]; simpl in *; [|done].
    apply IH. intros i acc0 s0 Hi. apply Hbody. lia.
Qed.

Lemma gather_char_returns (font : PdfFont) (i : nat) (char : CharData)
    (missing_glyphs : list (string * MissingGlyph)) (s : state) :
  (length (GetCharText char) ≤ 1)%nat →
  ∃ table, (gather_char font i char missing_glyphs s).1 = Ok table.
Proof.
  intros Hlen. destruct (_should_char_be_ocr_cases (GetCharText char)) as [Hc|[Hc|Hc]].
  - rewrite (gather_char_needed _ _ _ _ _ Hc). by eexists.
  - unfold gather_char. rewrite bind_run. unfold lift. rewrite Hc. by eexists.
  - apply _should_char_be_ocr_raises in Hc. lia.
Qed.

Lemma scan_raises (doc : PdfDoc) (i : nat) (font : PdfFont) (char : CharData) (s : state) :
  scans_char doc i font char → (2 ≤ length (GetCharText char))%nat →
  (_gather_all_missing_occurences doc s).1 = Raise TypeError.
Proof.
  intros (page & objects & j & chars & k & Hpage & Hcontent & Hobj & Hemb & Hchar) Hlen.
  unfold _gather_all_missing_occurences.
  apply (for_range_raises _ _ _ _ i).
  - intros. by eapply gather_page_only_raises.
  - apply lookup_lt_Some in Hpage. lia.
  - intros acc s'. rewrite (gather_page_result _ _ _ _ _ Hpage), Hcontent.
    apply (for_range_raises _ _ _ _ j).
    + intros. by eapply gather_object_only_raises.
    + apply lookup_lt_Some in Hobj. lia.
    + intros acc' s''. unfold gather_object. rewrite Hobj. simpl. rewrite Hemb. simpl.
      apply (for_range_raises _ _ _ _ k).
      * intros k' acc'' s3 e'. destruct (chars !! k'); [apply gather_char_only_raises|done].
      * apply lookup_lt_Some in Hchar. lia.
      * intros acc'' s3. rewrite Hchar. by apply gather_char_raises.
Qed.

Lemma scan_returns (doc : PdfDoc) (s : state) :
  (∀ i font char, scans_char doc i font char → (length (GetCharText char) ≤ 1)%nat) →
  ∃ table, (_gather_all_missing_occurences doc s).1 = Ok table.
Proof.
  intros Hshort. unfold _gather_all_missing_occurences.
  apply for_range_returns. intros i acc s0 Hi.
  destruct (doc_pages doc !! i) as [[page|]|] eqn:Hpage.
  - rewrite (gather_page_result _ _ _ _ _ Hpage).
    destruct (GetContent page) as [objects|] eqn:Hcontent; [|by eexists].
    apply for_range_returns. intros j acc1 s1 Hj.
    unfold gather_object.
    destruct (objects !! j) as [[[[font|] chars|]|]|] eqn:Hobj; simpl; try by eexists.
    destruct (GetEmbedded font) eqn:Hemb; simpl; [|by eexists].
    apply for_range_returns. intros k acc2 s2 Hk.
    destruct (chars !! k) as [char|] eqn:Hchar; [|by eexists].
    apply gather_char_returns, (Hshort i font).
    by exists page, objects, j, chars, k.
  - unfold gather_page. rewrite bind_run, AcquirePage_run, Hpage. by eexists.
  - unfold gather_page. rewrite bind_run, AcquirePage_run, Hpage. by eexists.
Qed.

(** X9.  The scan returns a glyph table exactly when no character it reaches
    (in a text object with an embedded font, on a page that can be acquired
    and whose content and object can be obtained) has a decoded text of two
    or more characters; and the only exception a scan can end with is the
    [TypeError] of such a character. *)
Theorem scan_returns_iff_texts_are_short (doc : PdfDoc) (s : state) :
  ((∃ table, (_gather_all_missing_occurences doc s).1 = Ok table) ↔
   (∀ i font char, scans_char doc i font char → (length (GetCharText char) ≤ 1)%nat)) ∧
  (∀ e, (_gather_all_missing_occurences doc s).1 = Raise e → e = TypeError).
Proof.
  split; [split|].
  - intros [table Hok] i font char Hscan.
    destruct (decide (length (GetCharText char) ≤ 1)%nat) as [|Hlong]; [done|].
    rewrite (scan_raises doc i font char s Hscan) in Hok by lia. done.
  - apply scan_returns.
  - intros e. unfold _gather_all_missing_occurences.
    apply for_range_only_raises. intros. by eapply gather_page_only_raises.
Qed.

Lemma scan_returns_iff_texts_are_short_witness :
  (∀ i font char, scans_char two_page_doc i font char →
     (length (GetCharText char) ≤ 1)%nat) ∧
  ∃ table, (_gather_all_missing_occurences two_page_doc initial_state).1 = Ok table.
Proof.
  assert (∀ i font char, scans_char two_page_doc i font char →
            (length (GetCharText char) ≤ 1)%nat) as Hshort.
  { intros i font char (page & objects & j & chars & k & Hp & Hc & Ho & He & Hch).
    unfold two_page_doc, good_page, text_object in *.
    destruct i as [|[|i]]; simplify_eq/=; destruct j as [|j]; simplify_eq/=;
      destruct k as [|k]; simplify_eq/=; lia. }
  split; [exact Hshort|].
  destruct (scan_returns_iff_texts_are_short two_page_doc initial_state) as [[_ Hok] _].
  exact (Hok Hshort).
Defined.

(** ** Invariants of the table during a scan *)

Section scan_invariant.
Context (Inv : list (string * MissingGlyph) → list (nat * (PdfFont * CharData)) → Prop).
Context (Hchar : ∀ font i char table table' s s' scanned,
  Inv table scanned → gather_char font i char table s = (Ok table', s') →
  Inv table' (scanned ++ [(i, (font, char))])).

Lemma gather_object_keeps (i : nat) (objects : list (option PdsPageObject)) (j : nat)
    (table table' : list (string * MissingGlyph)) (s s' : state)
    (scanned : list (nat * (PdfFont * CharData))) :
  Inv table scanned →
  gather_object i objects j table s = (Ok table', s') →
  Inv table' (scanned ++ object_chars i (mjoin (objects !! j))).
Proof.
  intros Hinv. unfold gather_object, object_chars.
  destruct (mjoin (objects !! j)) as [[[font|] chars|]|]; simpl;
    try (intros [= <- <-]; by rewrite app_nil_r).
  destruct (GetEmbedded font); simpl; [|intros [= <- <-]; by rewrite app_nil_r].
  intros Hrun.
  enough (Inv table' (scanned ++ ((λ char, (i, (font, char)))
                                    <$> take (0 + length chars) chars)))
    as Hgoal by (simpl in Hgoal; by rewrite firstn_all in Hgoal).
  eapply (for_range_inv
    (λ k acc _, Inv acc (scanned ++ ((λ char, (i, (font, char))) <$> take k chars)))
    0 (length chars)); [|by rewrite take_0, app_nil_r|exact Hrun].
  simpl. intros k acc s0 Hk Hacc acc' s0'.
  destruct (lookup_lt_is_Some_2 chars k) as [char Hc]; [lia|].
  rewrite Hc. intros Hstep.
  rewrite (take_S_r _ _ _ Hc), fmap_app, app_assoc. by eapply Hchar.
Qed.

Lemma gather_page_keeps (doc : PdfDoc) (i : nat)
    (table table' : list (string * MissingGlyph)) (s s' : state)
    (scanned : list (nat * (PdfFont * CharData))) :
  Inv table scanned →
  gather_page doc i table s = (Ok table', s') →
  Inv table' (scanned ++ page_chars i (mjoin (doc_pages doc !! i))).
Proof.
  intros Hinv. unfold gather_page, page_chars. rewrite bind_run, AcquirePage_run.
  destruct (mjoin (doc_pages doc !! i)) as [page|]; simpl;
    [|intros [= <- <-]; by rewrite app_nil_r].
  unfold Release. rewrite try_finally_emit.
  destruct (GetContent page) as [objects|];
    [|simpl; intros [= <- <-]; by rewrite app_nil_r].
  destruct (for_range _ _ _ _ _) as [[table1|e] s2] eqn:Hrun; simpl; [|done].
  intros [= <- <-].
  enough (Inv table1 (scanned ++ concat (object_chars i
                                           <$> take (0 + length objects) objects)))
    as Hgoal by (simpl in Hgoal; by rewrite firstn_all in Hgoal).
  eapply (for_range_inv
    (λ j acc _, Inv acc (scanned ++ concat (object_chars i <$> take j objects)))
    0 (length objects)); [|by rewrite take_0, app_nil_r|exact Hrun].
  simpl. intros j acc s0 Hj Hacc acc' s0' Hstep.
  destruct (lookup_lt_is_Some_2 objects j) as [obj Hobj]; [lia|].
  rewrite (take_S_r _ _ _ Hobj), fmap_app, concat_app, app_assoc. simpl.
  rewrite app_nil_r.
  pose proof (gather_object_keeps _ _ _ _ _ _ _ _ Hacc Hstep) as Hnext.
  by rewrite Hobj in Hnext.
Qed.

Lemma scan_keeps (doc : PdfDoc) (table : list (string * MissingGlyph)) (s s' : state) :
  Inv [] [] →
  _gather_all_missing_occurences doc s = (Ok table, s') →
  Inv table (doc_chars doc).
Proof.
  intros Hinv Hrun. unfold _gather_all_missing_occurences in Hrun.
  enough (Inv table
            (concat (imap page_chars (take (0 + length (doc_pages doc)) (doc_pages doc)))))
    as Hgoal by (simpl in Hgoal; by rewrite firstn_all in Hgoal).
  eapply (for_range_inv
    (λ n acc _, Inv acc (concat (imap page_chars (take n (doc_pages doc)))))
    0 (length (doc_pages doc))); [|by rewrite take_0|exact Hrun].
  simpl. intros n acc s0 Hn Hacc acc' s0' Hstep.
  destruct (lookup_lt_is_Some_2 (doc_pages doc) n) as [page Hpage]; [lia|].
  rewrite (take_S_r _ _ _ Hpage), imap_app, concat_app. simpl.
  rewrite app_nil_r, length_take_le, Nat.add_0_r by lia.
  pose proof (gather_page_keeps _ _ _ _ _ _ _ Hacc Hstep) as Hnext.
  by rewrite Hpage in Hnext.
Qed.

End scan_invariant.

Lemma filter_missing_snoc (k : string) (scanned : list (nat * (PdfFont * CharData)))
    (x : nat * (PdfFont * CharData)) :
  filter (missing_at k) (scanned ++ [x])
  = filter (missing_at k) scanned ++ (if decide (missing_at k x) then [x] else []).
Proof. rewrite list.filter_app, filter_cons, filter_nil. by case_decide. Qed.

Lemma table_identity_char (font : PdfFont) (i : nat) (char : CharData)
    (table table' : list (string * MissingGlyph)) (s s' : state)
    (scanned : list (nat * (PdfFont * CharData))) :
  table_identity table scanned →
  gather_char font i char table s = (Ok table', s') →
  table_identity table' (scanned ++ [(i, (font, char))]).
Proof.
  intros [Hnodup Hid].
  destruct (_should_char_be_ocr_cases (GetCharText char)) as [Hc|[Hc|Hc]].
  - rewrite (gather_char_needed _ _ _ _ _ Hc). intros [= <- <-].
    apply needs_ocr_should in Hc.
    split; [by apply dict_set_keys_NoDup|]. intros k. rewrite filter_missing_snoc.
    set (k0 := GetFontName font +:+ pretty (GetCharCode char)).
    destruct (decide (k = k0)) as [->|Hk].
    + rewrite dict_get_set_eq, decide_True by done. specialize (Hid k0).
      destruct (dict_get table k0) as [glyph|]; simpl.
      * destruct Hid as (Hkey & first & rest & Hfilter & Hfont & Hcode).
        split; [done|]. exists first, (rest ++ [(i, (font, char))]).
        by rewrite Hfilter.
      * split; [done|]. exists (i, (font, char)), []. by rewrite Hid.
    + rewrite dict_get_set_ne by done.
      rewrite decide_False by (intros [_ ?]; done). rewrite app_nil_r. apply Hid.
  - unfold gather_char. rewrite bind_run. unfold lift. rewrite Hc. simpl.
    intros [= <- <-]. split; [done|]. intros k. rewrite filter_missing_snoc.
    rewrite decide_False, app_nil_r; [apply Hid|].
    intros [Hneeds _]. simpl in Hneeds. apply needs_ocr_should in Hneeds. congruence.
  - unfold gather_char. rewrite bind_run. unfold lift. by rewrite Hc.
Qed.

(** X10.  The table a scan returns has no key twice.  Each entry sits under
    its own key, the font name followed by the char code, and carries the
    font and the char code of the first character of that key that needed
    OCR: when two different fonts and char codes give the same key, the
    characters of the later one are filed under the entry of the first. *)
Theorem table_entries_keep_first_identity (doc : PdfDoc) (s : state)
    (table : list (string * MissingGlyph)) :
  (_gather_all_missing_occurences doc s).1 = Ok table →
  NoDup table.*1 ∧
  ∀ k glyph, dict_get table k = Some glyph →
    key glyph = k ∧
    ∃ first rest,
      filter (missing_at k) (doc_chars doc) = first :: rest ∧
      font glyph = first.2.1 ∧
      char_code glyph = GetCharCode first.2.2 ∧
      k = GetFontName first.2.1 +:+ pretty (GetCharCode first.2.2).
Proof.
  intros Hscan.
  assert (table_identity table (doc_chars doc)) as [Hnodup Hid].
  { destruct (_gather_all_missing_occurences doc s) as [r s'] eqn:Hrun.
    simpl in Hscan. subst r.
    eapply (scan_keeps table_identity table_identity_char); [|exact Hrun].
    split; [constructor|done]. }
  split; [done|]. intros k glyph Hget. specialize (Hid k). rewrite Hget in Hid.
  destruct Hid as (Hkey & first & rest & Hfilter & Hfont & Hcode).
  split; [done|]. exists first, rest. repeat split; try done.
  assert (first ∈ filter (missing_at k) (doc_chars doc)) as Hin
    by (rewrite Hfilter; apply list_elem_of_here).
  apply list_elem_of_filter in Hin as [[_ Hk] _]. by rewrite <-Hk.
Qed.

Lemma table_entries_keep_first_identity_witness :
  let table :=
    [("F123", mkGlyph (mkFont 0 "F1" true) 23 [mkLocation 0 0 20; mkLocation 0 1 10]
                "F123")] in
  (_gather_all_missing_occurences colliding_doc initial_state).1 = Ok table ∧
  NoDup table.*1 ∧
  ∀ k glyph, dict_get table k = Some glyph →
    key glyph = k ∧
    ∃ first rest,
      filter (missing_at k) (doc_chars colliding_doc) = first :: rest ∧
      font glyph = first.2.1 ∧
      char_code glyph = GetCharCode first.2.2 ∧
      k = GetFontName first.2.1 +:+ pretty (GetCharCode first.2.2).
Proof.
  intros table.
  assert ((_gather_all_missing_occurences colliding_doc initial_state).1 = Ok table)
    as Hscan by (vm_compute; reflexivity).
  split; [exact Hscan|].
  exact (table_entries_keep_first_identity colliding_doc initial_state table Hscan).
Defined.

(** ** One assignment for each glyph *)



Section assigning.
Context (sdk : Sdk) (self : Config) (doc : PdfDoc).



End assigning.



(** ** The exceptions of a run *)

Section may_raise_rules.
Context (X : exn → Prop).

Lemma may_raise_ret {A} (a : A) : may_raise X (mret a).
Proof. by intros s e. Qed.


Lemma may_raise_emit (ev : event) : may_raise X (emit ev).
Proof. by intros s e. Qed.

Lemma may_raise_bind {A B} (m : Py A) (f : A → Py B) :
  may_raise X m → (∀ a, may_raise X (f a)) → may_raise X (m ≫= f).
Proof.
  intros Hm Hf s e. rewrite bind_run. specialize (Hm s).
  destruct (m s) as [[a|e'] s1]; simpl in *; [apply Hf|].
  intros [= <-]. by apply Hm.
Qed.

Lemma may_raise_try_finally_emit {A} (body : Py A) (ev : event) :
  may_raise X body → may_raise X (try_finally body (emit ev)).
Proof. intros Hb s e. rewrite try_finally_emit. apply Hb. Qed.

Lemma may_raise_for_each {A T} (l : list A) (body : A → T → Py T) (acc : T) :
  (∀ x acc, may_raise X (body x acc)) → may_raise X (for_each l body acc).
Proof.
  intros Hbody. revert acc. induction l as [|x l IH]; intros acc; simpl.
  - apply may_raise_ret.
  - apply may_raise_bind; [apply Hbody|intros acc'; apply IH].
Qed.


End may_raise_rules.

Lemma _ocr_character_returns (sdk : Sdk) (self : Config) (path : nat) (s : state) :
  ∃ result, _ocr_character sdk self path s = (Ok result, (_ocr_character sdk self path s).2).
Proof.
  unfold _ocr_character. repeat case_match.
  - rewrite easy_ocr_run. destruct (run_engine _ _ _).1; by eexists.
  - rewrite rapid_ocr_run. destruct (run_engine _ _ _).1; by eexists.
  - rewrite tesseract_ocr_run. destruct (run_engine _ _ _).1; by eexists.
  - by eexists.
Qed.

Section resolution_exceptions.
Context (sdk : Sdk) (self : Config) (doc : PdfDoc).

Lemma crop_image_may_raise (input output : nat) (page : PdfPage) (box : nat) :
  may_raise resolution_exception (crop_image sdk input output page box).
Proof.
  intros s e. unfold crop_image. destruct (negb (AcquirePageView page)); [by intros [= <-]|].
  rewrite bind_run. simpl. rewrite bind_run. simpl.
  destruct (files s !! input) as [img|]; [|by intros [= <-]].
  destruct (cropped img _); [|by intros [= <-]].
  destruct (image_crop_fails sdk img _); [by intros [= <-]|done].
Qed.

Lemma ocr_location_may_raise (location : CharLocation) (page : PdfPage)
    (results : list pystr) :
  may_raise resolution_exception (ocr_location sdk self location page results).
Proof.
  intros s e. unfold ocr_location. rewrite bind_run, _get_pdf_page_render_run.
  assert (∀ s1 page_image,
    (with_temporary_file (λ tmp_path,
       box ← _increase_bbox (bbox location) 2;
       crop_image sdk page_image tmp_path page box;;
       result ← _ocr_character sdk self tmp_path;
       if py_truthy result then mret (results ++ [result]) else mret results) s1).1
    = Raise e → resolution_exception e) as Hbody.
  { intros s1 page_image. rewrite with_temporary_file_result.
    rewrite bind_run, _increase_bbox_run, bind_run.
    pose proof (crop_image_may_raise page_image (files_next s1) page (bbox location)) as Hcrop.
    match goal with |- context [crop_image ?a ?b ?c ?d ?f ?st] =>
      specialize (Hcrop st); destruct (crop_image a b c d f st) as [[[]|e'] s2] end;
      simpl in *; [|intros [= <-]; by apply Hcrop].
    rewrite bind_run. destruct (_ocr_character_returns sdk self (files_next s1) s2)
      as [result ->]. by destruct (py_truthy result). }
  destruct (dict_get (cached_renders s) (page_index location)); [apply Hbody|].
  destruct (render_page_calls page) as [[]|e'] eqn:Hcalls; simpl; [apply Hbody|].
  intros [= <-]. by apply render_page_calls_raises in Hcalls as [msg ->].
Qed.

Lemma ocr_locations_may_raise (locations : list CharLocation) (count : nat)
    (results : list pystr) :
  may_raise resolution_exception (ocr_locations sdk self doc locations count results).
Proof.
  revert count results.
  induction locations as [|location rest IH]; intros count results; simpl.
  - apply may_raise_ret.
  - case_bool_decide; [apply may_raise_ret|].
    apply may_raise_bind; [by intros s e|intros [page|]].
    + apply may_raise_bind; [|intros results'; apply IH].
      apply may_raise_try_finally_emit, ocr_location_may_raise.
    + apply may_raise_bind; [apply may_raise_emit|intros []; apply IH].
Qed.

Lemma _process_all_missing_occurences_may_raise
    (missing_glyphs : list (string * MissingGlyph)) :
  may_raise resolution_exception
    (_process_all_missing_occurences sdk self doc missing_glyphs).
Proof.
  unfold _process_all_missing_occurences. apply may_raise_for_each. intros value [].
  unfold process_glyph, _ocr_missing_glyph.
  apply may_raise_bind; [apply may_raise_bind; [apply ocr_locations_may_raise|]|].
  - intros results s e. by rewrite choose_character_run; destruct results.
  - intros new_char. apply may_raise_bind; [apply may_raise_emit|intros []].
    destruct (negb _); [apply may_raise_emit|apply may_raise_ret].
Qed.

End resolution_exceptions.

Lemma _clean_up_rendered_pages_may_raise : may_raise (λ e, e = OSError) _clean_up_rendered_pages.
Proof.
  unfold _clean_up_rendered_pages. apply may_raise_bind; [by intros s e|intros s].
  apply may_raise_for_each. intros path [] s' e. unfold os_remove.
  destruct (files s' !! path); [done|]. by intros [= <-].
Qed.



(** ** The files of a run *)

Global Instance keeps_storage_events : AllowsEvents (keeps storage) (λ _, True).
Proof. keeps_instance. Qed.
Global Instance keeps_storage_new_rect : AllowsNewRect (keeps storage).
Proof. keeps_instance. Qed.

Lemma dict_set_values_new {K V} `{EqDecision K} (d : list (K * V)) (k : K) (v : V) :
  dict_get d k = None → dict_values (dict_set d k v) = dict_values d ++ [v].
Proof.
  unfold dict_values. induction d as [|[k' v'] d IH]; simpl; [done|].
  case_decide; [done|]. intros Hget. rewrite !fmap_cons. simpl. f_equal. by apply IH.
Qed.

Lemma only_renders_added_storage (before : gmap nat image) (s s' : state) :
  storage s' = storage s → only_renders_added before s → only_renders_added before s'.
Proof.
  unfold storage, only_renders_added, names_unused. intros [= Hfiles Hnext Hcache].
  by rewrite Hfiles, Hnext, Hcache.
Qed.

Lemma only_renders_added_render (before : gmap nat image) (s : state) (i : nat)
    (content : image) (l : list event) :
  dict_get (cached_renders s) i = None →
  only_renders_added before s →
  only_renders_added before
    (mkState (dict_set (cached_renders s) i (files_next s)) (rects s) (rects_next s)
       (<[files_next s := content]> (<[files_next s := Blank]> (files s)))
       (S (files_next s)) l).
Proof.
  intros Hget (Hunused & Hcached & Hother).
  assert (files s !! files_next s = None) as Hnew by (by apply Hunused).
  assert (files_next s ∉ dict_values (cached_renders s) → before !! files_next s = None)
    as Hbefore by (intros Hnotin; by rewrite <-Hother).
  unfold only_renders_added, names_unused. simpl.
  rewrite (dict_set_values_new _ _ _ Hget). split; [|split].
  - intros path Hpath. rewrite !lookup_insert_ne by lia. apply Hunused. lia.
  - intros path [Hpath| ->%list_elem_of_singleton]%elem_of_app; [by apply Hcached|].
    destruct (decide (files_next s ∈ dict_values (cached_renders s))); auto.
  - intros path Hpath. rewrite not_elem_of_app, list_elem_of_singleton in Hpath.
    destruct Hpath as [Hpath Hne]. rewrite !lookup_insert_ne by done. by apply Hother.
Qed.

Section files_of_a_run.
Context (sdk : Sdk) (self : Config).

Lemma crop_image_storage (input output : nat) (page : PdfPage) (box : nat) (s : state) :
  let s' := (crop_image sdk input output page box s).2 in
  cached_renders s' = cached_renders s ∧ files_next s' = files_next s ∧
  ∀ path, path ≠ output → files s' !! path = files s !! path.
Proof.
  unfold crop_image. destruct (negb (AcquirePageView page)); [done|].
  rewrite bind_run. simpl. rewrite bind_run. simpl.
  destruct (files s !! input) as [img|]; [|done].
  destruct (cropped img _); [|done].
  destruct (image_crop_fails sdk img _); [done|]. simpl.
  split; [done|]. split; [done|]. intros path Hne. by rewrite lookup_insert_ne.
Qed.

Lemma _ocr_character_storage (path : nat) : steps (keeps storage) (_ocr_character sdk self path).
Proof. by apply (steps__ocr_character sdk self (keeps storage) (λ _, True)). Qed.

(** The tile of one location is gone when its [with] block is left,
    however it is left. *)
Lemma ocr_tile_storage (page_image : nat) (location : CharLocation) (page : PdfPage)
    (results : list pystr) (s : state) :
  names_unused s →
  let run := with_temporary_file (λ tmp_path,
               box ← _increase_bbox (bbox location) 2;
               crop_image sdk page_image tmp_path page box;;
               result ← _ocr_character sdk self tmp_path;
               if py_truthy result then mret (results ++ [result]) else mret results) s in
  files run.2 = files s ∧ files_next run.2 = S (files_next s) ∧
  cached_renders run.2 = cached_renders s.
Proof.
  intros Hunused. unfold with_temporary_file. rewrite bind_run. simpl.
  set (s0 := set_files (<[files_next s := Blank]> (files s)) (S (files_next s)) s).
  set (body := (_ ≫= _) : Py (list pystr)).
  assert (cached_renders (body s0).2 = cached_renders s ∧
          files_next (body s0).2 = S (files_next s) ∧
          ∀ path, path ≠ files_next s → files (body s0).2 !! path = files s !! path)
    as (Hcache & Hnext & Hfiles).
  { unfold body. rewrite bind_run, _increase_bbox_run, bind_run.
    match goal with |- context [crop_image ?a ?b ?c ?d ?f ?st] =>
      pose proof (crop_image_storage b c d f st) as (Hc & Hn & Hf);
      destruct (crop_image a b c d f st) as [[[]|e] s1] end; simpl in *.
    - rewrite bind_run. pose proof (_ocr_character_storage (files_next s) s1) as Hk.
      destruct (_ocr_character sdk self (files_next s) s1) as [[result|e] s2];
        simpl in *; injection Hk as Hk1 Hk2 Hk3.
      + assert (∀ r : list pystr,
          (if py_truthy result then mret (results ++ [result]) else mret r : Py _) s2
          = (Ok (if py_truthy result then results ++ [result] else r), s2)) as ->
          by (intros r; by destruct (py_truthy result)).
        simpl. rewrite Hk1, Hk2, Hk3, Hc, Hn. split; [done|]. split; [done|].
        intros path Hne. rewrite Hf by done. by rewrite lookup_insert_ne.
      + rewrite Hk1, Hk2, Hk3, Hc, Hn. split; [done|]. split; [done|].
        intros path Hne. rewrite Hf by done. by rewrite lookup_insert_ne.
    - rewrite Hc, Hn. split; [done|]. split; [done|].
      intros path Hne. rewrite Hf by done. by rewrite lookup_insert_ne. }
  unfold try_finally, delete_file. destruct (body s0) as [[r|e] s1]; simpl in *.
  - split; [|done]. apply map_eq. intros path.
    destruct (decide (path = files_next s)) as [->|Hne].
    + rewrite lookup_delete_eq. symmetry. by apply Hunused.
    + rewrite lookup_delete_ne by done. by apply Hfiles.
  - split; [|done]. apply map_eq. intros path.
    destruct (decide (path = files_next s)) as [->|Hne].
    + rewrite lookup_delete_eq. symmetry. by apply Hunused.
    + rewrite lookup_delete_ne by done. by apply Hfiles.
Qed.

Lemma only_renders_added_tile (before : gmap nat image) (s s' : state) :
  files s' = files s → files_next s' = S (files_next s) →
  cached_renders s' = cached_renders s →
  only_renders_added before s → only_renders_added before s'.
Proof.
  unfold only_renders_added, names_unused. intros -> -> -> (Hunused & Hrest).
  split; [|done]. intros path Hpath. apply Hunused. lia.
Qed.

Lemma ocr_location_storage (before : gmap nat image) (location : CharLocation)
    (page : PdfPage) (results results' : list pystr) (s s' : state) :
  only_renders_added before s →
  ocr_location sdk self location page results s = (Ok results', s') →
  only_renders_added before s'.
Proof.
  intros Hinv. unfold ocr_location. rewrite bind_run, _get_pdf_page_render_run.
  destruct (dict_get (cached_renders s) (page_index location)) as [path|] eqn:Hget.
  - intros Hrun.
    destruct (ocr_tile_storage path location page results s) as (H1 & H2 & H3);
      [apply Hinv|]. rewrite Hrun in H1, H2, H3. by eapply only_renders_added_tile.
  - destruct (render_page_calls page) as [[]|e]; simpl; [|done].
    intros Hrun.
    match type of Hrun with with_temporary_file _ ?st = _ =>
      assert (only_renders_added before st) as Hinv1
        by (by apply only_renders_added_render);
      destruct (ocr_tile_storage (files_next s) location page results st)
        as (H1 & H2 & H3); [apply Hinv1|] end.
    rewrite Hrun in H1, H2, H3. by eapply only_renders_added_tile.
Qed.

Lemma only_renders_added_log (before : gmap nat image) (s : state) (l : list event) :
  only_renders_added before s → only_renders_added before (set_log l s).
Proof. apply only_renders_added_storage. done. Qed.

Lemma ocr_locations_storage (before : gmap nat image) (doc : PdfDoc)
    (locations : list CharLocation) (count : nat) (results results' : list pystr)
    (s s' : state) :
  only_renders_added before s →
  ocr_locations sdk self doc locations count results s = (Ok results', s') →
  only_renders_added before s'.
Proof.
  revert count results s.
  induction locations as [|location rest IH]; intros count results s Hinv; simpl.
  - by intros [= _ <-].
  - case_bool_decide; [by intros [= _ <-]|].
    rewrite bind_run, AcquirePage_run.
    destruct (mjoin (doc_pages doc !! page_index location)) as [page|].
    + unfold Release. rewrite bind_run, try_finally_emit.
      destruct (ocr_location _ _ _ _ _ _) as [[results1|e] s1] eqn:Hloc; simpl; [|done].
      apply IH, only_renders_added_log.
      eapply ocr_location_storage; [|exact Hloc]. by apply only_renders_added_log.
    + rewrite bind_run. simpl. apply IH. by do 2 apply only_renders_added_log.
Qed.

Lemma process_glyph_storage (before : gmap nat image) (doc : PdfDoc)
    (value : MissingGlyph) (s s' : state) :
  only_renders_added before s →
  process_glyph sdk self doc value s = (Ok tt, s') →
  only_renders_added before s'.
Proof.
  intros Hinv. unfold process_glyph, _ocr_missing_glyph. rewrite !bind_run.
  destruct (ocr_locations _ _ _ _ _ _ _) as [[results|e] s1] eqn:Hlocs; simpl; [|done].
  apply (ocr_locations_storage before) in Hlocs; [|done].
  pose proof (steps_choose_character self (keeps storage) (λ _, True) results
                (λ _, I) s1) as Hkeep.
  destruct (choose_character self results s1) as [[new_char|e] s2]; simpl in *; [|done].
  rewrite bind_run. simpl. destruct (negb _); simpl; intros [= <-];
    repeat apply only_renders_added_log; by eapply only_renders_added_storage.
Qed.

Lemma for_each_process_glyph_storage (before : gmap nat image) (doc : PdfDoc)
    (values : list MissingGlyph) (s s' : state) :
  only_renders_added before s →
  for_each values (λ value _, process_glyph sdk self doc value) tt s = (Ok tt, s') →
  only_renders_added before s'.
Proof.
  revert s. induction values as [|value values IH]; intros s Hinv; simpl.
  - by intros [= <-].
  - rewrite bind_run.
    destruct (process_glyph sdk self doc value s) as [[[]|e] s1] eqn:Hglyph; [|done].
    apply IH. by eapply process_glyph_storage.
Qed.

Lemma for_each_os_remove_files (paths : list nat) (s s' : state) :
  for_each paths (λ value _, os_remove value) tt s = (Ok tt, s') →
  ∀ path, files s' !! path = if bool_decide (path ∈ paths) then None else files s !! path.
Proof.
  revert s. induction paths as [|p paths IH]; intros s; simpl.
  - by intros [= <-] path.
  - rewrite bind_run. unfold os_remove at 1.
    destruct (files s !! p) as [img|] eqn:Himg; [|done].
    intros Hrun path. rewrite (IH _ Hrun). simpl.
    destruct (decide (path = p)) as [->|Hne].
    + rewrite (bool_decide_eq_true_2 (p ∈ p :: paths)) by apply list_elem_of_here.
      rewrite lookup_delete_eq. by case_bool_decide.
    + rewrite lookup_delete_ne by done.
      rewrite (bool_decide_ext (path ∈ p :: paths) (path ∈ paths)); [done|].
      rewrite elem_of_cons. tauto.
Qed.

Lemma _clean_up_rendered_pages_restores (before : gmap nat image) (s s' : state) :
  only_renders_added before s →
  _clean_up_rendered_pages s = (Ok tt, s') →
  files s' = before.
Proof.
  intros (_ & Hcached & Hother). unfold _clean_up_rendered_pages. rewrite bind_run. simpl.
  intros Hrun. apply map_eq. intros path.
  rewrite (for_each_os_remove_files _ _ _ Hrun). case_bool_decide.
  - symmetry. by apply Hcached.
  - by apply Hother.
Qed.

End files_of_a_run.

(** X13.  A run of a new instance (its cache of rendered pages empty) that
    returns, or that fails only at saving the document, leaves the
    temporary directory as it found it: every page raster and every tile it
    wrote has been removed again, and no other file was touched. *)
Theorem returning_run_leaves_no_file (sdk : Sdk) (self : Config) (s : state) :
  cached_renders s = [] →
  names_unused s →
  let run := fix_missing_unicode sdk self s in
  run.1 = Ok tt ∨ run.1 = Raise PdfixFailedToSaveException →
  files run.2 = files s.
Proof.
  intros Hcache Hunused run. subst run. unfold fix_missing_unicode.
  destruct (negb (GetPdfix sdk)); [by intros [|]|].
  rewrite try_finally_emit. simpl. rewrite bind_run.
  pose proof (steps__gather_all_missing_occurences (keeps storage) (λ _, True)) as Hscan.
  assert (∃ s1, authorize_sdk sdk self s = ((authorize_sdk sdk self s).1, s1) ∧
                storage s1 = storage s ∧
                ((authorize_sdk sdk self s).1 = Ok tt ∨
                 (authorize_sdk sdk self s).1 = Raise PdfixAuthorizationException ∨
                 (authorize_sdk sdk self s).1 = Raise PdfixActivationException))
    as (s1 & Hauth & Hs1 & Hres).
  { unfold authorize_sdk. repeat case_match; eexists; (split; [done|]); simpl; auto. }
  rewrite Hauth. destruct Hres as [-> | [-> | ->]]; [|by intros [|]..].
  destruct (OpenDoc sdk) as [doc|]; [|by intros [|]].
  rewrite try_finally_emit. simpl. rewrite bind_run.
  specialize (Hscan doc (λ _, I) (λ _ _, I) (λ _, I) s1).
  destruct (_gather_all_missing_occurences doc s1) as [[table|e] s2] eqn:Hgather.
  { rewrite bind_run.
    assert (only_renders_added (files s) s2) as Hinv.
    { apply (only_renders_added_storage _ s); [by rewrite <-Hs1|].
      split; [done|]. rewrite Hcache. split; [by intros path ?%elem_of_nil|done]. }
    pose proof (_process_all_missing_occurences_may_raise sdk self doc table s2) as Hraise.
    unfold _process_all_missing_occurences in *.
    destruct (for_each _ _ _ s2) as [[[]|e] s3] eqn:Hprocess.
    - apply (for_each_process_glyph_storage sdk self (files s)) in Hprocess; [|done].
      rewrite bind_run.
      pose proof (_clean_up_rendered_pages_may_raise s3) as Hraise'.
      destruct (_clean_up_rendered_pages s3) as [[[]|e] s4] eqn:Hclean.
      + apply (_clean_up_rendered_pages_restores (files s)) in Hclean; [|done].
        rewrite bind_run. simpl. by destruct (negb (Save doc)).
      + simpl in *. rewrite (Hraise' e eq_refl). by intros [|].
    - simpl in *. specialize (Hraise e eq_refl). destruct e; simpl in Hraise; by intros [|]. }
  simpl. intros Hend.
  assert (e = TypeError) as ->; [|by destruct Hend].
  unfold _gather_all_missing_occurences in Hgather.
  eapply (for_range_only_raises TypeError); [|by erewrite Hgather].
  intros. by eapply gather_page_only_raises.
Qed.

Lemma returning_run_leaves_no_file_witness :
  (fix_missing_unicode (example_sdk two_page_doc) example_config initial_state).1 = Ok tt ∧
  files (fix_missing_unicode (example_sdk two_page_doc) example_config initial_state).2 = ∅.
Proof.
  split; [vm_compute; reflexivity|].
  apply (returning_run_leaves_no_file (example_sdk two_page_doc) example_config
           initial_state); [reflexivity|by intros path _|left; vm_compute; reflexivity].
Defined.

(** ** A run on which nothing fails *)

Lemma dict_get_Some_values {K V} `{EqDecision K} (d : list (K * V)) (k : K) (v : V) :
  dict_get d k = Some v → v ∈ dict_values d.
Proof.
  unfold dict_values. induction d as [|[k' v'] d IH]; simpl; [done|].
  rewrite ?fmap_cons. case_decide.
  - intros [= ->]. apply list_elem_of_here.
  - intros Hget. apply list_elem_of_further. by apply IH.
Qed.

Lemma renders_on_disk_storage (s s' : state) :
  storage s' = storage s → renders_on_disk s → renders_on_disk s'.
Proof.
  unfold storage, renders_on_disk, names_unused. intros [= Hfiles Hnext Hcache].
  by rewrite Hfiles, Hnext, Hcache.
Qed.

Lemma renders_on_disk_log (s : state) (l : list event) :
  renders_on_disk s → renders_on_disk (set_log l s).
Proof. by apply renders_on_disk_storage. Qed.

Lemma renders_on_disk_tile (s s' : state) :
  files s' = files s → files_next s' = S (files_next s) →
  cached_renders s' = cached_renders s →
  renders_on_disk s → renders_on_disk s'.
Proof.
  unfold renders_on_disk, names_unused. intros -> -> -> (Hunused & Hrest).
  split; [|done]. intros path Hpath. apply Hunused. lia.
Qed.

Lemma renders_on_disk_render (s : state) (i : nat) (l : list event) :
  dict_get (cached_renders s) i = None →
  renders_on_disk s →
  renders_on_disk
    (mkState (dict_set (cached_renders s) i (files_next s)) (rects s) (rects_next s)
       (<[files_next s := PageRaster i]> (<[files_next s := Blank]> (files s)))
       (S (files_next s)) l).
Proof.
  intros Hget (Hunused & Hnodup & Hfiles).
  assert (files_next s ∉ dict_values (cached_renders s)) as Hnew.
  { intros [j Hj]%Hfiles. by rewrite Hunused in Hj. }
  unfold renders_on_disk, names_unused. simpl.
  rewrite (dict_set_values_new _ _ _ Hget). split; [|split].
  - intros path Hpath. rewrite !lookup_insert_ne by lia. apply Hunused. lia.
  - apply list.NoDup_app. split; [done|]. split; [|apply NoDup_singleton].
    intros path Hpath ->%list_elem_of_singleton. done.
  - intros path [Hpath| ->%list_elem_of_singleton]%elem_of_app.
    + rewrite !lookup_insert_ne by (by intros <-). by apply Hfiles.
    + exists i. by rewrite lookup_insert_eq.
Qed.

Section healthy_run.
Context (sdk : Sdk) (self : Config) (doc : PdfDoc).
Hypothesis crop_succeeds : ∀ img area, image_crop_fails sdk img area = false.
Hypothesis pages_render : renderable doc.

Lemma crop_image_returns (input output : nat) (page : PdfPage) (box i : nat) (s : state) :
  AcquirePageView page = true →
  files s !! input = Some (PageRaster i) →
  (crop_image sdk input output page box s).1 = Ok tt.
Proof.
  intros Hview Hfile. unfold crop_image. rewrite Hview. simpl.
  rewrite bind_run. simpl. rewrite bind_run. simpl. rewrite Hfile. simpl.
  by rewrite crop_succeeds.
Qed.

Lemma ocr_tile_returns (page_image i : nat) (location : CharLocation) (page : PdfPage)
    (results : list pystr) (s : state) :
  names_unused s →
  files s !! page_image = Some (PageRaster i) →
  AcquirePageView page = true →
  ∃ results',
    (with_temporary_file (λ tmp_path,
       box ← _increase_bbox (bbox location) 2;
       crop_image sdk page_image tmp_path page box;;
       result ← _ocr_character sdk self tmp_path;
       if py_truthy result then mret (results ++ [result]) else mret results) s).1
    = Ok results'.
Proof.
  intros Hunused Hfile Hview. rewrite with_temporary_file_result.
  rewrite bind_run, _increase_bbox_run, bind_run.
  match goal with |- context [crop_image ?a ?b ?c ?d ?f ?st] =>
    pose proof (crop_image_returns b c d f i st Hview) as Hcrop;
    destruct (crop_image a b c d f st) as [r s1] end.
  simpl in Hcrop. rewrite Hcrop; clear Hcrop.
  - rewrite bind_run.
    destruct (_ocr_character_returns sdk self (files_next s) s1) as [result ->].
    destruct (py_truthy result); by eexists.
  - rewrite lookup_insert_ne; [done|]. intros <-. by rewrite Hunused in Hfile.
Qed.

Lemma ocr_location_returns (location : CharLocation) (page : PdfPage)
    (results : list pystr) (s : state) :
  renders_on_disk s → render_page_calls page = Ok tt →
  ∃ results' s',
    ocr_location sdk self location page results s = (Ok results', s') ∧
    renders_on_disk s'.
Proof.
  intros Hdisk Hcalls.
  assert (AcquirePageView page = true) as Hview.
  { unfold render_page_calls in Hcalls. by destruct (AcquirePageView page). }
  unfold ocr_location. rewrite bind_run, _get_pdf_page_render_run.
  destruct (dict_get (cached_renders s) (page_index location)) as [path|] eqn:Hget.
  - destruct Hdisk as (Hunused & Hnodup & Hfiles).
    destruct (Hfiles path) as [i Hfile]; [by eapply dict_get_Some_values|].
    destruct (ocr_tile_returns path i location page results s) as [results' Hok];
      [done..|].
    destruct (ocr_tile_storage sdk self path location page results s) as (H1 & H2 & H3);
      [done|].
    destruct (with_temporary_file _ s) as [r s'] eqn:Hrun. simpl in *. subst r.
    exists results', s'. split; [done|]. by apply (renders_on_disk_tile s).
  - rewrite Hcalls. simpl.
    match goal with |- context [with_temporary_file _ ?st] =>
      assert (renders_on_disk st) as Hdisk1 by (by apply renders_on_disk_render);
      destruct (ocr_tile_returns (files_next s) (page_index location) location page
                  results st) as [results' Hok];
        [apply Hdisk1|simpl; by rewrite lookup_insert_eq|done|];
      destruct (ocr_tile_storage sdk self (files_next s) location page results st)
        as (H1 & H2 & H3); [apply Hdisk1|];
      destruct (with_temporary_file _ st) as [r s'] eqn:Hrun end.
    simpl in Hok. subst r.
    exists results', s'. split; [done|]. by eapply renders_on_disk_tile.
Qed.

Lemma ocr_locations_returns (locations : list CharLocation) (count : nat)
    (results : list pystr) (s : state) :
  renders_on_disk s →
  ∃ results' s',
    ocr_locations sdk self doc locations count results s = (Ok results', s') ∧
    renders_on_disk s'.
Proof.
  revert count results s.
  induction locations as [|location rest IH]; intros count results s Hdisk; simpl.
  - by exists results, s.
  - case_bool_decide; [by exists results, s|].
    rewrite bind_run, AcquirePage_run.
    destruct (doc_pages doc !! page_index location) as [[page|]|] eqn:Hpage; simpl.
    + unfold Release. rewrite bind_run, try_finally_emit.
      destruct (ocr_location_returns location page results
                  (set_log (log s ++ [EvAcquirePage (page_index location) true]) s))
        as (results1 & s1 & Hloc & Hdisk1);
        [by apply renders_on_disk_log|by eapply pages_render|].
      rewrite Hloc. simpl. apply IH. by apply renders_on_disk_log.
    + rewrite bind_run. simpl. apply IH. by do 2 apply renders_on_disk_log.
    + rewrite bind_run. simpl. apply IH. by do 2 apply renders_on_disk_log.
Qed.

Lemma process_glyph_returns (value : MissingGlyph) (s : state) :
  renders_on_disk s →
  ∃ s', process_glyph sdk self doc value s = (Ok tt, s') ∧ renders_on_disk s'.
Proof.
  intros Hdisk. unfold process_glyph, _ocr_missing_glyph. rewrite !bind_run.
  destruct (ocr_locations_returns (sort_reverse height (locations value)) 0 [] s Hdisk)
    as (results & s1 & -> & Hdisk1).
  rewrite choose_character_run.
  destruct results as [|first results]; simpl.
  - destruct (negb _); simpl; eexists; (split; [done|]);
      repeat apply renders_on_disk_log; done.
  - destruct (py_max_from _ _ _ _); simpl; destruct (negb _); simpl; eexists;
      (split; [done|]); repeat apply renders_on_disk_log; done.
Qed.

Lemma for_each_process_glyph_returns (values : list MissingGlyph) (s : state) :
  renders_on_disk s →
  ∃ s', for_each values (λ value _, process_glyph sdk self doc value) tt s = (Ok tt, s') ∧
        renders_on_disk s'.
Proof.
  revert s. induction values as [|value values IH]; intros s Hdisk; simpl.
  - by exists s.
  - rewrite bind_run. destruct (process_glyph_returns value s Hdisk) as (s1 & -> & Hdisk1).
    by apply IH.
Qed.

End healthy_run.

(** X14.  When nothing fails, the run returns and saves the document: with
    an SDK that initialises, authorizes and opens the document, no decoded
    text of two or more characters in reach of the scan, every acquirable
    page renderable, an imaging library that crops, and a document that can
    be saved, a run of a new instance ends without exception, and the last
    three calls it makes are the save, the close and the destroy. *)
Theorem healthy_run_returns_and_saves (sdk : Sdk) (self : Config) (doc : PdfDoc)
    (s : state) :
  GetPdfix sdk = true → Authorize sdk = true → Activate sdk = true →
  OpenDoc sdk = Some doc →
  (∀ i font char, scans_char doc i font char → (length (GetCharText char) ≤ 1)%nat) →
  renderable doc →
  (∀ img area, image_crop_fails sdk img area = false) →
  Save doc = true →
  cached_renders s = [] → names_unused s →
  let run := fix_missing_unicode sdk self s in
  run.1 = Ok tt ∧ ∃ l, log run.2 = l ++ [EvSave true; EvClose; EvDestroy].
Proof.
  intros Hpdfix Hauthorize Hactivate Hopen Hshort Hrender Hcrop Hsave Hcache Hunused run.
  subst run. unfold fix_missing_unicode. rewrite Hpdfix, Hopen. simpl.
  rewrite try_finally_emit, bind_run.
  assert (∃ s1, authorize_sdk sdk self s = (Ok tt, s1) ∧ storage s1 = storage s)
    as (s1 & -> & Hs1).
  { unfold authorize_sdk. rewrite Hauthorize, Hactivate. simpl.
    repeat case_match; by eexists. }
  rewrite try_finally_emit, bind_run.
  destruct (scan_returns doc s1 Hshort) as [table Htable].
  pose proof (steps__gather_all_missing_occurences (keeps storage) (λ _, True) doc
                (λ _, I) (λ _ _, I) (λ _, I) s1) as Hs2.
  destruct (_gather_all_missing_occurences doc s1) as [r s2]. simpl in Htable. subst r.
  assert (renders_on_disk s2) as Hdisk.
  { apply (renders_on_disk_storage s); [by rewrite <-Hs1|].
    split; [done|]. rewrite Hcache. split; [apply NoDup_nil_2|].
    by intros path ?%elem_of_nil. }
  rewrite bind_run. unfold _process_all_missing_occurences.
  destruct (for_each_process_glyph_returns sdk self doc Hcrop Hrender
              (dict_values table) s2 Hdisk) as (s3 & -> & Hnodup & Hfiles).
  rewrite bind_run.
  destruct (_clean_up_rendered_pages_removes_each_once s3) as (Hok & _).
  { apply Hfiles. }
  { intros p Hp. destruct Hfiles as [_ Hfiles]. destruct (Hfiles p Hp) as [i ->]. done. }
  destruct (_clean_up_rendered_pages s3) as [r s4]. simpl in Hok. subst r.
  rewrite bind_run. simpl. rewrite Hsave. simpl. split; [done|].
  exists (log s4). by rewrite <-!app_assoc.
Qed.

Lemma healthy_run_returns_and_saves_witness :
  let run := fix_missing_unicode (example_sdk two_page_doc) example_config initial_state in
  run.1 = Ok tt ∧ ∃ l, log run.2 = l ++ [EvSave true; EvClose; EvDestroy].
Proof.
  apply (healthy_run_returns_and_saves (example_sdk two_page_doc) example_config
           two_page_doc initial_state); try reflexivity.
  - intros i font char (page & objects & j & chars & k & Hp & Hc & Ho & He & Hch).
    unfold two_page_doc, good_page, text_object in *.
    destruct i as [|[|i]]; simplify_eq/=; destruct j as [|j]; simplify_eq/=;
      destruct k as [|k]; simplify_eq/=; lia.
  - intros i page Hpage. unfold two_page_doc in Hpage.
    destruct i as [|[|i]]; simplify_eq/=; reflexivity.
  - by intros path _.
Defined.

(** ** The characters a run assigns *)

Lemma py_max_from_elem {A K} (gt : K → K → bool) (key : A → K) (best : A) (l : list A) :
  py_max_from gt key best l ∈ best :: l.
Proof.
  revert best. induction l as [|x l IH]; intros best; simpl.
  - apply list_elem_of_here.
  - specialize (IH (if gt (key x) (key best) then x else best)).
    apply elem_of_cons in IH as [->|IH].
    + destruct (gt _ _); [apply list_elem_of_further|]; apply list_elem_of_here.
    + by do 2 apply list_elem_of_further.
Qed.

Lemma assignments_assigns_only (P : pystr → Prop) (delta : list event) :
  Forall (assigns_only P) delta → Forall (λ a, P a.1.2) (assignments delta).
Proof.
  unfold assignments. induction 1 as [|e delta He _ IH]; simpl; [constructor|].
  destruct e; simpl; try done. by constructor.
Qed.

Section assigned_characters.
Context (sdk : Sdk) (self : Config) (doc : PdfDoc) (P : pystr → Prop).
Hypothesis recognised :
  ∀ path s r, (_ocr_character sdk self path s).1 = Ok r → r = [] ∨ P r.
Hypothesis default_allowed : P (default_character self).

Lemma ocr_location_recognised (location : CharLocation) (page : PdfPage)
    (results r : list pystr) (s : state) :
  Forall P results →
  (ocr_location sdk self location page results s).1 = Ok r →
  Forall P r.
Proof.
  intros Hres. unfold ocr_location. rewrite bind_run.
  destruct (_get_pdf_page_render _ _ s) as [[page_image|e] s1]; [|done].
  rewrite with_temporary_file_result. rewrite bind_run, _increase_bbox_run, bind_run.
  destruct (crop_image _ _ _ _ _ _) as [[[]|e] s2]; [|done].
  rewrite bind_run.
  pose proof (recognised (files_next s1) s2) as Hrec.
  destruct (_ocr_character _ _ _ _) as [[result|e] s3]; [|done].
  destruct (Hrec result eq_refl) as [->|HP]; [by intros [= <-]|].
  destruct (py_truthy result); intros [= <-]; [|done].
  apply Forall_app. split; [done|]. by constructor.
Qed.

Lemma ocr_locations_recognised (locations : list CharLocation) (count : nat)
    (results r : list pystr) (s : state) :
  Forall P results →
  (ocr_locations sdk self doc locations count results s).1 = Ok r →
  Forall P r.
Proof.
  revert count results s.
  induction locations as [|location rest IH]; intros count results s Hres; simpl.
  - by intros [= <-].
  - case_bool_decide; [by intros [= <-]|].
    rewrite bind_run, AcquirePage_run.
    destruct (mjoin _) as [page|].
    + unfold Release. rewrite bind_run, try_finally_emit.
      destruct (ocr_location _ _ _ _ _ _).1 as [results'|e] eqn:Hbody; [|done].
      apply IH. by eapply ocr_location_recognised.
    + rewrite bind_run. apply IH. done.
Qed.

Lemma _ocr_missing_glyph_recognised (locations : list CharLocation)
    (missing_glyph : MissingGlyph) (c : pystr) (s : state) :
  (_ocr_missing_glyph sdk self doc locations missing_glyph s).1 = Ok c → P c.
Proof.
  unfold _ocr_missing_glyph. rewrite bind_run.
  pose proof (λ r, ocr_locations_recognised locations 0 [] r s (Forall_nil_2 _)) as Hres.
  destruct (ocr_locations sdk self doc locations 0 [] s) as [[results|e] s1];
    simpl in *; [|done].
  specialize (Hres results eq_refl). rewrite choose_character_run.
  destruct results as [|first rest]; simpl; intros [= <-]; [done|].
  rewrite list.Forall_forall in Hres. apply Hres, py_max_from_elem.
Qed.

Lemma process_glyph_assigns (value : MissingGlyph) :
  steps (log_grows (assigns_only P)) (process_glyph sdk self doc value).
Proof.
  intros s. unfold process_glyph. rewrite bind_run.
  pose proof (steps__ocr_missing_glyph sdk self (log_grows (assigns_only P))
                (assigns_only P) doc (sort_reverse height (locations value)) value
                (λ _, I) (λ _ _ _, I) (λ _ _, I) (λ _, I) s) as Hgrow.
  pose proof (λ c, _ocr_missing_glyph_recognised (sort_reverse height (locations value))
                     value c s) as Hchar.
  destruct (_ocr_missing_glyph _ _ _ _ _ s) as [[new_char|e] s1]; simpl in *; [|done].
  specialize (Hchar new_char eq_refl).
  etransitivity; [exact Hgrow|]. rewrite bind_run. simpl.
  destruct (negb _); simpl.
  - exists [EvSetUnicode (font_id (font value)) (char_code value) new_char
              (SetUnicodeForCharcode sdk (font value) (char_code value) new_char);
            EvPrint "Failed to set character to charcode"].
    split; [by rewrite <-app_assoc|]. by repeat constructor.
  - eexists [_]. split; [done|]. by repeat constructor.
Qed.

Lemma _process_all_missing_occurences_assigns
    (missing_glyphs : list (string * MissingGlyph)) :
  steps (log_grows (assigns_only P))
    (_process_all_missing_occurences sdk self doc missing_glyphs).
Proof.
  unfold _process_all_missing_occurences. apply steps_for_each; [apply _|].
  intros value []. apply process_glyph_assigns.
Qed.

End assigned_characters.

(** X15.  With the Tesseract engine every character the resolver assigns to
    a glyph is a single character or the default character, whatever the
    engine reads, and whether the resolution returns or raises. *)
Theorem tesseract_assigns_single_characters (sdk : Sdk) (self : Config) (doc : PdfDoc)
    (missing_glyphs : list (string * MissingGlyph)) (s : state) :
  engine self = TESSERACT_OCR self →
  engine self ≠ EASY_OCR self → engine self ≠ RAPID_OCR self →
  let run := _process_all_missing_occurences sdk self doc missing_glyphs s in
  ∃ delta,
    log run.2 = log s ++ delta ∧
    Forall (λ a, length a.1.2 = 1%nat ∨ a.1.2 = default_character self)
      (assignments delta).
Proof.
  intros Htesseract Heasy Hrapid run.
  destruct (_process_all_missing_occurences_assigns sdk self doc
              (λ c, length c = 1%nat ∨ c = default_character self)) with
    (missing_glyphs := missing_glyphs) (s := s) as (delta & Hlog & Hdelta).
  - intros path s0 r. unfold _ocr_character.
    apply String.eqb_neq in Heasy, Hrapid. rewrite Heasy, Hrapid.
    rewrite Htesseract, String.eqb_refl, tesseract_ocr_run.
    destruct (run_engine _ _ _).1 as [result|e]; simpl; intros [= <-]; [|by right; right].
    destruct (py_strip 10 result); [by left|right; by left].
  - by right.
  - exists delta. split; [done|]. by apply assignments_assigns_only in Hdelta.
Qed.

Lemma tesseract_assigns_single_characters_witness :
  let table :=
    [("F11", mkGlyph example_font 1 [mkLocation 0 0 20] "F11");
     ("F12", mkGlyph example_font 2 [mkLocation 1 1 10] "F12")] in
  let run := _process_all_missing_occurences (example_sdk two_page_doc) example_config
               two_page_doc table initial_state in
  ∃ delta,
    log run.2 = log initial_state ++ delta ∧
    Forall (λ a, length a.1.2 = 1%nat ∨ a.1.2 = default_character example_config)
      (assignments delta).
Proof.
  intros table.
  apply (tesseract_assigns_single_characters (example_sdk two_page_doc) example_config
           two_page_doc table initial_state); [reflexivity|by vm_compute..].
Defined.

(** ** What a scan does *)

Global Instance boxes_kept_preorder : PreOrder boxes_kept.
Proof.
  split.
  - by intros s.
  - intros s1 s2 s3 [Hn1 Hb1] [Hn2 Hb2]. split; [lia|].
    intros b Hb. rewrite Hb2 by lia. by apply Hb1.
Qed.
Global Instance boxes_kept_events : AllowsEvents boxes_kept (λ _, True).
Proof. by intros e _ s. Qed.
Global Instance boxes_kept_new_rect : AllowsNewRect boxes_kept.
Proof.
  intros fields s. split; simpl; [lia|]. intros b Hb.
  rewrite fn_lookup_insert_ne; [done|lia].
Qed.

Section scan_calls.
Context (doc : PdfDoc).

Lemma gather_page_acquires (i : nat) (missing_glyphs : list (string * MissingGlyph))
    (s : state) :
  ∃ delta, log (gather_page doc i missing_glyphs s).2 = log s ++ delta ∧
           acquired_pages delta = [i].
Proof.
  unfold gather_page. rewrite bind_run, AcquirePage_run.
  destruct (mjoin (doc_pages doc !! i)) as [page|]; simpl.
  - unfold Release. rewrite try_finally_emit. simpl.
    match goal with |- context [(?m ?s1).2] =>
      assert (steps (log_grows (λ e, ¬ is_acquire e)) m) as Hbody;
        [|destruct (Hbody s1) as (delta & -> & Hdelta)] end.
    { pose proof (steps_gather_object (log_grows (λ e, ¬ is_acquire e)) _ i).
      assert (∀ msg, ¬ is_acquire (EvPrint msg)) by (intros msg []).
      steps_tac. }
    eexists (EvAcquirePage i _ :: delta ++ [EvReleasePage i]).
    split; [simpl; by rewrite <-!app_assoc|].
    rewrite acquired_pages_acquire, acquired_pages_app, (acquired_pages_none delta Hdelta).
    done.
  - eexists [_; _]. split; [by rewrite <-app_assoc|done].
Qed.

Lemma gather_pages_acquire (start count : nat)
    (missing_glyphs : list (string * MissingGlyph)) (s : state) :
  let run := for_range start count (gather_page doc) missing_glyphs s in
  ∃ delta n, log run.2 = log s ++ delta ∧ acquired_pages delta = seq start n ∧
             (∀ table, run.1 = Ok table → n = count).
Proof.
  revert start missing_glyphs s.
  induction count as [|count IH]; intros start missing_glyphs s; simpl.
  - exists [], 0%nat. by rewrite app_nil_r.
  - rewrite bind_run.
    destruct (gather_page_acquires start missing_glyphs s) as (d1 & Hlog1 & Hd1).
    destruct (gather_page doc start missing_glyphs s) as [[table1|e] s1]; simpl in *.
    + destruct (IH (S start) table1 s1) as (d2 & n & Hlog2 & Hd2 & Hn).
      exists (d1 ++ d2), (S n). rewrite Hlog2, Hlog1, acquired_pages_app, Hd1, Hd2.
      split; [by rewrite app_assoc|]. split; [done|].
      intros table Hok. by rewrite (Hn table Hok).
    + exists d1, 1%nat. by rewrite Hlog1, Hd1.
Qed.

End scan_calls.

(** X16.  A scan only reads the document: it leaves the files and the cache
    of rendered pages as they are, changes no bounding box that existed
    before it, and calls nothing but page acquisitions, page releases and
    prints.  It acquires the pages in order from the first, each once: all
    of them when it returns, a first stretch of them when it raises. *)
Theorem scan_only_reads (doc : PdfDoc) (s : state) :
  let run := _gather_all_missing_occurences doc s in
  storage run.2 = storage s ∧
  boxes_kept s run.2 ∧
  ∃ delta n,
    log run.2 = log s ++ delta ∧
    Forall is_page_event delta ∧
    acquired_pages delta = seq 0 n ∧
    (∀ table, run.1 = Ok table → n = length (doc_pages doc)).
Proof.
  intros run. split; [|split].
  - by apply (steps__gather_all_missing_occurences (keeps storage) (λ _, True)).
  - by apply (steps__gather_all_missing_occurences boxes_kept (λ _, True)).
  - destruct (steps__gather_all_missing_occurences (log_grows is_page_event) is_page_event
                doc (λ _, I) (λ _ _, I) (λ _, I) s) as (delta & Hlog & Hdelta).
    destruct (gather_pages_acquire doc 0 (length (doc_pages doc)) [] s)
      as (delta' & n & Hlog' & Hacquired & Hn).
    unfold run, _gather_all_missing_occurences in *. simpl in Hlog', Hn.
    exists delta, n. split; [done|]. split; [done|]. split; [|done].
    rewrite Hlog in Hlog'. by apply app_inv_head in Hlog' as ->.
Qed.

(** ** Parsing the answer of RapidOCR *)

Section parsing.
Context (py_str : pyobj → pystr) (py_float : pyobj → result Z).

Lemma parse_members_length (members : list pyobj) (acc output : list (pystr * Z)) :
  parse_members py_str py_float members acc = Parsed output →
  length output = (length acc + length (List.filter is_PyList members))%nat.
Proof.
  revert acc. induction members as [|member members IH]; intros acc; simpl.
  - intros [= <-]. lia.
  - destruct member as [| | |fields|]; simpl; try (intros Hrest; by apply IH in Hrest).
    destruct (match fields !! 2%nat with Some _ => _ | None => _ end); [|done].
    intros Hrest. apply IH in Hrest. rewrite Hrest, length_app. simpl. lia.
Qed.

Lemma parse_members_detections (detections : list (pyobj * pystr * Z))
    (acc : list (pystr * Z)) :
  (∀ text, py_str (PyStr text) = text) →
  (∀ score, py_float (PyFloat score) = Ok score) →
  parse_members py_str py_float
    ((λ d, PyList [d.1.1; PyStr d.1.2; PyFloat d.2]) <$> detections) acc
  = Parsed (acc ++ ((λ d, (d.1.2, d.2)) <$> detections)).
Proof.
  intros Hstr Hfloat. revert acc.
  induction detections as [|d detections IH]; intros acc; simpl.
  - by rewrite app_nil_r.
  - rewrite Hstr, Hfloat, IH. by rewrite <-app_assoc.
Qed.

End parsing.

(** X17.  [_parse_rapid_ocr] gives back the detections of RapidOCR: from the
    engine's answer, the tuple of the list of [box, text, score] lists and
    of the times, it returns the (text, score) pairs in order.  Whatever the
    members are, a returned list has one pair for each member that is a
    list, the others being skipped.  An empty tuple raises [IndexError];
    any other answer that is not a tuple starting with a list gives the
    empty list. *)
Theorem parse_rapid_ocr_reads_detections (py_str : pyobj → pystr)
    (py_float : pyobj → result Z) :
  (∀ text, py_str (PyStr text) = text) →
  (∀ score, py_float (PyFloat score) = Ok score) →
  (∀ detections times,
     _parse_rapid_ocr py_str py_float (rapid_answer detections times)
     = Parsed ((λ d, (d.1.2, d.2)) <$> detections)) ∧
  (∀ members times output,
     _parse_rapid_ocr py_str py_float (PyTuple (PyList members :: times)) = Parsed output →
     length output = length (List.filter is_PyList members)) ∧
  _parse_rapid_ocr py_str py_float (PyTuple []) = ParseRaises IndexError ∧
  (∀ answer,
     answer ≠ PyTuple [] →
     (∀ members times, answer ≠ PyTuple (PyList members :: times)) →
     _parse_rapid_ocr py_str py_float answer = Parsed []).
Proof.
  intros Hstr Hfloat. split; [|split; [|split]].
  - intros detections times. unfold rapid_answer, _parse_rapid_ocr. simpl.
    by rewrite parse_members_detections.
  - intros members times output Hparse. unfold _parse_rapid_ocr in Hparse. simpl in Hparse.
    by apply parse_members_length in Hparse.
  - done.
  - intros answer Hempty Hlist. destruct answer as [| | | |items]; try done.
    destruct items as [|first rest]; [done|].
    destruct first; try done. by destruct (Hlist items rest).
Qed.

Lemma parse_rapid_ocr_reads_detections_witness :
  _parse_rapid_ocr (λ o, match o with PyStr text => text | _ => [] end)
    (λ o, match o with PyFloat score => Ok score | _ => Raise TypeError end)
    (rapid_answer [(PyNone, [65], 9); (PyNone, [66], 7)] [PyNone])
  = Parsed [([65], 9); ([66], 7)].
Proof.
  destruct (parse_rapid_ocr_reads_detections
              (λ o, match o with PyStr text => text | _ => [] end)
              (λ o, match o with PyFloat score => Ok score | _ => Raise TypeError end))
    as [Hread _]; [reflexivity..|].
  apply (Hread [(PyNone, [65], 9); (PyNone, [66], 7)] [PyNone]).
Defined.

(** ** Saving the document *)

Global Instance log_grows_not_save_remove : AllowsRemove (log_grows (λ e, ¬ is_save e)).
Proof. intros path. apply log_grows_os_remove. by intros []. Qed.

Section saving.
Context (sdk : Sdk) (self : Config).

Lemma fix_body_saves (doc : PdfDoc) (s : state) :
  let run := (missing_glyphs ← _gather_all_missing_occurences doc;
              _process_all_missing_occurences sdk self doc missing_glyphs;;
              _clean_up_rendered_pages;;
              emit (EvSave (Save doc));;
              if negb (Save doc) then mthrow PdfixFailedToSaveException else mret tt) s in
  ∃ delta,
    log run.2 = log s ++ delta ∧
    ((Forall (λ e, ¬ is_save e) delta ∧
      run.1 ≠ Ok tt ∧ run.1 ≠ Raise PdfixFailedToSaveException) ∨
     (∃ d, delta = d ++ [EvSave (Save doc)] ∧ Forall (λ e, ¬ is_save e) d ∧
           run.1 = if Save doc then Ok tt else Raise PdfixFailedToSaveException)).
Proof.
  assert (∀ msg, ¬ is_save (EvPrint msg)) as Hprint by (by intros msg []).
  assert (∀ j b, ¬ is_save (EvAcquirePage j b)) as Hacquire by (by intros j b []).
  assert (∀ j, ¬ is_save (EvReleasePage j)) as Hrelease by (by intros j []).
  assert (∀ j p b, ¬ is_save (EvRenderPage j p b)) as Hrender by (by intros j p b []).
  assert (∀ f c u b, ¬ is_save (EvSetUnicode f c u b)) as Hset by (by intros f c u b []).
  simpl. rewrite bind_run.
  destruct (steps__gather_all_missing_occurences (log_grows (λ e, ¬ is_save e))
              (λ e, ¬ is_save e) doc Hprint Hacquire Hrelease s) as (d1 & Hlog1 & Hd1).
  assert (∀ e, (_gather_all_missing_occurences doc s).1 = Raise e → e = TypeError)
    as Hraise1.
  { intros e. unfold _gather_all_missing_occurences.
    apply for_range_only_raises. intros. by eapply gather_page_only_raises. }
  destruct (_gather_all_missing_occurences doc s) as [[table|e] s1]; simpl in *.
  2: { exists d1. split; [done|]. left. split; [done|].
       rewrite (Hraise1 e eq_refl). done. }
  clear Hraise1. rewrite bind_run.
  destruct (steps__process_all_missing_occurences sdk self (log_grows (λ e, ¬ is_save e))
              (λ e, ¬ is_save e) doc table Hprint Hrender Hacquire Hrelease Hset s1)
    as (d2 & Hlog2 & Hd2).
  pose proof (_process_all_missing_occurences_may_raise sdk self doc table s1) as Hraise2.
  destruct (_process_all_missing_occurences sdk self doc table s1) as [[[]|e] s2];
    simpl in *.
  2: { exists (d1 ++ d2). rewrite Hlog2, Hlog1. split; [by rewrite app_assoc|].
       left. split; [by apply Forall_app|]. specialize (Hraise2 e eq_refl).
       by destruct e. }
  clear Hraise2. rewrite bind_run.
  destruct (steps__clean_up_rendered_pages (log_grows (λ e, ¬ is_save e)) s2)
    as (d3 & Hlog3 & Hd3).
  pose proof (_clean_up_rendered_pages_may_raise s2) as Hraise3.
  destruct (_clean_up_rendered_pages s2) as [[[]|e] s3]; simpl in *.
  2: { exists (d1 ++ d2 ++ d3). rewrite Hlog3, Hlog2, Hlog1.
       split; [by rewrite !app_assoc|].
       left. split; [by repeat (apply Forall_app; split)|].
       by rewrite (Hraise3 e eq_refl). }
  rewrite bind_run. simpl.
  exists ((d1 ++ d2 ++ d3) ++ [EvSave (Save doc)]).
  assert (Forall (λ e, ¬ is_save e) (d1 ++ d2 ++ d3))
    by (by repeat (apply Forall_app; split)).
  destruct (Save doc); simpl; (split; [by rewrite Hlog3, Hlog2, Hlog1, !app_assoc|]);
    right; by eexists.
Qed.

End saving.

(** X18.  The document is saved only by a run that got through the scan,
    the resolution of every glyph and the clean-up.  Either the run makes no
    save call at all, and then it raises an exception other than the one of
    a failed save; or its save call is its only one and its last call before
    the document is closed and the SDK destroyed, and the run returns when
    the save succeeded and raises [PdfixFailedToSaveException] when not. *)
Theorem document_saved_last_or_never (sdk : Sdk) (self : Config) (s : state) :
  let run := fix_missing_unicode sdk self s in
  ∃ delta,
    log run.2 = log s ++ delta ∧
    ((Forall (λ e, ¬ is_save e) delta ∧
      run.1 ≠ Ok tt ∧ run.1 ≠ Raise PdfixFailedToSaveException) ∨
     (∃ d saved, delta = d ++ [EvSave saved; EvClose; EvDestroy] ∧
                 Forall (λ e, ¬ is_save e) d ∧
                 run.1 = if saved then Ok tt else Raise PdfixFailedToSaveException)).
Proof.
  intros run. unfold run, fix_missing_unicode.
  destruct (negb (GetPdfix sdk)).
  { exists []. split; [by rewrite app_nil_r|]. by left. }
  rewrite try_finally_emit. simpl. rewrite bind_run.
  assert (∃ d0, log (authorize_sdk sdk self s).2 = log s ++ d0 ∧
                Forall (λ e, ¬ is_save e) d0 ∧
                ((authorize_sdk sdk self s).1 = Ok tt ∨
                 (authorize_sdk sdk self s).1 = Raise PdfixAuthorizationException ∨
                 (authorize_sdk sdk self s).1 = Raise PdfixActivationException))
    as (d0 & Hlog0 & Hd0 & Hres).
  { unfold authorize_sdk. repeat case_match; simpl;
      first [ exists []; rewrite app_nil_r; by auto
            | eexists [_]; split; [done|]; split; [|by auto];
              constructor; [by intros []|done] ]. }
  destruct (authorize_sdk sdk self s) as [r s1]. simpl in *.
  destruct Hres as [-> | [-> | ->]]; simpl.
  2, 3: exists (d0 ++ [EvDestroy]); rewrite Hlog0; (split; [by rewrite app_assoc|]);
        left; (split; [|done]); apply Forall_app; (split; [done|]);
        constructor; [by intros []|done].
  destruct (OpenDoc sdk) as [doc|]; simpl.
  2: { exists (d0 ++ [EvDestroy]). rewrite Hlog0. split; [by rewrite app_assoc|].
       left. split; [|done]. apply Forall_app. split; [done|].
       constructor; [by intros []|done]. }
  rewrite try_finally_emit.
  destruct (fix_body_saves sdk self doc s1) as (d1 & Hlog1 & Hcases).
  simpl in Hlog1, Hcases. simpl. rewrite Hlog1, Hlog0.
  destruct Hcases as [(Hd1 & Hok & Hsave) | (d & -> & Hd & Hres)].
  - exists (d0 ++ d1 ++ [EvClose; EvDestroy]).
    split; [by rewrite <-!app_assoc|]. left. split; [|done].
    repeat (apply Forall_app; split); try done.
    repeat constructor; by intros [].
  - exists ((d0 ++ d) ++ [EvSave (Save doc); EvClose; EvDestroy]).
    split; [by rewrite <-!app_assoc|]. right. exists (d0 ++ d), (Save doc).
    split; [done|]. split; [by apply Forall_app|done].
Qed.

(** ** The cache of rendered pages *)

(** X19.  A page raster that [_get_pdf_page_render] returns is cached: any
    later request for the same page returns the same file and does nothing
    else, whatever has become of the page, and the entries of the other
    pages are as before.  A rendering that fails is not cached; the
    temporary file created for it stays behind, empty and known to no one,
    and the exception is a rendering exception. *)
Theorem rendered_page_is_cached (i : nat) (page : PdfPage) (s : state) :
  let run := _get_pdf_page_render i page s in
  match run.1 with
  | Ok path =>
      (∀ page', _get_pdf_page_render i page' run.2 = (Ok path, run.2)) ∧
      (∀ j, j ≠ i → dict_get (cached_renders run.2) j = dict_get (cached_renders s) j)
  | Raise e =>
      (∃ message, e = PdfixFailedToRenderException message) ∧
      dict_get (cached_renders run.2) i = None ∧
      cached_renders run.2 = cached_renders s ∧
      files run.2 = <[files_next s := Blank]> (files s) ∧
      files_next run.2 = S (files_next s)
  end.
Proof.
  intros run. unfold run. rewrite _get_pdf_page_render_run.
  destruct (dict_get (cached_renders s) i) as [path|] eqn:Hget; simpl.
  - split; [|done]. intros page'. by rewrite _get_pdf_page_render_run, Hget.
  - destruct (render_page_calls page) as [[]|e] eqn:Hcalls; simpl.
    + split.
      * intros page'. rewrite _get_pdf_page_render_run. simpl.
        by rewrite dict_get_set_eq.
      * intros j Hne. by apply dict_get_set_ne.
    + split; [by eapply render_page_calls_raises|done].
Qed.
